(** * PolyTree: polynomial regression trees (equadratures/polytree.py)

    A shallow embedding of [PolyTree.fit] and [PolyTree.predict] together
    with the properties of the tree construction and of the predictor.

    The numerical layer (numpy's float64 scalars) and the polynomial
    library ([Parameter], [Basis], [Poly]) are interfaces: the tree code is
    written once over them and run on two instances, IEEE binary64 numbers
    (the kernel's primitive floats) and exact rationals. *)

From Stdlib Require Import String.
From Stdlib Require Import ZArith List Bool Lia Permutation Sorted.
From Stdlib Require Import QArith.
From Stdlib Require Import Uint63 Floats.
Import ListNotations.

Set Warnings "-register-all".

Set Implicit Arguments.
Local Open Scope Z_scope.

(* ================================================================== *)
(** ** Exceptions and the error monad *)

Inductive exn : Type :=
| AssertionError   (* a failed [assert] *)
| IndexError       (* an index outside an array *)
| KeyError         (* a deleted dictionary key *)
| TypeError        (* an operation on [None] *)
| ValueError       (* [min]/[max] of an empty sequence, a bad argument *)
| SearchTypeError  (* Exception('Incorrect search type! ...') *)
| FitFailure.      (* raised inside the polynomial library *)

(** Outcome of a computation: a value, a raised exception, or (only for
    the fuelled recursion of the builder) an exhausted fuel. *)
Inductive outcome (A : Type) : Type :=
| Ok (a : A)
| Raise (e : exn)
| OutOfFuel.

Arguments Ok {A} a.
Arguments Raise {A} e.
Arguments OutOfFuel {A}.

Definition obind {A B} (m : outcome A) (k : A -> outcome B) : outcome B :=
  match m with
  | Ok a => k a
  | Raise e => Raise e
  | OutOfFuel => OutOfFuel
  end.

Declare Scope err_scope.
Delimit Scope err_scope with err.
Notation "x <-- m ; k" := (obind m (fun x => k))
  (at level 61, m at next level, right associativity) : err_scope.
Notation "' p <-- m ; k" := (obind m (fun p => k))
  (at level 61, p pattern, m at next level, right associativity) : err_scope.

(** [l[idx]] for an index array: every index must be inside [l]. *)
Fixpoint take_idx {A} (l : list A) (idx : list nat) : outcome (list A) :=
  match idx with
  | [] => Ok []
  | i :: rest =>
      match nth_error l i with
      | None => Raise IndexError
      | Some a => obind (take_idx l rest) (fun r => Ok (a :: r))
      end
  end.

(** [np.where(mask)[0]]: the positions at which the mask holds, ascending. *)
Fixpoint where_from (i : nat) (mask : list bool) : list nat :=
  match mask with
  | [] => []
  | b :: rest => if b then i :: where_from (S i) rest else where_from (S i) rest
  end.

Definition np_where (mask : list bool) : list nat := where_from 0 mask.

(** [np.arange(a, b)]. *)
Definition np_arange (a b : nat) : list nat := seq a (b - a).

(** [np.delete(l, idx)]: [l] without the entries at the positions [idx]. *)
Definition np_delete {A} (l : list A) (idx : list nat) : list A :=
  map snd
      (filter (fun p => negb (existsb (Nat.eqb (fst p)) idx))
              (combine (seq 0 (length l)) l)).

(* ================================================================== *)
(** ** The numerical interface *)

(** The float64 operations the tree code uses. *)
Class Float64 (num : Type) : Type := {
  nle : num -> num -> bool;          (* a <= b *)
  nlt : num -> num -> bool;          (* a < b *)
  neq : num -> num -> bool;          (* a == b *)
  nadd : num -> num -> num;
  nsub : num -> num -> num;
  nmul : num -> num -> num;
  ndiv : num -> num -> num;
  of_int : Z -> num;                 (* int -> float64 *)
  lit_0_01 : num;                    (* the literal 0.01 *)
  linalg_norm : list num -> num      (* np.linalg.norm of a vector *)
}.

(** [np.isnan]: a NaN is the one number that is not equal to itself. *)
Definition is_nan {num} `{Float64 num} (x : num) : bool := negb (neq x x).

(** The order laws some properties rely on, both of them laws of float64
    with its NaN: [<] is a strict order, and [<=] is transitive, holds of
    no NaN, and is total on the numbers that are not NaN. *)
Record StrictOrder_nlt {num} `{Float64 num} : Prop := {
  nlt_irrefl : forall a, nlt a a = false;
  nlt_trans : forall a b c, nlt a b = true -> nlt b c = true -> nlt a c = true
}.

Record Order_nle {num} `{Float64 num} : Prop := {
  nle_nan : forall a b,
      nle a b = true -> is_nan a = false /\ is_nan b = false;
  nle_total : forall a b,
      is_nan a = false -> is_nan b = false ->
      nle a b = true \/ nle b a = true;
  nle_trans : forall a b c, nle a b = true -> nle b c = true -> nle a c = true
}.

Arguments StrictOrder_nlt num {_}.
Arguments Order_nle num {_}.

(** A two-dimensional array: its rows and its second dimension, so that
    [X.shape = (length (rows X), ncols X)] also for an array without rows.
    Every row of an array has [ncols] entries. *)
Record ndarray (num : Type) : Type :=
  mk_array { rows : list (list num); ncols : nat }.

Definition len {num} (X : ndarray num) : nat := length (rows X).

Section Arrays.

Context {num : Type} `{F : Float64 num}.

(** [[X[i, j] for i in range(N)]]. *)
Definition column (X : ndarray num) (j : nat) : list num :=
  map (fun r => nth j r (of_int 0)) (rows X).

(** [X[:, j]]. *)
Definition slice_col (X : ndarray num) (j : nat) : outcome (list num) :=
  if (j <? ncols X)%nat then Ok (column X j) else Raise IndexError.

(** [X[idx]] for an index array. *)
Definition take_rows (X : ndarray num) (idx : list nat) : outcome (ndarray num) :=
  obind (take_idx (rows X) idx) (fun r => Ok (mk_array r (ncols X))).

(** Python's [min] and [max] of a list: the first of the least, and the
    first of the greatest, by [<]. *)
Definition py_min (l : list num) : outcome num :=
  match l with
  | [] => Raise ValueError
  | x :: r => Ok (fold_left (fun m v => if nlt v m then v else m) r x)
  end.

Definition py_max (l : list num) : outcome num :=
  match l with
  | [] => Raise ValueError
  | x :: r => Ok (fold_left (fun m v => if nlt m v then v else m) r x)
  end.

(** [np.min] and [np.max] of a one-dimensional array: the reduction of
    [np.minimum] and [np.maximum] from the left, which keeps the
    accumulated value when it is [<=] (for the maximum [>=]) the next entry
    or is a NaN, and takes the entry otherwise; so a NaN anywhere in the
    array is the result.  An empty array is a [ValueError]. *)
Definition np_minimum (acc v : num) : num :=
  if nle acc v || is_nan acc then acc else v.

Definition np_maximum (acc v : num) : num :=
  if nle v acc || is_nan acc then acc else v.

Definition np_min (l : list num) : outcome num :=
  match l with
  | [] => Raise ValueError
  | x :: r => Ok (fold_left np_minimum r x)
  end.

Definition np_max (l : list num) : outcome num :=
  match l with
  | [] => Raise ValueError
  | x :: r => Ok (fold_left np_maximum r x)
  end.

(** [np.sort]: the numbers that are not NaN in ascending order, here by
    insertion, and every NaN after them. *)
Fixpoint insert_sorted (x : num) (l : list num) : list num :=
  match l with
  | [] => [x]
  | y :: r => if nle x y then x :: y :: r else y :: insert_sorted x r
  end.

Definition np_sort (l : list num) : list num :=
  fold_right insert_sorted [] (filter (fun v => negb (is_nan v)) l)
    ++ filter is_nan l.

(** The order of a sorted array: not above, with NaN last. *)
Definition np_le (a b : num) : Prop := is_nan b = true \/ nle a b = true.

(** [np.linspace(start, stop, num=n)] with its end point. *)
Definition np_linspace (start stop : num) (n : Z) : outcome (list num) :=
  if n <? 0 then Raise ValueError
  else
    let div := n - 1 in
    let delta := nsub stop start in
    let step := ndiv delta (of_int div) in
    let y (i : nat) : num :=
      let fi := of_int (Z.of_nat i) in
      if (1 <? n) && (Z.of_nat i =? div) then stop
      else if 0 <? div then
        (if neq step (of_int 0)
         then nadd (nmul (ndiv fi (of_int div)) delta) start
         else nadd (nmul fi step) start)
      else nadd (nmul fi delta) start in
    Ok (map y (seq 0 (Z.to_nat n))).

(** *** _split_data (polytree.py, lines 180-184) *)
Definition _split_data (j_feature : nat) (threshold : num)
           (X : ndarray num) (y : list num)
  : outcome ((ndarray num * list num) * (ndarray num * list num)) :=
  (col <-- slice_col X j_feature;
   let idx_left := np_where (map (fun v => nle v threshold) col) in
   let idx_right := np_delete (np_arange 0 (len X)) idx_left in
   if negb (length idx_left + length idx_right =? len X)%nat
   then Raise AssertionError
   else
     X_left <-- take_rows X idx_left;
     y_left <-- take_idx y idx_left;
     X_right <-- take_rows X idx_right;
     y_right <-- take_idx y idx_right;
     Ok ((X_left, y_left), (X_right, y_right)))%err.

(** The test [X[i, j] <= threshold] on the row [r = X[i]]. *)
Definition goes_left (j : nat) (t : num) (r : list num) : bool :=
  nle (nth j r (of_int 0)) t.

(** [a - b] on vectors. *)
Fixpoint vsub (a b : list num) : list num :=
  match a, b with
  | x :: a', y :: b' => nsub x y :: vsub a' b'
  | _, _ => []
  end.

End Arrays.

(* ================================================================== *)
(** ** The polynomial library *)

(** The object [Parameter(distribution=..., lower=..., upper=..., order=...)]. *)
Record UniformParameter (num : Type) : Type := mk_Parameter {
  distribution : string;
  lower : num;
  upper : num;
  parameter_order : Z
}.

(** [Poly] as the tree uses it: the least-squares fit of a polynomial on
    sample points and outputs ([Poly(...)] followed by [set_model()],
    [None] when the library raises), and its evaluation at points. *)
Class PolyLib (num : Type) : Type := {
  Poly : Type;
  Poly_set_model :
    list (UniformParameter num) -> string -> ndarray num -> list num -> option Poly;
  get_polyfit : Poly -> list (list num) -> list num
}.

(* ================================================================== *)
(** ** The tree *)

(** The fields of a [PolyTree] object set by its constructor; [self.tree]
    and [self.log] are part of the state below. *)
Record PolyTree : Type := mk_PolyTree {
  max_depth : Z;
  min_samples_leaf : Z;
  order : Z;
  basis : string;
  search : string;
  samples : Z;
  logging : bool
}.

Inductive direction : Type := LEFT | RIGHT.

(** Sample points with their outputs, [(X, y)]. *)
Definition dataset (num : Type) : Type := (ndarray num * list num)%type.

Section Tree.

Context {num : Type} `{F : Float64 num} `{PL : PolyLib num}.

(** The entries of [self.log]. *)
Inductive event : Type :=
| best_split (j_feature : nat) (threshold loss : num) (poly_left poly_right : Poly)
| try_split (j_feature : nat) (threshold loss : num) (poly_left poly_right : Poly)
| DOWN (d : direction) (j_feature : option nat) (threshold : option num)
| UP.

(** A node dictionary. *)
Inductive node : Type := mk_node {
  index : nat;
  loss : num;
  poly : Poly;
  data : option (dataset num);         (* [None] once deleted *)
  n_samples : nat;
  j_feature : option nat;
  threshold : option num;
  children_left : option node;
  children_right : option node;
  depth : Z
}.

(** The mutable state of a build: the node counter and the log. *)
Record state : Type := mk_state {
  index_node_global : nat;
  log : list event
}.

Definition M (A : Type) : Type := state -> outcome (A * state).

Definition ret {A} (a : A) : M A := fun s => Ok (a, s).

Definition bind {A B} (m : M A) (k : A -> M B) : M B :=
  fun s => match m s with
           | Ok (a, s') => k a s'
           | Raise e => Raise e
           | OutOfFuel => OutOfFuel
           end.

Definition lift {A} (o : outcome A) : M A :=
  fun s => match o with
           | Ok a => Ok (a, s)
           | Raise e => Raise e
           | OutOfFuel => OutOfFuel
           end.

Definition get_index : M nat := fun s => Ok (index_node_global s, s).

(** [container["index_node_global"] += 1]. *)
Definition incr_index : M unit :=
  fun s => Ok (tt, mk_state (S (index_node_global s)) (log s)).

(** [self.log.append(e)]. *)
Definition log_append (e : event) : M unit :=
  fun s => Ok (tt, mk_state (index_node_global s) (log s ++ [e])).

End Tree.

Declare Scope tree_scope.
Delimit Scope tree_scope with tree.
Notation "x <- m ;; k" := (bind m (fun x => k))
  (at level 61, m at next level, right associativity) : tree_scope.
Notation "' p <- m ;; k" := (bind m (fun p => k))
  (at level 61, p pattern, m at next level, right associativity) : tree_scope.
Notation "m ;;; k" := (bind m (fun _ => k))
  (at level 61, right associativity) : tree_scope.

(* ================================================================== *)
(** ** fit (polytree.py, lines 76-236) *)

Section Fit.

Context {num : Type} `{F : Float64 num} `{PL : PolyLib num}.
Variable self : PolyTree.

Local Open Scope tree_scope.

(** A [for] loop over a list that updates local variables [acc]. *)
Fixpoint for_each {A S} (l : list A) (body : A -> S -> M S) (acc : S) : M S :=
  match l with
  | [] => ret acc
  | a :: rest => acc' <- body a acc ;; for_each rest body acc'
  end.

(** *** _fit_poly (lines 158-178) *)
Definition _fit_poly (X : ndarray num) (y : list num) : M (num * Poly) :=
  let N := len X in
  let d := ncols X in
  myParameters <-
    for_each (seq 0 d)
      (fun dimension myParameters =>
         let values := column X dimension in
         values_min <- lift (py_min values) ;;
         values_max <- lift (py_max values) ;;
         if neq values_min values_max
         then ret (myParameters ++
                   [mk_Parameter "Uniform" (nsub values_min lit_0_01)
                                 (nadd values_max lit_0_01) (order self)])
         else ret (myParameters ++
                   [mk_Parameter "Uniform" values_min values_max (order self)]))
      [] ;;
  let myBasis := basis self in
  incr_index ;;;
  poly <- lift (match Poly_set_model myParameters myBasis X y with
                | Some p => Ok p
                | None => Raise FitFailure
                end) ;;
  let r := linalg_norm (vsub y (get_polyfit poly (rows X))) in
  let mse := ndiv (nmul r r) (of_int (Z.of_nat N)) in
  ret (mse, poly).

(** The local variables of [_splitter] that the search updates. *)
Record best : Type := mk_best {
  did_split : bool;
  loss_best : num;
  data_best : option (dataset num * dataset num);
  polys_best : option (Poly * Poly);
  j_feature_best : option nat;
  threshold_best : option num
}.

(** The dictionary [_splitter] returns. *)
Record result : Type := mk_result {
  r_did_split : bool;
  r_loss : num;
  r_polys : option (Poly * Poly);
  r_data : option (dataset num * dataset num);
  r_j_feature : option nat;
  r_threshold : option num;
  r_N : nat
}.

(** The sample-size-weighted loss of a split (line 134). *)
Definition weighted_loss (N_left N_right N : nat) (loss_left loss_right : num)
  : num :=
  ndiv (nadd (nmul (of_int (Z.of_nat N_left)) loss_left)
             (nmul (of_int (Z.of_nat N_right)) loss_right))
       (of_int (Z.of_nat N)).

(** The candidate thresholds of a feature (lines 109-118), before sorting. *)
Definition threshold_search (X : ndarray num) (j_feature : nat)
  : outcome (list num) :=
  if String.eqb (search self) "exhaustive" then slice_col X j_feature
  else if String.eqb (search self) "uniform" then
    (col <-- slice_col X j_feature;
     let samples' :=
       if samples self >? Z.of_nat (length col)
       then Z.of_nat (length col) else samples self in
     lo <-- np_min col;
     hi <-- np_max col;
     np_linspace lo hi samples')%err
  else Raise SearchTypeError.

(** The body of the threshold loop (lines 122-146). *)
Definition try_threshold (X : ndarray num) (y : list num) (N : nat)
           (j_feature : nat) (threshold : num) (b : best) : M best :=
  '(X_left, y_left, (X_right, y_right)) <-
     lift (_split_data j_feature threshold X y) ;;
  let N_left := len X_left in
  let N_right := len X_right in
  if negb ((Z.of_nat N_left >=? min_samples_leaf self)
           && (Z.of_nat N_right >=? min_samples_leaf self))
  then ret b
  else
    '(loss_left, poly_left) <- _fit_poly X_left y_left ;;
    '(loss_right, poly_right) <- _fit_poly X_right y_right ;;
    let loss_split := weighted_loss N_left N_right N loss_left loss_right in
    if nlt loss_split (loss_best b) then
      (if logging self
       then log_append (best_split j_feature threshold loss_split
                                   poly_left poly_right)
       else ret tt) ;;;
      ret (mk_best true loss_split
                   (Some ((X_left, y_left), (X_right, y_right)))
                   (Some (poly_left, poly_right))
                   (Some j_feature) (Some threshold))
    else
      (if logging self
       then log_append (try_split j_feature threshold loss_split
                                  poly_left poly_right)
       else ret tt) ;;;
      ret b.

(** The body of the feature loop (lines 107-146). *)
Definition try_feature (X : ndarray num) (y : list num) (N : nat)
           (j_feature : nat) (b : best) : M best :=
  ts <- lift (threshold_search X j_feature) ;;
  for_each (np_sort ts) (try_threshold X y N j_feature) b.

(** *** _splitter (lines 90-156) *)
Definition _splitter (nd : node) : M result :=
  '(X, y) <- lift (match data nd with
                   | Some d => Ok d
                   | None => Raise KeyError
                   end) ;;
  let depth := depth nd in
  let N := len X in
  let d := ncols X in
  let b0 := mk_best false (loss nd) None None None None in
  b <- (if (depth >=? 0) && (depth <? max_depth self)
        then for_each (seq 0 d) (try_feature X y N) b0
        else ret b0) ;;
  ret (mk_result (did_split b) (loss_best b) (polys_best b) (data_best b)
                 (j_feature_best b) (threshold_best b) N).

(** *** _create_node (lines 186-201) *)
Definition _create_node (X : ndarray num) (y : list num) (depth : Z) : M node :=
  '(poly_loss, poly) <- _fit_poly X y ;;
  i <- get_index ;;
  let nd := mk_node i poly_loss poly (Some (X, y)) (len X)
                    None None None None depth in
  incr_index ;;;
  ret nd.

(** [node["poly"] = p]. *)
Definition set_poly (nd : node) (p : Poly) : node :=
  mk_node (index nd) (loss nd) p (data nd) (n_samples nd)
          (j_feature nd) (threshold nd)
          (children_left nd) (children_right nd) (depth nd).

(** *** _split_traverse_node (lines 203-229)

    The function updates the node in place; here it returns the updated
    node.  [fuel] bounds the depth of the recursion. *)
Fixpoint _split_traverse_node (fuel : nat) (nd : node) : M node :=
  match fuel with
  | O => fun _ => OutOfFuel
  | S fuel' =>
      res <- _splitter nd ;;
      if negb (r_did_split res) then
        log_append UP ;;;
        ret nd
      else
        '(X_left, y_left, (X_right, y_right)) <-
           lift (match r_data res with
                 | Some d => Ok d
                 | None => Raise TypeError
                 end) ;;
        '(poly_left, poly_right) <-
           lift (match r_polys res with
                 | Some p => Ok p
                 | None => Raise TypeError
                 end) ;;
        left <- _create_node X_left y_left (depth nd + 1) ;;
        right <- _create_node X_right y_right (depth nd + 1) ;;
        let left := set_poly left poly_left in
        let right := set_poly right poly_right in
        log_append (DOWN LEFT (r_j_feature res) (r_threshold res)) ;;;
        left' <- _split_traverse_node fuel' left ;;
        log_append (DOWN RIGHT (r_j_feature res) (r_threshold res)) ;;;
        right' <- _split_traverse_node fuel' right ;;
        log_append UP ;;;
        ret (mk_node (index nd) (loss nd) (poly nd) None (n_samples nd)
                     (r_j_feature res) (r_threshold res)
                     (Some left') (Some right') (depth nd))
  end.

(** *** _build_tree (lines 86-234) and fit

    A node at depth [max_depth] is not split, so the recursion is at most
    [max_depth + 1] calls deep. *)
Definition _build_tree (X : ndarray num) (y : list num) : M node :=
  root <- _create_node X y 0 ;;
  _split_traverse_node (S (Z.to_nat (max_depth self))) root.

(** [fit]: the tree stored in [self.tree] and the log, from the log so far. *)
Definition fit (log0 : list event) (X : ndarray num) (y : list num)
  : outcome (node * list event) :=
  match _build_tree X y (mk_state 0 log0) with
  | Ok (root, s) => Ok (root, log s)
  | Raise e => Raise e
  | OutOfFuel => OutOfFuel
  end.

End Fit.

(* ================================================================== *)
(** ** predict (polytree.py, lines 238-260) *)

Section Predict.

Context {num : Type} `{F : Float64 num} `{PL : PolyLib num}.

(** [node["poly"].get_polyfit(np.array(x))[0]]. *)
Definition eval_poly (p : Poly) (x : list num) : outcome num :=
  match get_polyfit p [x] with
  | v :: _ => Ok v
  | [] => Raise IndexError
  end.

(** [_predict(node, x)] (lines 248-258). *)
Fixpoint _predict (nd : node) (x : list num) : outcome num :=
  match nd with
  | mk_node _ _ p _ _ j t l r _ =>
      match l, r with
      | None, None => eval_poly p x
      | _, _ =>
          match j with
          | None => Raise TypeError
          | Some j =>
              match nth_error x j with
              | None => Raise IndexError
              | Some v =>
                  match t with
                  | None => Raise TypeError
                  | Some t =>
                      if nle v t
                      then match l with
                           | Some c => _predict c x
                           | None => Raise TypeError
                           end
                      else match r with
                           | Some c => _predict c x
                           | None => Raise TypeError
                           end
                  end
              end
          end
      end
  end.

(** A list comprehension [[f(x) for x in X]]. *)
Fixpoint comprehension {A B} (f : A -> outcome B) (X : list A)
  : outcome (list B) :=
  match X with
  | [] => Ok []
  | x :: rest =>
      (v <-- f x; vs <-- comprehension f rest; Ok (v :: vs))%err
  end.

(** [predict] on the value of [self.tree]. *)
Definition predict (tree : option node) (X : list (list num))
  : outcome (list num) :=
  match tree with
  | None => Raise AssertionError
  | Some root => comprehension (_predict root) X
  end.

(** The leaf a walk from [nd] reaches by comparing [x] with the stored
    thresholds: left on [<=], right otherwise.  [None] when the walk meets
    a node without a usable split or child. *)
Fixpoint route (nd : node) (x : list num) : option node :=
  match nd with
  | mk_node _ _ _ _ _ j t l r _ =>
      match l, r with
      | None, None => Some nd
      | Some cl, Some cr =>
          match j, t with
          | Some j, Some t =>
              match nth_error x j with
              | Some v => if nle v t then route cl x else route cr x
              | None => None
              end
          | _, _ => None
          end
      | _, _ => None
      end
  end.

(** All the nodes of a tree, the root first. *)
Fixpoint nodes (nd : node) : list node :=
  match nd with
  | mk_node _ _ _ _ _ _ _ l r _ =>
      nd :: (match l with Some c => nodes c | None => [] end)
         ++ (match r with Some c => nodes c | None => [] end)
  end.

Definition is_leaf (nd : node) : bool :=
  match children_left nd, children_right nd with
  | None, None => true
  | _, _ => false
  end.

End Predict.

(* ================================================================== *)
(** ** The split search and the construction, as relations

    The definitions below restate what the code above computes without
    the state, for use in the statements; each is proved to agree with the
    code in the second part. *)

Section Search.

Context {num : Type} `{F : Float64 num} `{PL : PolyLib num}.
Variable self : PolyTree.

(** What [_fit_poly] returns, whatever the counter and the log are. *)
Definition fit_value (X : ndarray num) (y : list num) : outcome (num * Poly) :=
  match _fit_poly self X y (mk_state 0 []) with
  | Ok (v, _) => Ok v
  | Raise e => Raise e
  | OutOfFuel => OutOfFuel
  end.

(** The state after one more call of [_fit_poly]. *)
Definition fitted (s : state) : state :=
  mk_state (S (index_node_global s)) (log s).

(** A candidate split that was evaluated: its weighted loss, the two
    partitions and the two fitted polynomials. *)
Record evaluated : Type := mk_evaluated {
  e_loss : num;
  e_data : dataset num * dataset num;
  e_polys : Poly * Poly
}.

(** Both sides of a split have at least [min_samples_leaf] rows. *)
Definition feasible (N_left N_right : nat) : bool :=
  (Z.of_nat N_left >=? min_samples_leaf self)
  && (Z.of_nat N_right >=? min_samples_leaf self).

(** The evaluation of the candidate [(j_feature, threshold)] on [(X, y)]:
    [None] for a candidate that is skipped. *)
Definition eval_candidate (X : ndarray num) (y : list num) (N : nat)
           (c : nat * num) : outcome (option evaluated) :=
  ('(X_left, y_left, (X_right, y_right)) <-- _split_data (fst c) (snd c) X y;
   if negb (feasible (len X_left) (len X_right)) then Ok None
   else
     '(loss_left, poly_left) <-- fit_value X_left y_left;
     '(loss_right, poly_right) <-- fit_value X_right y_right;
     Ok (Some (mk_evaluated
                 (weighted_loss (len X_left) (len X_right) N
                                loss_left loss_right)
                 ((X_left, y_left), (X_right, y_right))
                 (poly_left, poly_right))))%err.

(** The candidates in the order the two loops visit them: by feature
    index, then by position in the sorted thresholds of the feature. *)
Fixpoint candidates_of (X : ndarray num) (js : list nat)
  : outcome (list (nat * num)) :=
  match js with
  | [] => Ok []
  | j :: rest =>
      (ts <-- threshold_search self X j;
       cs <-- candidates_of X rest;
       Ok (map (pair j) (np_sort ts) ++ cs))%err
  end.

Definition candidates (X : ndarray num) : outcome (list (nat * num)) :=
  candidates_of X (seq 0 (ncols X)).

(** The order of the visit: a lower feature index first, and for the same
    feature a threshold that is not above. *)
Definition visited_before (c' c : nat * num) : Prop :=
  (fst c' < fst c)%nat \/ (fst c' = fst c /\ nle (snd c') (snd c) = true).

(** The local variables after a candidate was accepted. *)
Definition accept (c : nat * num) (e : evaluated) : best :=
  mk_best true (e_loss e) (Some (e_data e)) (Some (e_polys e))
          (Some (fst c)) (Some (snd c)).

(** The local variables after the candidate [c] was evaluated. *)
Definition update (b : best) (c : nat * num) (oe : option evaluated) : best :=
  match oe with
  | None => b
  | Some e => if nlt (e_loss e) (loss_best b) then accept c e else b
  end.

(** The state after the candidate [c] was evaluated: two more calls of
    [_fit_poly] and, when logging, one more entry, unless it was skipped. *)
Definition after_candidate (s : state) (b : best) (c : nat * num)
           (oe : option evaluated) : state :=
  match oe with
  | None => s
  | Some e =>
      mk_state (S (S (index_node_global s)))
               (log s ++
                if logging self
                then [(if nlt (e_loss e) (loss_best b)
                       then best_split else try_split)
                        (fst c) (snd c) (e_loss e)
                        (fst (e_polys e)) (snd (e_polys e))]
                else [])
  end.

(** The threshold loop on the local variables. *)
Fixpoint run_candidates (X : ndarray num) (y : list num) (N : nat)
         (cs : list (nat * num)) (b : best) : outcome best :=
  match cs with
  | [] => Ok b
  | c :: rest =>
      (oe <-- eval_candidate X y N c;
       run_candidates X y N rest (update b c oe))%err
  end.

(** The feature loop on the local variables. *)
Fixpoint run_features (X : ndarray num) (y : list num) (N : nat)
         (js : list nat) (b : best) : outcome best :=
  match js with
  | [] => Ok b
  | j :: rest =>
      (ts <-- threshold_search self X j;
       b' <-- run_candidates X y N (map (pair j) (np_sort ts)) b;
       run_features X y N rest b')%err
  end.

(** The search strategies [_splitter] accepts: one of the two names, and
    for the uniform one a sample count [np.linspace] accepts. *)
Definition valid_search : Prop :=
  search self = "exhaustive"%string \/
  (search self = "uniform"%string /\ 0 <= samples self).

(** The depth gate of [_splitter] (line 105). *)
Definition depth_gate (nd : node) : bool :=
  (depth nd >=? 0) && (depth nd <? max_depth self).

(** What [_splitter] returns, whatever the counter and the log are. *)
Definition splitter_value (nd : node) : outcome result :=
  ('(X, y) <-- match data nd with
               | Some d => Ok d
               | None => Raise KeyError
               end;
   let b0 := mk_best false (loss nd) None None None None in
   b <-- (if depth_gate nd
          then run_features X y (len X) (seq 0 (ncols X)) b0
          else Ok b0);
   Ok (mk_result (did_split b) (loss_best b) (polys_best b) (data_best b)
                 (j_feature_best b) (threshold_best b) (len X)))%err.

(** A run [m] from the state [s] has the outcome [o], and the counter did
    not go down. *)
Definition agrees {A} (s : state) (m : outcome (A * state)) (o : outcome A)
  : Prop :=
  match o with
  | Ok a => exists s' : state,
      m = Ok (a, s') /\ (index_node_global s <= index_node_global s')%nat
  | Raise e => m = Raise e
  | OutOfFuel => m = OutOfFuel
  end.

(** A node as [_create_node] makes it: no split, no children, its data. *)
Definition fresh (nd : node) : Prop :=
  j_feature nd = None /\ threshold nd = None /\
  children_left nd = None /\ children_right nd = None /\
  exists X y, data nd = Some (X, y) /\ n_samples nd = len X.

(** The split search on the data of [nd] visits every candidate and finds
    none that can be evaluated with a weighted loss below the loss of
    [nd]. *)
Definition no_improving_split (nd : node) : Prop :=
  exists X y cs,
    data nd = Some (X, y) /\
    candidates X = Ok cs /\
    forall c, In c cs ->
              exists oe, eval_candidate X y (len X) c = Ok oe /\
                         forall e, oe = Some e ->
                                   nlt (e_loss e) (loss nd) = false.

(** [Built nd s nd' s']: [_split_traverse_node] run on [nd] in state [s]
    leaves the node as [nd'] and the state as [s']. *)
Inductive Built : node -> state -> node -> state -> Prop :=
| Built_leaf : forall nd s res s1,
    _splitter self nd s = Ok (res, s1) ->
    r_did_split res = false ->
    Built nd s nd (mk_state (index_node_global s1) (log s1 ++ [UP]))
| Built_split :
    forall nd s res s1 X_left y_left X_right y_right poly_left poly_right
           left s2 right s3 left' s4 right' s5,
    _splitter self nd s = Ok (res, s1) ->
    r_did_split res = true ->
    r_data res = Some ((X_left, y_left), (X_right, y_right)) ->
    r_polys res = Some (poly_left, poly_right) ->
    _create_node self X_left y_left (depth nd + 1) s1 = Ok (left, s2) ->
    _create_node self X_right y_right (depth nd + 1) s2 = Ok (right, s3) ->
    Built (set_poly left poly_left)
          (mk_state (index_node_global s3)
                    (log s3 ++ [DOWN LEFT (r_j_feature res) (r_threshold res)]))
          left' s4 ->
    Built (set_poly right poly_right)
          (mk_state (index_node_global s4)
                    (log s4 ++ [DOWN RIGHT (r_j_feature res) (r_threshold res)]))
          right' s5 ->
    Built nd s
          (mk_node (index nd) (loss nd) (poly nd) None (n_samples nd)
                   (r_j_feature res) (r_threshold res)
                   (Some left') (Some right') (depth nd))
          (mk_state (index_node_global s5) (log s5 ++ [UP])).

End Search.

(** ** Shapes of trees *)

Section Shapes.

Context {num : Type} `{F : Float64 num} `{PL : PolyLib num}.

(** The nodes below a node. *)
Definition descendants (nd : node) : list node :=
  (match children_left nd with Some c => nodes c | None => [] end)
    ++ (match children_right nd with Some c => nodes c | None => [] end).

(** A property of every node with two children, given the node and the
    children. *)
Definition every_split (P : node -> node -> node -> Prop) (root : node) : Prop :=
  forall nd l r,
    In nd (nodes root) ->
    children_left nd = Some l -> children_right nd = Some r ->
    P nd l r.


(** The node order of the construction: parent, left child, right child,
    then what is below the left child, then what is below the right one. *)
Definition children_then_subtrees (nd l r : node) : Prop :=
  (index nd < index l)%nat /\
  (index l < index r)%nat /\
  (forall m, In m (descendants l) -> (index r < index m)%nat) /\
  (forall m m', In m (nodes l) -> In m' (descendants r) ->
                (index m < index m')%nat).

(** Every row of the data kept at or below a node has the property [P]. *)
Definition rows_below (nd : node) (P : list num -> Prop) : Prop :=
  forall m X y, In m (nodes nd) -> data m = Some (X, y) ->
                forall r, In r (rows X) -> P r.

(** A node split at its stored feature and threshold: the sample counts
    of the children add up to the count of the node, the rows below the
    left child pass the test [<=] and the rows below the right child do
    not. *)
Definition split_by_threshold (nd l r : node) : Prop :=
  (n_samples l + n_samples r = n_samples nd)%nat /\
  exists j t,
    j_feature nd = Some j /\ threshold nd = Some t /\
    rows_below l (fun row => goes_left j t row = true) /\
    rows_below r (fun row => goes_left j t row = false).

(** Every split node has its feature below [d], a threshold and both
    children; every other node has none of them. *)
Fixpoint well_formed (d : nat) (nd : node) : Prop :=
  match nd with
  | mk_node _ _ _ _ _ j t l r _ =>
      match l, r with
      | None, None => j = None /\ t = None
      | Some cl, Some cr =>
          (exists j', j = Some j' /\ (j' < d)%nat) /\
          (exists t', t = Some t') /\
          well_formed d cl /\ well_formed d cr
      | _, _ => False
      end
  end.

End Shapes.

(* ================================================================== *)
(** ** Instances of the interfaces *)

(** *** IEEE binary64 *)
Module F64.

Definition int_to_float (z : Z) : float :=
  match z with
  | Z0 => 0%float
  | Zpos _ => PrimFloat.of_uint63 (Uint63.of_Z z)
  | Zneg p => PrimFloat.opp (PrimFloat.of_uint63 (Uint63.of_Z (Zpos p)))
  end.

(** The Euclidean norm with the squares summed from left to right.
    [np.linalg.norm] leaves the sum to the routine [dot] of the BLAS
    library, whose order of summation is not fixed, so its result can
    differ from this one in the last bits.  The properties below hold for
    every [linalg_norm]; this one serves the sample runs. *)
Definition norm (v : list float) : float :=
  PrimFloat.sqrt
    (fold_left (fun acc x => PrimFloat.add acc (PrimFloat.mul x x)) v 0%float).

#[export] Instance ops : Float64 float := {|
  nle := PrimFloat.leb;
  nlt := PrimFloat.ltb;
  neq := PrimFloat.eqb;
  nadd := PrimFloat.add;
  nsub := PrimFloat.sub;
  nmul := PrimFloat.mul;
  ndiv := PrimFloat.div;
  of_int := int_to_float;
  lit_0_01 := 0x1.47ae147ae147bp-7%float;
  linalg_norm := norm
|}.

(** A least-squares fit of a constant, the mean of the outputs, which
    fails on fewer than [min_rows] sample points. *)
Definition mean_fit (min_rows : nat) : PolyLib float := {|
  Poly := float;
  Poly_set_model := fun _ _ X y =>
    if (len X <? min_rows)%nat then None
    else Some (PrimFloat.div (fold_left PrimFloat.add y 0%float)
                             (int_to_float (Z.of_nat (length y))));
  get_polyfit := fun p pts => map (fun _ => p) pts
|}.

End F64.

(** *** Exact rationals *)
Module QNum.

(** Square root by the integer square roots of the reduced numerator and
    denominator: exact on the squares of rationals, below the root
    elsewhere. *)
Definition sqrt (q : Q) : Q :=
  let r := Qred q in Z.sqrt (Qnum r) # Pos.sqrt (Qden r).

Definition norm (v : list Q) : Q :=
  sqrt (fold_left (fun acc x => Qplus acc (Qmult x x)) v (0 # 1)).

#[export] Instance ops : Float64 Q := {|
  nle := Qle_bool;
  nlt := fun a b => negb (Qle_bool b a);
  neq := Qeq_bool;
  nadd := Qplus;
  nsub := Qminus;
  nmul := Qmult;
  ndiv := Qdiv;
  of_int := inject_Z;
  lit_0_01 := 1 # 100;
  linalg_norm := norm
|}.

(** The mean of the outputs as the fitted model. *)
Definition mean_fit (min_rows : nat) : PolyLib Q := {|
  Poly := Q;
  Poly_set_model := fun _ _ X y =>
    if (len X <? min_rows)%nat then None
    else Some (Qred (Qdiv (fold_left Qplus y (0 # 1))
                          (inject_Z (Z.of_nat (length y)))));
  get_polyfit := fun p pts => map (fun _ => p) pts
|}.

End QNum.

(* ================================================================== *)
(** ** Sample trees *)

Module Examples.

(** Trees of depth two on leaves of one row, without and with the log. *)
Definition tree2 : PolyTree :=
  mk_PolyTree 2 1 1 "tensor-grid" "exhaustive" 10 false.

Definition tree1_logged : PolyTree :=
  mk_PolyTree 1 1 1 "tensor-grid" "exhaustive" 10 true.

Definition tree_uniform : PolyTree :=
  mk_PolyTree 2 1 1 "tensor-grid" "uniform" 3 false.

(** Leaves of at least ten rows, the default. *)
Definition tree_default : PolyTree :=
  mk_PolyTree 5 10 3 "tensor-grid" "exhaustive" 10 false.

(** Four points on a line, two low outputs and two equal high ones. *)
Definition X4 : ndarray float :=
  mk_array [[0%float]; [1%float]; [2%float]; [3%float]] 1.

Definition y4 : list float := [0%float; 4%float; 100%float; 100%float].



(** Three points, one of them at a NaN. *)
Definition Xnan : ndarray float :=
  mk_array [[0%float]; [PrimFloat.nan]; [1%float]] 1.

Definition ynan : list float := [0%float; 4%float; 100%float].

(** The same four points as rationals. *)
Definition Xq : ndarray Q := mk_array [[0 # 1]; [1 # 1]; [2 # 1]; [3 # 1]] 1.

Definition yq : list Q := [0 # 1; 4 # 1; 100 # 1; 100 # 1].

(** The tree [fit] builds on [(X4, y4)] with [tree2]. *)
Definition built4 : outcome (node * list event) :=
  @fit float F64.ops (F64.mean_fit 1) tree2 [] X4 y4.

End Examples.

(* ================================================================== *)
(** ** get_polys (polytree.py, lines 54-74) *)

Section GetPolys.

Context {num : Type} `{F : Float64 num} `{PL : PolyLib num}.

(** [_search_tree(node, polys)] (lines 62-72). *)
Fixpoint _search_tree (nd : node) (polys : list Poly) : list Poly :=
  match nd with
  | mk_node _ _ p _ _ _ _ l r _ =>
      let polys :=
        match l, r with
        | None, None => polys ++ [p]
        | _, _ => polys
        end in
      let polys :=
        match l with
        | Some c => _search_tree c polys
        | None => polys
        end in
      match r with
      | Some c => _search_tree c polys
      | None => polys
      end
  end.

(** [get_polys] on the value of [self.tree]; [None["children"]] is a
    [TypeError]. *)
Definition get_polys (tree : option node) : outcome (list Poly) :=
  match tree with
  | None => Raise TypeError
  | Some root => Ok (_search_tree root [])
  end.

(** The leaves of a tree, from left to right. *)
Definition leaves (nd : node) : list node := filter is_leaf (nodes nd).

End GetPolys.

(* ================================================================== *)
(** ** get_graphviz (polytree.py, lines 262-321)

    The graph is built by calls on a [Digraph] object; the embedding keeps
    the calls with their arguments.  A label is kept as the arguments of
    its format string, and the rendering of the graph to a URL stays with
    the graphviz library. *)

Section Graphviz.

Context {num : Type} `{F : Float64 num} `{PL : PolyLib num}.

Inductive digraph_call : Type :=
| attr_node (threshold_str : option (string * num)) (n_samples : nat) (loss : num)
    (* g.attr('node', label=label_str, shape=nodeshape) *)
| add_node (node_index : nat)
    (* g.node('node{}'.format(node_index), ...) *)
| add_edge (parent_node_index node_index : nat) (label : string).
    (* g.edge('node{}'.format(parent_node_index),
              'node{}'.format(node_index), label=edge_label) *)

(** [build_graphviz_recurse] (lines 272-313) on a node that is not
    [None]: the calls it makes, in order. *)
Fixpoint build_graphviz_recurse (feature_names : list string) (nd : node)
         (parent_node_index : nat) (parent_depth : nat) (edge_label : string)
  : outcome (list digraph_call) :=
  match nd with
  | mk_node node_index ls _ _ n j t l r _ =>
      (threshold_str <--
         match l, r with
         | None, None => Ok None
         | _, _ =>
             match j with
             | None => Raise TypeError
             | Some j =>
                 match nth_error feature_names j with
                 | None => Raise IndexError
                 | Some name =>
                     match t with
                     | None => Raise TypeError
                     | Some t => Ok (Some (name, t))
                     end
                 end
             end
         end;
       let here :=
         [attr_node threshold_str n ls; add_node node_index]
           ++ (if (0 <? parent_depth)%nat
               then [add_edge parent_node_index node_index edge_label]
               else []) in
       below_left <--
         match l with
         | None => Ok []
         | Some c =>
             build_graphviz_recurse feature_names c node_index
                                    (S parent_depth) ""
         end;
       below_right <--
         match r with
         | None => Ok []
         | Some c =>
             build_graphviz_recurse feature_names c node_index
                                    (S parent_depth) ""
         end;
       Ok (here ++ below_left ++ below_right))%err
  end.

(** [get_graphviz] on the value of [self.tree]: the calls made on the
    graph before it is printed. *)
Definition get_graphviz (tree : option node) (feature_names : list string)
  : outcome (list digraph_call) :=
  match tree with
  | None => Ok []
  | Some root => build_graphviz_recurse feature_names root 0 0 ""
  end.

(** The nodes and the edges a list of calls adds to the graph. *)
Definition added_nodes (calls : list digraph_call) : list nat :=
  flat_map (fun c => match c with add_node i => [i] | _ => [] end) calls.

Definition added_edges (calls : list digraph_call) : list (nat * nat) :=
  flat_map (fun c => match c with add_edge a b _ => [(a, b)] | _ => [] end)
           calls.

(** The pairs of the index of a node and the index of one of its
    children, the root first. *)
Fixpoint tree_edges (nd : node) : list (nat * nat) :=
  match nd with
  | mk_node i _ _ _ _ _ _ l r _ =>
      (match l with
       | Some c => (i, index c) :: tree_edges c
       | None => []
       end)
        ++ (match r with
            | Some c => (i, index c) :: tree_edges c
            | None => []
            end)
  end.

End Graphviz.

(* ================================================================== *)
(** ** What a build leaves behind *)

Section Remains.

Context {num : Type} `{F : Float64 num} `{PL : PolyLib num}.
Variable self : PolyTree.

(** The entries of the log that record the walk of the construction. *)
Definition is_traversal (e : event) : bool :=
  match e with
  | DOWN _ _ _ | UP => true
  | _ => false
  end.

(** The walk of the construction through a tree: down to the left child,
    down to the right child, and up. *)
Fixpoint traversal (nd : node) : list event :=
  match nd with
  | mk_node _ _ _ _ _ j t l r _ =>
      match l, r with
      | Some cl, Some cr =>
          [DOWN LEFT j t] ++ traversal cl
            ++ [DOWN RIGHT j t] ++ traversal cr ++ [UP]
      | _, _ => [UP]
      end
  end.

(** The samples a node still holds. *)
Definition kept_samples (nd : node) : list (list num * num) :=
  match data nd with
  | Some (X, y) => combine (rows X) y
  | None => []
  end.

(** A leaf as the construction leaves it: no children, no split, its data
    of [d] columns. *)
Definition leaf_shape (d : nat) (m : node) : Prop :=
  children_left m = None /\ children_right m = None /\
  j_feature m = None /\ threshold m = None /\
  exists X y, data m = Some (X, y) /\ n_samples m = len X /\ ncols X = d.

(** A split node as the construction leaves it: two children one level
    down, a feature below [d], a threshold, and no data. *)
Definition split_shape (d : nat) (m : node) : Prop :=
  exists l r j t,
    children_left m = Some l /\ children_right m = Some r /\
    j_feature m = Some j /\ (j < d)%nat /\ threshold m = Some t /\
    data m = None /\
    depth l = depth m + 1 /\ depth r = depth m + 1.

(** The [Parameter] of a feature (lines 164-171). *)
Definition parameter_of (X : ndarray num) (dimension : nat)
  : outcome (UniformParameter num) :=
  (values_min <-- py_min (column X dimension);
   values_max <-- py_max (column X dimension);
   if neq values_min values_max
   then Ok (mk_Parameter "Uniform" (nsub values_min lit_0_01)
                         (nadd values_max lit_0_01) (order self))
   else Ok (mk_Parameter "Uniform" values_min values_max (order self)))%err.

(** [myParameters] after the loop of lines 163-171. *)
Fixpoint parameters_from (X : ndarray num) (dims : list nat)
         (acc : list (UniformParameter num))
  : outcome (list (UniformParameter num)) :=
  match dims with
  | [] => Ok acc
  | dimension :: rest =>
      (p <-- parameter_of X dimension;
       parameters_from X rest (acc ++ [p]))%err
  end.

Definition parameters_of (X : ndarray num)
  : outcome (list (UniformParameter num)) :=
  parameters_from X (seq 0 (ncols X)) [].

(** The body of [_split_traverse_node] (lines 205-229), with the recursive
    calls as a parameter. *)
Definition traverse_body (rec : node -> M node) (nd : node) : M node :=
  (res <- _splitter self nd ;;
   if negb (r_did_split res) then
     log_append UP ;;;
     ret nd
   else
     '(X_left, y_left, (X_right, y_right)) <-
        lift (match r_data res with
              | Some d => Ok d
              | None => Raise TypeError
              end) ;;
     '(poly_left, poly_right) <-
        lift (match r_polys res with
              | Some p => Ok p
              | None => Raise TypeError
              end) ;;
     left <- _create_node self X_left y_left (depth nd + 1) ;;
     right <- _create_node self X_right y_right (depth nd + 1) ;;
     let left := set_poly left poly_left in
     let right := set_poly right poly_right in
     log_append (DOWN LEFT (r_j_feature res) (r_threshold res)) ;;;
     left' <- rec left ;;
     log_append (DOWN RIGHT (r_j_feature res) (r_threshold res)) ;;;
     right' <- rec right ;;
     log_append UP ;;;
     ret (mk_node (index nd) (loss nd) (poly nd) None (n_samples nd)
                  (r_j_feature res) (r_threshold res)
                  (Some left') (Some right') (depth nd)))%tree.

(** The entries [_splitter] writes to the log. *)
Definition is_search (e : event) : bool := negb (is_traversal e).

(** What a split search does to the state: the counter grows by two for
    every candidate it evaluates, and the log grows by entries of the
    search, none when [logging] is off. *)
Definition search_steps (s s' : state) : Prop :=
  exists k evs,
    index_node_global s' = (index_node_global s + 2 * k)%nat /\
    log s' = log s ++ evs /\
    Forall (fun e => is_search e = true) evs /\
    (logging self = false -> evs = []).

End Remains.

(* ================================================================== *)
(** ** More sample trees *)

Module MoreExamples.

(** A tree that is never searched. *)
Definition stump : PolyTree :=
  mk_PolyTree 0 1 1 "tensor-grid" "exhaustive" 10 false.

(** A search strategy the code does not know. *)
Definition tree_random : PolyTree :=
  mk_PolyTree 2 1 1 "tensor-grid" "random" 10 false.

Definition stump_random : PolyTree :=
  mk_PolyTree 0 1 1 "tensor-grid" "random" 10 false.

(** Leaves of any size. *)
Definition tree_leaf0 : PolyTree :=
  mk_PolyTree 2 0 1 "tensor-grid" "exhaustive" 10 false.

(** A uniform search without sample points, and with a negative number of
    them. *)
Definition tree_uniform0 : PolyTree :=
  mk_PolyTree 2 1 1 "tensor-grid" "uniform" 0 false.

Definition tree_uniform_neg : PolyTree :=
  mk_PolyTree 2 1 1 "tensor-grid" "uniform" (-1) false.

(** An array of one column without rows. *)
Definition X0 : ndarray float := mk_array [] 1.

(** The root [_create_node] makes for the four points, before the search. *)
Definition root4 : @node float (F64.mean_fit 1) :=
  mk_node 1 2403%float (51%float : @Poly float (F64.mean_fit 1))
          (Some (Examples.X4, Examples.y4)) 4 None None None None 0.

End MoreExamples.

(* ================================================================== *)
(** * Properties *)

Unset Implicit Arguments.

(** ** Index arrays *)

Section IndexArrays.

Lemma where_from_ge : forall mask i k, In k (where_from i mask) -> (i <= k)%nat.
Proof.
  induction mask as [|b rest IH]; simpl; intros i k Hin; [contradiction|].
  destruct b; simpl in Hin.
  - destruct Hin as [<-|Hin]; [lia|]. apply IH in Hin. lia.
  - apply IH in Hin. lia.
Qed.

Lemma where_from_In : forall mask i k,
    In k (where_from i mask) <->
    (i <= k)%nat /\ nth_error mask (k - i) = Some true.
Proof.
  induction mask as [|b rest IH]; simpl; intros i k.
  - split; [contradiction|]. intros [_ H]. destruct (k - i)%nat; discriminate.
  - assert (Hstep : (S i <= k)%nat ->
                    nth_error (b :: rest) (k - i) = nth_error rest (k - S i)).
    { intros Hle. replace (k - i)%nat with (S (k - S i)) by lia. reflexivity. }
    destruct b; simpl; rewrite ?IH.
    + split.
      * intros [<-|[Hle Hn]].
        -- split; [lia|]. rewrite Nat.sub_diag. reflexivity.
        -- split; [lia|]. rewrite Hstep; assumption.
      * intros [Hle Hn]. destruct (Nat.eq_dec i k) as [->|Hne]; [now left|].
        right. split; [lia|]. rewrite <- Hstep; [assumption|lia].
    + split.
      * intros [Hle Hn]. split; [lia|]. rewrite Hstep; assumption.
      * intros [Hle Hn]. destruct (Nat.eq_dec i k) as [->|Hne].
        -- rewrite Nat.sub_diag in Hn. discriminate.
        -- split; [lia|]. rewrite <- Hstep; [assumption|lia].
Qed.

Lemma where_from_NoDup : forall mask i, NoDup (where_from i mask).
Proof.
  induction mask as [|b rest IH]; simpl; intros i; [constructor|].
  destruct b; [|apply IH].
  constructor; [|apply IH].
  intros Hin. apply where_from_ge in Hin. lia.
Qed.

Lemma where_from_lengths : forall mask i,
    (length (where_from i mask) + length (where_from i (map negb mask))
     = length mask)%nat.
Proof.
  induction mask as [|b rest IH]; simpl; intros i; [reflexivity|].
  specialize (IH (S i)). destruct b; simpl; lia.
Qed.

Lemma existsb_eqb_In : forall k l, existsb (Nat.eqb k) l = true <-> In k l.
Proof.
  intros k l. rewrite existsb_exists. split.
  - intros [x [Hin Heq]]. apply Nat.eqb_eq in Heq. now subst.
  - intros Hin. exists k. split; [assumption|apply Nat.eqb_refl].
Qed.

Lemma filter_not_where : forall mask i,
    filter (fun k => negb (existsb (Nat.eqb k) (where_from i mask)))
           (seq i (length mask))
    = where_from i (map negb mask).
Proof.
  induction mask as [|b rest IH]; simpl; intros i; [reflexivity|].
  destruct b; simpl.
  - rewrite Nat.eqb_refl. simpl. rewrite <- IH.
    apply filter_ext_in. intros k Hk. apply in_seq in Hk.
    destruct (Nat.eqb_spec k i); [lia|reflexivity].
  - destruct (existsb (Nat.eqb i) (where_from (S i) rest)) eqn:E.
    + apply existsb_eqb_In, where_from_ge in E. lia.
    + simpl. now rewrite IH.
Qed.

Lemma filter_combine_diag : forall (P : nat -> bool) l,
    map snd (filter (fun p => P (fst p)) (combine l l)) = filter P l.
Proof.
  induction l as [|a l IH]; simpl; [reflexivity|].
  destruct (P a); simpl; now rewrite IH.
Qed.

Lemma np_delete_where : forall mask,
    np_delete (np_arange 0 (length mask)) (np_where mask)
    = np_where (map negb mask).
Proof.
  intros mask. unfold np_delete, np_arange, np_where.
  rewrite Nat.sub_0_r, length_seq.
  rewrite (filter_combine_diag
             (fun k => negb (existsb (Nat.eqb k) (where_from 0 mask)))).
  apply filter_not_where.
Qed.

(** Taking the entries of a list at the positions of a mask. *)
Lemma take_idx_where : forall A (l : list A) mask (pre : list A),
    length mask = length l ->
    take_idx (pre ++ l) (where_from (length pre) mask)
    = Ok (map snd (filter fst (combine mask l))).
Proof.
  intros A l. induction l as [|a l IH]; intros mask pre Hlen.
  - destruct mask; [reflexivity|discriminate].
  - destruct mask as [|b mask]; [discriminate|].
    injection Hlen as Hlen.
    assert (Hpre : pre ++ a :: l = (pre ++ [a]) ++ l)
      by now rewrite <- app_assoc.
    assert (Hl : S (length pre) = length (pre ++ [a]))
      by (rewrite length_app; simpl; lia).
    simpl. destruct b; simpl.
    + rewrite nth_error_app2, Nat.sub_diag by lia. simpl.
      rewrite Hpre, Hl, IH by assumption. reflexivity.
    + rewrite Hpre, Hl, IH by assumption. reflexivity.
Qed.

Lemma take_idx_np_where : forall A (l : list A) mask,
    length mask = length l ->
    take_idx l (np_where mask) = Ok (map snd (filter fst (combine mask l))).
Proof. intros A l mask Hlen. exact (take_idx_where A l mask [] Hlen). Qed.

Lemma select_map : forall A (f : A -> bool) l,
    map snd (filter fst (combine (map f l) l)) = filter f l.
Proof.
  induction l as [|a l IH]; simpl; [reflexivity|].
  destruct (f a); simpl; now rewrite IH.
Qed.

Lemma select_combine : forall A B (f : A -> bool) (l : list A) (l' : list B),
    length l' = length l ->
    combine (filter f l) (map snd (filter fst (combine (map f l) l')))
    = filter (fun p => f (fst p)) (combine l l').
Proof.
  induction l as [|a l IH]; intros l' Hlen; simpl.
  - reflexivity.
  - destruct l' as [|b l']; [discriminate|]. injection Hlen as Hlen.
    simpl. destruct (f a); simpl; now rewrite IH.
Qed.

Lemma select_length : forall A B (f : A -> bool) (l : list A) (l' : list B),
    length l' = length l ->
    length (map snd (filter fst (combine (map f l) l'))) = length (filter f l).
Proof.
  induction l as [|a l IH]; intros l' Hlen; simpl.
  - reflexivity.
  - destruct l' as [|b l']; [discriminate|]. injection Hlen as Hlen.
    simpl. destruct (f a); simpl; now rewrite IH.
Qed.

Lemma filter_negb_length : forall A (f : A -> bool) l,
    (length (filter f l) + length (filter (fun a => negb (f a)) l)
     = length l)%nat.
Proof.
  induction l as [|a l IH]; simpl; [reflexivity|].
  destruct (f a); simpl; lia.
Qed.

End IndexArrays.

(** ** _split_data *)

Section SplitData.

Context {num : Type} `{F : Float64 num}.

Lemma mask_column : forall (X : ndarray num) j t,
    map (fun v => nle v t) (column X j) = map (goes_left j t) (rows X).
Proof. intros. unfold column. rewrite map_map. reflexivity. Qed.

Lemma idx_right_where : forall (X : ndarray num) j t,
    np_delete (np_arange 0 (len X))
              (np_where (map (fun v => nle v t) (column X j)))
    = np_where (map negb (map (goes_left j t) (rows X))).
Proof.
  intros. rewrite mask_column. unfold len.
  rewrite <- (length_map (goes_left j t) (rows X)) at 1.
  apply np_delete_where.
Qed.

Lemma take_rows_where : forall (X : ndarray num) (f : list num -> bool),
    take_rows X (np_where (map f (rows X)))
    = Ok (mk_array (filter f (rows X)) (ncols X)).
Proof.
  intros X f. unfold take_rows.
  rewrite take_idx_np_where by apply length_map.
  simpl. now rewrite select_map.
Qed.

(** Whenever [_split_data] returns, the left rows are the rows that pass
    the test, in their order, and the right rows are the others. *)
Lemma split_data_Ok : forall j t (X : ndarray num) y X_left y_left X_right y_right,
    _split_data j t X y = Ok ((X_left, y_left), (X_right, y_right)) ->
    (j < ncols X)%nat /\
    X_left = mk_array (filter (goes_left j t) (rows X)) (ncols X) /\
    X_right = mk_array (filter (fun r => negb (goes_left j t r)) (rows X))
                       (ncols X).
Proof.
  intros j t X y Xl yl Xr yr. unfold _split_data, slice_col.
  destruct (Nat.ltb_spec j (ncols X)) as [Hj|Hj]; simpl; [|discriminate].
  rewrite idx_right_where, mask_column.
  destruct (negb _); [discriminate|].
  rewrite map_map, !take_rows_where. simpl.
  destruct (take_idx y _); simpl; try discriminate.
  destruct (take_idx y _); simpl; try discriminate.
  intros H. injection H as <- _ <- _. auto.
Qed.

Lemma split_data_sizes : forall j t (X : ndarray num) y X_left y_left X_right y_right,
    _split_data j t X y = Ok ((X_left, y_left), (X_right, y_right)) ->
    (len X_left + len X_right = len X)%nat /\
    ncols X_left = ncols X /\ ncols X_right = ncols X.
Proof.
  intros j t X y Xl yl Xr yr H.
  apply split_data_Ok in H. destruct H as (_ & -> & ->).
  unfold len. simpl. split; [apply filter_negb_length|auto].
Qed.

(** On an array with its outputs, [_split_data] returns. *)
Lemma split_data_eq : forall j t (X : ndarray num) y,
    (j < ncols X)%nat -> length y = len X ->
    _split_data j t X y
    = Ok ((mk_array (filter (goes_left j t) (rows X)) (ncols X),
           map snd (filter fst (combine (map (goes_left j t) (rows X)) y))),
          (mk_array (filter (fun r => negb (goes_left j t r)) (rows X)) (ncols X),
           map snd (filter fst
                      (combine (map negb (map (goes_left j t) (rows X))) y)))).
Proof.
  intros j t X y Hj Hy. unfold _split_data, slice_col.
  apply Nat.ltb_lt in Hj. rewrite Hj. simpl.
  rewrite idx_right_where, mask_column.
  pose proof (where_from_lengths (map (goes_left j t) (rows X)) 0) as Hl.
  rewrite length_map in Hl. fold (len X) in Hl.
  unfold np_where at 1 2. rewrite Hl, Nat.eqb_refl. simpl.
  rewrite map_map, !take_rows_where. simpl.
  rewrite !take_idx_np_where by (rewrite length_map; symmetry; exact Hy).
  reflexivity.
Qed.

Lemma take_idx_no_fuel : forall A (l : list A) idx, take_idx l idx <> OutOfFuel.
Proof.
  intros A l. induction idx as [|k idx IH]; simpl; [discriminate|].
  destruct (nth_error l k); [|discriminate].
  destruct (take_idx l idx); simpl; [discriminate|discriminate|assumption].
Qed.

Lemma split_data_no_fuel : forall j t (X : ndarray num) y,
    _split_data j t X y <> OutOfFuel.
Proof.
  intros j t X y. unfold _split_data, slice_col, take_rows.
  destruct (j <? ncols X)%nat; simpl; [|discriminate].
  destruct (negb _); [discriminate|].
  repeat match goal with
         | |- context [take_idx ?l ?i] =>
             let H := fresh "H" in
             pose proof (take_idx_no_fuel _ l i) as H;
             destruct (take_idx l i); simpl;
             [clear H|discriminate|congruence]
         end.
  discriminate.
Qed.

End SplitData.

Section SplitDataPartition.

Context {num : Type} `{F : Float64 num}.

Lemma np_where_In : forall (X : ndarray num) (f : list num -> bool) i v,
    In i (np_where (map (fun r => Bool.eqb (f r) v) (rows X))) <->
    exists r, nth_error (rows X) i = Some r /\ f r = v.
Proof.
  intros X f i v. unfold np_where. rewrite where_from_In, Nat.sub_0_r.
  rewrite nth_error_map. split.
  - intros [_ H]. destruct (nth_error (rows X) i) as [r|]; [|discriminate].
    exists r. split; [reflexivity|]. injection H as H.
    now apply Bool.eqb_prop.
  - intros (r & -> & <-). split; [lia|]. simpl. now rewrite Bool.eqb_reflx.
Qed.

(** [_split_data] puts in the left part exactly the rows of the parent
    with [X[i, j] <= threshold] and in the right part exactly the other
    rows, by row position: the two index sets are disjoint, together they
    are all the rows of the parent, and the sizes add up. *)
Lemma split_data_rows :
  forall j t (X : ndarray num) (y : list num),
    (j < ncols X)%nat -> length y = len X ->
    exists X_left y_left X_right y_right idx_left idx_right,
      _split_data j t X y = Ok ((X_left, y_left), (X_right, y_right)) /\
      (forall i, In i idx_left <->
                 exists r, nth_error (rows X) i = Some r /\ goes_left j t r = true) /\
      (forall i, In i idx_right <->
                 exists r, nth_error (rows X) i = Some r /\ goes_left j t r = false) /\
      (forall i, In i idx_left -> In i idx_right -> False) /\
      (forall i, (i < len X)%nat <-> In i idx_left \/ In i idx_right) /\
      NoDup idx_left /\ NoDup idx_right /\
      take_rows X idx_left = Ok X_left /\ take_idx y idx_left = Ok y_left /\
      take_rows X idx_right = Ok X_right /\ take_idx y idx_right = Ok y_right /\
      rows X_left = filter (goes_left j t) (rows X) /\
      rows X_right = filter (fun r => negb (goes_left j t r)) (rows X) /\
      combine (rows X_left) y_left
      = filter (fun p => goes_left j t (fst p)) (combine (rows X) y) /\
      combine (rows X_right) y_right
      = filter (fun p => negb (goes_left j t (fst p))) (combine (rows X) y) /\
      (len X_left + len X_right = len X)%nat.
Proof.
  intros j t X y Hj Hy.
  set (fl := goes_left j t).
  set (fr := fun r => negb (goes_left j t r)).
  assert (Hml : map fl (rows X)
                = map (fun r => Bool.eqb (goes_left j t r) true) (rows X)).
  { apply map_ext. intros r. unfold fl. now destruct (goes_left j t r). }
  assert (Hmr : map fr (rows X)
                = map (fun r => Bool.eqb (goes_left j t r) false) (rows X)).
  { apply map_ext. intros r. unfold fr. now destruct (goes_left j t r). }
  assert (HL : forall i, In i (np_where (map fl (rows X))) <->
               exists r, nth_error (rows X) i = Some r /\ goes_left j t r = true).
  { intros i. rewrite Hml. apply np_where_In. }
  assert (HR : forall i, In i (np_where (map fr (rows X))) <->
               exists r, nth_error (rows X) i = Some r /\ goes_left j t r = false).
  { intros i. rewrite Hmr. apply np_where_In. }
  assert (Hyl : length (map fl (rows X)) = length y)
    by (rewrite length_map; symmetry; exact Hy).
  assert (Hyr : length (map fr (rows X)) = length y)
    by (rewrite length_map; symmetry; exact Hy).
  exists (mk_array (filter fl (rows X)) (ncols X)).
  exists (map snd (filter fst (combine (map fl (rows X)) y))).
  exists (mk_array (filter fr (rows X)) (ncols X)).
  exists (map snd (filter fst (combine (map fr (rows X)) y))).
  exists (np_where (map fl (rows X))), (np_where (map fr (rows X))).
  split; [|split; [exact HL|split; [exact HR|]]].
  { rewrite (split_data_eq j t X y Hj Hy). unfold fr. rewrite map_map.
    reflexivity. }
  split.
  { intros i Hl Hr. apply HL in Hl. apply HR in Hr.
    destruct Hl as (r & Hr1 & Ht), Hr as (r' & Hr2 & Hf). congruence. }
  split.
  { intros i. rewrite HL, HR. unfold len. split.
    - intros Hi. apply nth_error_Some in Hi.
      destruct (nth_error (rows X) i) as [r|]; [|congruence].
      destruct (goes_left j t r) eqn:E; [left|right]; exists r; auto.
    - intros [(r & Hn & _)|(r & Hn & _)]; apply nth_error_Some; congruence. }
  split; [apply where_from_NoDup|]. split; [apply where_from_NoDup|].
  rewrite !take_rows_where, !take_idx_np_where by assumption.
  repeat (split; [reflexivity|]). simpl.
  split; [apply select_combine; exact Hy|].
  split; [apply (select_combine _ _ fr); exact Hy|].
  unfold len. simpl. apply filter_negb_length.
Qed.

End SplitDataPartition.

(** ** The code and its state-free restatement *)

Section Agreement.

Context {num : Type} `{F : Float64 num} `{PL : PolyLib num}.
Variable self : PolyTree.

Lemma for_each_stateless :
  forall A S (body : A -> S -> M S),
    (forall a acc, exists o, forall s, body a acc s = lift o s) ->
    forall l acc, exists o, forall s, for_each l body acc s = lift o s.
Proof.
  intros A S body Hbody. induction l as [|a l IH]; intros acc; simpl.
  - exists (Ok acc). reflexivity.
  - destruct (Hbody a acc) as [o Ho]. destruct o as [acc'|e|].
    + destruct (IH acc') as [o' Ho']. exists o'. intros s.
      unfold bind. rewrite Ho. simpl. apply Ho'.
    + exists (Raise e). intros s. unfold bind. now rewrite Ho.
    + exists OutOfFuel. intros s. unfold bind. now rewrite Ho.
Qed.

(** [_fit_poly] counts one call and returns a value that does not depend
    on the state. *)
Lemma for_each_no_fuel :
  forall A S (body : A -> S -> M S),
    (forall a acc s, body a acc s <> OutOfFuel) ->
    forall l acc s, for_each l body acc s <> OutOfFuel.
Proof.
  intros A S body Hbody. induction l as [|a l IH]; intros acc s; simpl.
  - discriminate.
  - unfold bind. specialize (Hbody a acc s).
    destruct (body a acc s) as [[acc' s']|e|];
      [apply IH|discriminate|congruence].
Qed.

Lemma fit_poly_stateless : forall X y,
    exists o : outcome (num * Poly),
    forall s, _fit_poly self X y s
              = match o with
                | Ok v => Ok (v, fitted s)
                | Raise e => Raise e
                | OutOfFuel => OutOfFuel
                end.
Proof.
  intros X y. unfold _fit_poly.
  match goal with
  | |- context [for_each ?l ?body ?acc] =>
      assert (Hb : forall a acc0, exists o, forall s0, body a acc0 s0 = lift o s0);
      [|destruct (for_each_stateless _ _ body Hb l acc) as [o Ho]]
  end.
  { intros dimension ps. unfold bind, lift, ret.
    destruct (py_min (column X dimension)) as [mn|e|];
      [|exists (Raise e); reflexivity|exists OutOfFuel; reflexivity].
    destruct (py_max (column X dimension)) as [mx|e|];
      [|exists (Raise e); reflexivity|exists OutOfFuel; reflexivity].
    destruct (neq mn mx); (eexists (Ok _); intros s0; reflexivity). }
  destruct o as [ps|e|].
  - destruct (Poly_set_model ps (basis self) X y) as [p|] eqn:Ep.
    + eexists (Ok _). intros s. unfold bind at 1. rewrite Ho. simpl.
      unfold bind, incr_index, lift, ret, fitted. rewrite Ep. reflexivity.
    + exists (Raise FitFailure). intros s. unfold bind at 1. rewrite Ho. simpl.
      unfold bind, incr_index, lift, ret, fitted. rewrite Ep. reflexivity.
  - exists (Raise e). intros s. unfold bind at 1. now rewrite Ho.
  - exists OutOfFuel. intros s. unfold bind at 1. now rewrite Ho.
Qed.

(** [_fit_poly] counts one call and returns a value that does not depend
    on the state. *)
Lemma fit_poly_state : forall X y s,
    _fit_poly self X y s
    = match fit_value self X y with
      | Ok v => Ok (v, fitted s)
      | Raise e => Raise e
      | OutOfFuel => OutOfFuel
      end.
Proof.
  intros X y s. unfold fit_value.
  destruct (fit_poly_stateless X y) as [o Ho]. rewrite !Ho.
  destruct o; reflexivity.
Qed.

Lemma fit_poly_no_fuel : forall X y s, _fit_poly self X y s <> OutOfFuel.
Proof.
  intros X y s. unfold _fit_poly. unfold bind at 1.
  match goal with
  | |- context [for_each ?l ?body ?acc] =>
      assert (Hloop : for_each l body acc s <> OutOfFuel);
      [apply for_each_no_fuel|destruct (for_each l body acc s) as [[ps s1]|e|]]
  end.
  - intros dimension ps s0. unfold bind, lift, ret, py_min, py_max.
    destruct (column X dimension) as [|v vs]; [discriminate|].
    destruct (neq _ _); discriminate.
  - unfold bind, incr_index, lift, ret.
    destruct (Poly_set_model ps (basis self) X y); discriminate.
  - discriminate.
  - congruence.
Qed.

Lemma fit_value_no_fuel : forall X y, fit_value self X y <> OutOfFuel.
Proof.
  intros X y H. apply (fit_poly_no_fuel X y (mk_state 0 [])).
  rewrite fit_poly_state, H. reflexivity.
Qed.

(** One turn of the threshold loop. *)
Lemma try_threshold_eval : forall X y N j t b s,
    try_threshold self X y N j t b s
    = match eval_candidate self X y N (j, t) with
      | Ok oe => Ok (update b (j, t) oe, after_candidate self s b (j, t) oe)
      | Raise e => Raise e
      | OutOfFuel => OutOfFuel
      end.
Proof.
  intros X y N j t b s. unfold try_threshold, eval_candidate. simpl.
  unfold bind at 1. unfold lift at 1.
  destruct (_split_data j t X y) as [[[Xl yl] [Xr yr]]|e|]; simpl;
    try reflexivity.
  unfold feasible.
  destruct (negb _); [reflexivity|].
  unfold bind at 1. rewrite fit_poly_state.
  destruct (fit_value self Xl yl) as [[ll pl]|e|]; simpl; try reflexivity.
  unfold bind at 1. rewrite fit_poly_state.
  destruct (fit_value self Xr yr) as [[lr pr]|e|]; simpl; try reflexivity.
  destruct (nlt _ (loss_best b)); destruct (logging self);
    unfold bind, log_append, ret, fitted, accept; simpl;
    rewrite ?app_nil_r; try reflexivity; destruct s; reflexivity.
Qed.

Lemma after_candidate_index : forall s b c oe,
    (index_node_global s
     <= index_node_global (after_candidate self s b c oe))%nat.
Proof. intros s b c [e|]; simpl; lia. Qed.

Lemma agrees_mono : forall A s s' (m : outcome (A * state)) o,
    (index_node_global s <= index_node_global s')%nat ->
    agrees s' m o -> agrees s m o.
Proof.
  intros A s s' m [a|e|] Hle H; simpl in *; try assumption.
  destruct H as (s'' & -> & Hle'). exists s''. split; [reflexivity|lia].
Qed.

Lemma agrees_Ok : forall A s (m : outcome (A * state)) o a s',
    agrees s m o -> m = Ok (a, s') ->
    o = Ok a /\ (index_node_global s <= index_node_global s')%nat.
Proof.
  intros A s m [a0|e|] a s' H Hm; simpl in H.
  - destruct H as (s'' & H & Hle). rewrite H in Hm. injection Hm as -> ->.
    auto.
  - congruence.
  - congruence.
Qed.

Lemma threshold_loop_agrees : forall X y N j ts b s,
    agrees s (for_each ts (try_threshold self X y N j) b s)
           (run_candidates self X y N (map (pair j) ts) b).
Proof.
  intros X y N j. induction ts as [|t ts IH]; intros b s; simpl.
  - exists s. split; [reflexivity|lia].
  - unfold bind. rewrite try_threshold_eval.
    destruct (eval_candidate self X y N (j, t)) as [oe|e|]; simpl;
      try reflexivity.
    eapply agrees_mono; [apply after_candidate_index|apply IH].
Qed.

Lemma feature_loop_agrees : forall X y N js b s,
    agrees s (for_each js (try_feature self X y N) b s)
           (run_features self X y N js b).
Proof.
  intros X y N. induction js as [|j js IH]; intros b s; simpl.
  - exists s. split; [reflexivity|lia].
  - unfold bind at 1. unfold try_feature. unfold bind at 1. unfold lift.
    destruct (threshold_search self X j) as [ts|e|]; simpl; try reflexivity.
    pose proof (threshold_loop_agrees X y N j (np_sort ts) b s) as Hin.
    destruct (run_candidates self X y N (map (pair j) (np_sort ts)) b)
      as [b'|e|]; simpl in *.
    + destruct Hin as (s' & -> & Hle).
      eapply agrees_mono; [exact Hle|apply IH].
    + now rewrite Hin.
    + now rewrite Hin.
Qed.

Lemma splitter_agrees : forall nd s,
    agrees s (_splitter self nd s) (splitter_value self nd).
Proof.
  intros nd s. unfold _splitter, splitter_value, depth_gate.
  unfold bind at 1. unfold lift.
  destruct (data nd) as [[X y]|]; simpl; [|reflexivity].
  unfold bind at 1.
  destruct ((depth nd >=? 0) && (depth nd <? max_depth self)).
  - pose proof (feature_loop_agrees X y (len X) (seq 0 (ncols X))
                  (mk_best false (loss nd) None None None None) s) as Hf.
    destruct (run_features self X y (len X) (seq 0 (ncols X)) _)
      as [b|e|]; simpl in *.
    + destruct Hf as (s' & -> & Hle). exists s'. split; [reflexivity|lia].
    + now rewrite Hf.
    + now rewrite Hf.
  - simpl. exists s. split; [reflexivity|lia].
Qed.

End Agreement.

(** ** The search on the local variables *)

Section PureSearch.

Context {num : Type} `{F : Float64 num} `{PL : PolyLib num}.
Variable self : PolyTree.
Variables (X : ndarray num) (y : list num) (N : nat).

Lemma eval_candidate_no_fuel : forall c,
    eval_candidate self X y N c <> OutOfFuel.
Proof.
  intros c. unfold eval_candidate.
  pose proof (split_data_no_fuel (fst c) (snd c) X y) as Hs.
  destruct (_split_data _ _ X y) as [[[Xl yl] [Xr yr]]|?|]; simpl;
    [|discriminate|congruence].
  destruct (negb _); [discriminate|].
  pose proof (fit_value_no_fuel self Xl yl) as Hl.
  pose proof (fit_value_no_fuel self Xr yr) as Hr.
  destruct (fit_value self Xl yl) as [[? ?]|?|]; simpl;
    [|discriminate|congruence].
  destruct (fit_value self Xr yr) as [[? ?]|?|]; simpl;
    [discriminate|discriminate|congruence].
Qed.

Lemma run_candidates_app : forall l1 l2 b,
    run_candidates self X y N (l1 ++ l2) b
    = obind (run_candidates self X y N l1 b) (run_candidates self X y N l2).
Proof.
  induction l1 as [|c l1 IH]; intros l2 b; simpl; [reflexivity|].
  destruct (eval_candidate self X y N c) as [oe|e|]; simpl;
    [apply IH|reflexivity|reflexivity].
Qed.

Lemma run_features_flat : forall js cs b,
    candidates_of self X js = Ok cs ->
    run_features self X y N js b = run_candidates self X y N cs b.
Proof.
  induction js as [|j js IH]; intros cs b; simpl.
  - intros H. injection H as <-. reflexivity.
  - destruct (threshold_search self X j) as [ts|e|]; simpl; try discriminate.
    destruct (candidates_of self X js) as [cs'|e|]; simpl; try discriminate.
    intros H. injection H as <-. rewrite run_candidates_app.
    destruct (run_candidates self X y N _ b) as [b'|e|]; simpl;
      try reflexivity.
    now apply IH.
Qed.

Lemma run_features_Ok : forall js b b',
    run_features self X y N js b = Ok b' ->
    exists cs, candidates_of self X js = Ok cs /\
               run_candidates self X y N cs b = Ok b'.
Proof.
  induction js as [|j js IH]; intros b b'; simpl.
  - intros H. exists []. auto.
  - destruct (threshold_search self X j) as [ts|e|]; simpl; try discriminate.
    destruct (run_candidates self X y N _ b) as [b1|e|] eqn:E1; simpl;
      try discriminate.
    intros H. destruct (IH _ _ H) as (cs & -> & Hcs). simpl.
    eexists. split; [reflexivity|].
    rewrite run_candidates_app, E1. exact Hcs.
Qed.

(** Every candidate of a search that returned was evaluated or skipped. *)
Lemma run_all_evaluated : forall cs b b',
    run_candidates self X y N cs b = Ok b' ->
    forall c, In c cs -> exists oe, eval_candidate self X y N c = Ok oe.
Proof.
  induction cs as [|c0 cs IH]; intros b b' H c Hin; [contradiction|].
  simpl in H. destruct (eval_candidate self X y N c0) as [oe|e|] eqn:E0;
    simpl in H; try discriminate.
  destruct Hin as [<-|Hin]; [eauto|eapply IH; eauto].
Qed.

(** A candidate whose evaluation raises makes the search raise. *)
Lemma run_raises : forall cs b c e,
    In c cs -> eval_candidate self X y N c = Raise e ->
    exists e', run_candidates self X y N cs b = Raise e'.
Proof.
  induction cs as [|c0 cs IH]; intros b c e Hin He; [contradiction|].
  simpl. destruct Hin as [<-|Hin].
  - rewrite He. simpl. eauto.
  - pose proof (eval_candidate_no_fuel c0) as Hnf.
    destruct (eval_candidate self X y N c0) as [oe|e0|] eqn:E0; simpl.
    + eapply IH; eauto.
    + eauto.
    + congruence.
Qed.

End PureSearch.

Section BestFirst.

Context {num : Type} `{F : Float64 num} `{PL : PolyLib num}.
Variable self : PolyTree.
Variables (X : ndarray num) (y : list num) (N : nat).
Hypothesis Hord : StrictOrder_nlt num.

Lemma nlt_false_of_lt : forall a b c,
    nlt a b = false -> nlt c b = true -> nlt a c = false.
Proof.
  intros a b c Hab Hcb. destruct (nlt a c) eqn:E; [|reflexivity].
  rewrite (nlt_trans Hord a c b E Hcb) in Hab. discriminate.
Qed.

(** A search that returned either kept its local variables, and then no
    candidate was below the loss it started from, or it ends on the first
    of the candidates with the least loss, which is below that loss. *)
Lemma run_candidates_best : forall cs b b',
    run_candidates self X y N cs b = Ok b' ->
    (b' = b /\
     forall c e, In c cs -> eval_candidate self X y N c = Ok (Some e) ->
                 nlt (e_loss e) (loss_best b) = false)
    \/
    (exists before c after e,
        cs = before ++ c :: after /\
        eval_candidate self X y N c = Ok (Some e) /\
        b' = accept c e /\
        nlt (e_loss e) (loss_best b) = true /\
        (forall c' e', In c' cs ->
                       eval_candidate self X y N c' = Ok (Some e') ->
                       nlt (e_loss e') (e_loss e) = false) /\
        (forall c' e', In c' before ->
                       eval_candidate self X y N c' = Ok (Some e') ->
                       e_loss e' <> e_loss e)).
Proof.
  induction cs as [|c0 cs IH]; intros b b' H.
  - simpl in H. injection H as <-. left. split; [reflexivity|].
    intros c e [].
  - simpl in H.
    destruct (eval_candidate self X y N c0) as [oe|e|] eqn:E0; simpl in H;
      try discriminate.
    destruct (IH _ _ H)
      as [[-> Hall]|(before & c & after & e & -> & Ec & -> & Hlt & Hmin & Htie)];
      clear IH H.
    + destruct oe as [e0|]; simpl in *.
      * destruct (nlt (e_loss e0) (loss_best b)) eqn:E.
        -- right. exists [], c0, cs, e0. simpl in Hall.
           repeat split; try assumption; try reflexivity.
           ++ intros c' e' [<-|Hin] He'.
              ** rewrite E0 in He'. injection He' as <-.
                 apply (nlt_irrefl Hord).
              ** eapply Hall; eauto.
           ++ intros c' e' [].
        -- left. split; [reflexivity|].
           intros c' e' [<-|Hin] He'.
           ++ rewrite E0 in He'. injection He' as <-. exact E.
           ++ eapply Hall; eauto.
      * left. split; [reflexivity|].
        intros c' e' [<-|Hin] He'; [congruence|eapply Hall; eauto].
    + right. exists (c0 :: before), c, after, e.
      destruct oe as [e0|]; simpl in *.
      * destruct (nlt (e_loss e0) (loss_best b)) eqn:E; simpl in *.
        -- repeat split; try assumption; try reflexivity.
           ++ exact (nlt_trans Hord _ _ _ Hlt E).
           ++ intros c' e' [<-|Hin] He'; [|eapply Hmin; eauto].
              rewrite E0 in He'. injection He' as <-.
              destruct (nlt (e_loss e0) (e_loss e)) eqn:E'; [|reflexivity].
              pose proof (nlt_trans Hord _ _ _ Hlt E') as Hee.
              rewrite (nlt_irrefl Hord) in Hee. discriminate.
           ++ intros c' e' [<-|Hin] He'; [|eapply Htie; eauto].
              rewrite E0 in He'. injection He' as <-. intros Heq.
              rewrite Heq, (nlt_irrefl Hord) in Hlt. discriminate.
        -- repeat split; try assumption; try reflexivity.
           ++ intros c' e' [<-|Hin] He'; [|eapply Hmin; eauto].
              rewrite E0 in He'. injection He' as <-.
              eapply nlt_false_of_lt; eauto.
           ++ intros c' e' [<-|Hin] He'; [|eapply Htie; eauto].
              rewrite E0 in He'. injection He' as <-. intros Heq.
              rewrite Heq in E. congruence.
      * repeat split; try assumption; try reflexivity.
        -- intros c' e' [<-|Hin] He'; [congruence|eapply Hmin; eauto].
        -- intros c' e' [<-|Hin] He'; [congruence|eapply Htie; eauto].
Qed.

End BestFirst.

Section SearchCases.

Context {num : Type} `{F : Float64 num} `{PL : PolyLib num}.
Variable self : PolyTree.

(** What an evaluated candidate is made of. *)
Lemma eval_candidate_Some : forall X y N c e,
    eval_candidate self X y N c = Ok (Some e) ->
    exists X_left y_left X_right y_right loss_left poly_left loss_right poly_right,
      _split_data (fst c) (snd c) X y
      = Ok ((X_left, y_left), (X_right, y_right)) /\
      feasible self (len X_left) (len X_right) = true /\
      fit_value self X_left y_left = Ok (loss_left, poly_left) /\
      fit_value self X_right y_right = Ok (loss_right, poly_right) /\
      e = mk_evaluated
            (weighted_loss (len X_left) (len X_right) N loss_left loss_right)
            ((X_left, y_left), (X_right, y_right))
            (poly_left, poly_right).
Proof.
  intros X y N c e. unfold eval_candidate.
  destruct (_split_data _ _ X y) as [[[Xl yl] [Xr yr]]|?|]; simpl;
    try discriminate.
  destruct (feasible self (len Xl) (len Xr)) eqn:Ef; simpl; [|discriminate].
  destruct (fit_value self Xl yl) as [[ll pl]|?|] eqn:El; simpl;
    try discriminate.
  destruct (fit_value self Xr yr) as [[lr pr]|?|] eqn:Er; simpl;
    try discriminate.
  intros H. injection H as <-.
  exists Xl, yl, Xr, yr, ll, pl, lr, pr. auto.
Qed.

(** A candidate with a side below [min_samples_leaf] is skipped. *)
Lemma eval_candidate_None : forall X y N c X_left y_left X_right y_right,
    _split_data (fst c) (snd c) X y
    = Ok ((X_left, y_left), (X_right, y_right)) ->
    feasible self (len X_left) (len X_right) = false ->
    eval_candidate self X y N c = Ok None.
Proof.
  intros X y N c Xl yl Xr yr Hs Hf. unfold eval_candidate.
  rewrite Hs. simpl. now rewrite Hf.
Qed.

(** Without any law of the order: a search that returned either kept its
    local variables or ends on an evaluated candidate. *)
Lemma run_candidates_cases : forall X y N cs b b',
    run_candidates self X y N cs b = Ok b' ->
    (b' = b /\
     forall c e, In c cs -> eval_candidate self X y N c = Ok (Some e) ->
                 nlt (e_loss e) (loss_best b) = false)
    \/
    (exists c e, In c cs /\ eval_candidate self X y N c = Ok (Some e) /\
                 b' = accept c e).
Proof.
  intros X y N. induction cs as [|c0 cs IH]; intros b b' H.
  - simpl in H. injection H as <-. left. split; [reflexivity|].
    intros c e [].
  - simpl in H.
    destruct (eval_candidate self X y N c0) as [oe|e|] eqn:E0; simpl in H;
      try discriminate.
    destruct (IH _ _ H) as [[-> Hall]|(c & e & Hin & Ec & ->)]; clear IH H.
    + destruct oe as [e0|]; simpl in *.
      * destruct (nlt (e_loss e0) (loss_best b)) eqn:E.
        -- right. exists c0, e0. repeat split; simpl; auto.
        -- left. split; [reflexivity|].
           intros c' e' [<-|Hin] He'; [|eapply Hall; eauto].
           rewrite E0 in He'. injection He' as <-. exact E.
      * left. split; [reflexivity|].
        intros c' e' [<-|Hin] He'; [congruence|eapply Hall; eauto].
    + right. exists c, e. repeat split; simpl; auto.
Qed.

(** The shape of what [_splitter] returns. *)
Lemma splitter_value_cases : forall nd res,
    splitter_value self nd = Ok res ->
    exists X y,
      data nd = Some (X, y) /\
      ((res = mk_result false (loss nd) None None None None (len X) /\
        (depth_gate self nd = true ->
         exists cs, candidates self X = Ok cs /\
                    forall c, In c cs ->
                              exists oe, eval_candidate self X y (len X) c = Ok oe /\
                                         forall e, oe = Some e ->
                                                   nlt (e_loss e) (loss nd) = false))
       \/
       (depth_gate self nd = true /\
        exists cs c e,
          candidates self X = Ok cs /\ In c cs /\
          eval_candidate self X y (len X) c = Ok (Some e) /\
          res = mk_result true (e_loss e) (Some (e_polys e)) (Some (e_data e))
                          (Some (fst c)) (Some (snd c)) (len X))).
Proof.
  intros nd res. unfold splitter_value.
  destruct (data nd) as [[X y]|]; simpl; [|discriminate].
  intros H. exists X, y. split; [reflexivity|].
  destruct (depth_gate self nd).
  - destruct (run_features self X y (len X) (seq 0 (ncols X)) _)
      as [b|e|] eqn:Er; simpl in H; try discriminate.
    injection H as <-.
    apply run_features_Ok in Er. destruct Er as (cs & Hcs & Hrun).
    pose proof (run_all_evaluated self X y (len X) cs _ _ Hrun) as Hev.
    destruct (run_candidates_cases _ _ _ _ _ _ Hrun)
      as [[-> Hall]|(c & e & Hin & Ec & ->)].
    + left. split; [reflexivity|]. intros _. exists cs. split; [exact Hcs|].
      intros c Hin. destruct (Hev c Hin) as [oe Hoe]. exists oe.
      split; [exact Hoe|]. intros e ->. exact (Hall c e Hin Hoe).
    + right. split; [reflexivity|]. exists cs, c, e. auto.
  - simpl in H. injection H as <-. left. split; [reflexivity|].
    discriminate.
Qed.

(** [_splitter] returns the value of [splitter_value]. *)
Lemma splitter_Ok : forall nd s res s',
    _splitter self nd s = Ok (res, s') ->
    splitter_value self nd = Ok res /\
    (index_node_global s <= index_node_global s')%nat.
Proof.
  intros nd s res s' H.
  exact (agrees_Ok _ _ _ _ _ _ (splitter_agrees self nd s) H).
Qed.

Lemma splitter_no_fuel : forall nd s, _splitter self nd s <> OutOfFuel.
Proof.
  intros nd s H. pose proof (splitter_agrees self nd s) as Ha.
  unfold splitter_value in Ha.
  destruct (data nd) as [[X y]|]; simpl in Ha; [|congruence].
  destruct (depth_gate self nd).
  - destruct (run_features self X y (len X) (seq 0 (ncols X)) _)
      as [b|e|] eqn:Er; simpl in Ha.
    + destruct Ha as (s' & Ha & _). congruence.
    + congruence.
    + clear Ha H. revert Er. generalize (mk_best false (loss nd) None None None None).
      generalize (seq 0 (ncols X)).
      induction l as [|j js IH]; intros b; simpl; [discriminate|].
      destruct (threshold_search self X j) as [ts|e|] eqn:Et; simpl.
      * destruct (run_candidates self X y (len X) _ b) as [b'|e|] eqn:Erc;
          simpl; [apply IH|discriminate|].
        intros _. revert Erc. generalize (map (pair j) (np_sort ts)). clear.
        intros cs. revert b.
        induction cs as [|c cs IHc]; intros b; simpl; [discriminate|].
        pose proof (eval_candidate_no_fuel self X y (len X) c) as Hnf.
        destruct (eval_candidate self X y (len X) c); simpl;
          [apply IHc|discriminate|congruence].
      * discriminate.
      * intros _. unfold threshold_search, slice_col, np_linspace, np_min, np_max in Et.
        repeat match type of Et with
               | context [if ?c then _ else _] => destruct c; simpl in Et
               | context [match ?l with [] => _ | _ :: _ => _ end] =>
                   destruct l; simpl in Et
               end; discriminate.
  - simpl in Ha. destruct Ha as (s' & Ha & _). congruence.
Qed.

End SearchCases.

(** ** The construction *)

Section Construction.

Context {num : Type} `{F : Float64 num} `{PL : PolyLib num}.
Variable self : PolyTree.

Lemma create_node_eq : forall X y d s,
    _create_node self X y d s
    = match fit_value self X y with
      | Ok (l, p) =>
          Ok (mk_node (S (index_node_global s)) l p (Some (X, y)) (len X)
                      None None None None d,
              mk_state (S (S (index_node_global s))) (log s))
      | Raise e => Raise e
      | OutOfFuel => OutOfFuel
      end.
Proof.
  intros X y d s. unfold _create_node. unfold bind at 1.
  rewrite fit_poly_state.
  destruct (fit_value self X y) as [[l p]|e|]; reflexivity.
Qed.

Lemma traverse_Built : forall fuel nd s nd' s',
    _split_traverse_node self fuel nd s = Ok (nd', s') ->
    Built self nd s nd' s'.
Proof.
  induction fuel as [|fuel IH]; intros nd s nd' s'; simpl; [discriminate|].
  unfold bind at 1.
  destruct (_splitter self nd s) as [[res s1]|e|] eqn:Es; try discriminate.
  destruct (r_did_split res) eqn:Ed; simpl.
  - unfold bind at 1. unfold lift at 1.
    destruct (r_data res) as [[[Xl yl] [Xr yr]]|] eqn:Edata; [|discriminate].
    unfold bind at 1. unfold lift at 1.
    destruct (r_polys res) as [[pl pr]|] eqn:Epolys; [|discriminate].
    unfold bind at 1.
    destruct (_create_node self Xl yl (depth nd + 1) s1)
      as [[left s2]|e|] eqn:El; try discriminate.
    unfold bind at 1.
    destruct (_create_node self Xr yr (depth nd + 1) s2)
      as [[right s3]|e|] eqn:Er; try discriminate.
    unfold bind at 1. unfold log_append at 1.
    unfold bind at 1.
    destruct (_split_traverse_node self fuel (set_poly left pl) _)
      as [[left' s4]|e|] eqn:Etl; try discriminate.
    unfold bind at 1. unfold log_append at 1.
    unfold bind at 1.
    destruct (_split_traverse_node self fuel (set_poly right pr) _)
      as [[right' s5]|e|] eqn:Etr; try discriminate.
    unfold bind, log_append, ret. intros H. injection H as <- <-.
    eapply Built_split; eauto.
  - unfold bind, log_append, ret. intros H. injection H as <- <-.
    eapply Built_leaf; eauto.
Qed.

(** What a step of the construction that splits is made of. *)
Lemma split_step :
  forall nd s res s1 X_left y_left X_right y_right poly_left poly_right
         left s2 right s3,
    _splitter self nd s = Ok (res, s1) ->
    r_did_split res = true ->
    r_data res = Some ((X_left, y_left), (X_right, y_right)) ->
    r_polys res = Some (poly_left, poly_right) ->
    _create_node self X_left y_left (depth nd + 1) s1 = Ok (left, s2) ->
    _create_node self X_right y_right (depth nd + 1) s2 = Ok (right, s3) ->
    exists X y cs c loss_left loss_right,
      data nd = Some (X, y) /\
      depth_gate self nd = true /\
      candidates self X = Ok cs /\ In c cs /\
      _split_data (fst c) (snd c) X y
      = Ok ((X_left, y_left), (X_right, y_right)) /\
      feasible self (len X_left) (len X_right) = true /\
      fit_value self X_left y_left = Ok (loss_left, poly_left) /\
      fit_value self X_right y_right = Ok (loss_right, poly_right) /\
      eval_candidate self X y (len X) c
      = Ok (Some (mk_evaluated
                    (weighted_loss (len X_left) (len X_right) (len X)
                                   loss_left loss_right)
                    ((X_left, y_left), (X_right, y_right))
                    (poly_left, poly_right))) /\
      res = mk_result true
                      (weighted_loss (len X_left) (len X_right) (len X)
                                     loss_left loss_right)
                      (Some (poly_left, poly_right))
                      (Some ((X_left, y_left), (X_right, y_right)))
                      (Some (fst c)) (Some (snd c)) (len X) /\
      (index_node_global s <= index_node_global s1)%nat /\
      left = mk_node (S (index_node_global s1)) loss_left poly_left
                     (Some (X_left, y_left)) (len X_left)
                     None None None None (depth nd + 1) /\
      s2 = mk_state (S (S (index_node_global s1))) (log s1) /\
      right = mk_node (S (index_node_global s2)) loss_right poly_right
                      (Some (X_right, y_right)) (len X_right)
                      None None None None (depth nd + 1) /\
      s3 = mk_state (S (S (index_node_global s2))) (log s2).
Proof.
  intros nd s res s1 Xl yl Xr yr pl pr left s2 right s3
         Hs Hd Hdata Hpolys Hl Hr.
  apply splitter_Ok in Hs. destruct Hs as [Hv Hle].
  apply splitter_value_cases in Hv.
  destruct Hv as (X & y & HX & [[-> _]|(Hg & cs & c & e & Hcs & Hin & He & ->)]);
    [discriminate|].
  simpl in Hdata, Hpolys.
  pose proof He as He'.
  apply eval_candidate_Some in He'.
  destruct He' as (Xl' & yl' & Xr' & yr' & ll & pl' & lr & pr'
                   & Hsd & Hf & Hfl & Hfr & ->).
  simpl in Hdata, Hpolys.
  injection Hdata as -> -> -> ->. injection Hpolys as -> ->.
  rewrite create_node_eq, Hfl in Hl. injection Hl as <- <-.
  rewrite create_node_eq, Hfr in Hr. injection Hr as <- <-.
  exists X, y, cs, c, ll, lr. simpl.
  repeat (split; [first [assumption|reflexivity]|]). reflexivity.
Qed.

Lemma set_poly_same : forall (nd : node), set_poly nd (poly nd) = nd.
Proof. intros []. reflexivity. Qed.

(** The recursion is as deep as the depth gate allows: with fuel above
    [max_depth - depth] the construction of a node does not run out. *)
Lemma traverse_total : forall fuel nd s,
    (Z.to_nat (max_depth self - depth nd) < fuel)%nat ->
    _split_traverse_node self fuel nd s <> OutOfFuel.
Proof.
  induction fuel as [|fuel IH]; intros nd s Hfuel; [lia|]. simpl.
  unfold bind at 1.
  pose proof (splitter_no_fuel self nd s) as Hnf.
  destruct (_splitter self nd s) as [[res s1]|e|] eqn:Es;
    [|discriminate|congruence].
  destruct (r_did_split res) eqn:Ed; simpl; [|discriminate].
  unfold bind at 1. unfold lift at 1.
  destruct (r_data res) as [[[Xl yl] [Xr yr]]|] eqn:Edata; [|discriminate].
  unfold bind at 1. unfold lift at 1.
  destruct (r_polys res) as [[pl pr]|] eqn:Epolys; [|discriminate].
  unfold bind at 1. rewrite create_node_eq.
  pose proof (fit_value_no_fuel self Xl yl) as Hfl.
  destruct (fit_value self Xl yl) as [[ll pl']|e|] eqn:El;
    [|discriminate|congruence].
  unfold bind at 1. rewrite create_node_eq.
  pose proof (fit_value_no_fuel self Xr yr) as Hfr.
  destruct (fit_value self Xr yr) as [[lr pr']|e|] eqn:Er;
    [|discriminate|congruence].
  assert (Hgate : depth_gate self nd = true).
  { apply splitter_Ok in Es. destruct Es as [Hv _].
    apply splitter_value_cases in Hv.
    destruct Hv as (X & y & _ & [[-> _]|[Hg _]]); [discriminate|exact Hg]. }
  unfold depth_gate in Hgate. apply andb_true_iff in Hgate.
  destruct Hgate as [_ Hlt]. apply Z.ltb_lt in Hlt.
  unfold bind at 1. unfold log_append at 1.
  unfold bind at 1.
  match goal with
  | |- context [_split_traverse_node self fuel ?n ?st] =>
      pose proof (IH n st) as IHl; destruct (_split_traverse_node self fuel n st)
        as [[left' s4]|e|]
  end; [|discriminate|apply IHl; simpl; lia].
  unfold bind at 1. unfold log_append at 1.
  unfold bind at 1.
  match goal with
  | |- context [_split_traverse_node self fuel ?n ?st] =>
      pose proof (IH n st) as IHr; destruct (_split_traverse_node self fuel n st)
        as [[right' s5]|e|]
  end; [|discriminate|apply IHr; simpl; lia].
  discriminate.
Qed.

(** [fit] runs to an end: it returns a tree or raises. *)
Lemma fit_total : forall log0 X y, fit self log0 X y <> OutOfFuel.
Proof.
  intros log0 X y. unfold fit, _build_tree. unfold bind.
  rewrite create_node_eq.
  pose proof (fit_value_no_fuel self X y) as Hf.
  destruct (fit_value self X y) as [[l p]|e|]; [|discriminate|congruence].
  match goal with
  | |- context [_split_traverse_node self ?f ?n ?st] =>
      pose proof (traverse_total f n st) as Ht;
      destruct (_split_traverse_node self f n st) as [[root s1]|e|]
  end; [discriminate|discriminate|].
  exfalso. apply Ht; [|reflexivity]. simpl. lia.
Qed.

End Construction.

(** ** Built trees *)

Section BuiltTrees.

Context {num : Type} `{F : Float64 num} `{PL : PolyLib num}.
Variable self : PolyTree.

Lemma nodes_leaf : forall nd : node,
    children_left nd = None -> children_right nd = None -> nodes nd = [nd].
Proof. intros [] Hl Hr. simpl in *. subst. reflexivity. Qed.

Lemma descendants_leaf : forall nd : node,
    children_left nd = None -> children_right nd = None -> descendants nd = [].
Proof. intros nd Hl Hr. unfold descendants. now rewrite Hl, Hr. Qed.

Lemma nodes_root : forall nd : node, In nd (nodes nd).
Proof. intros []. simpl. now left. Qed.

Lemma nodes_descendants : forall nd : node, nodes nd = nd :: descendants nd.
Proof. intros []. reflexivity. Qed.

Lemma every_split_leaf : forall (P : node -> node -> node -> Prop) nd,
    children_left nd = None -> children_right nd = None -> every_split P nd.
Proof.
  intros P nd Hl Hr n l r Hin Hnl Hnr.
  rewrite (nodes_leaf nd Hl Hr) in Hin. destruct Hin as [<-|[]]. congruence.
Qed.

Lemma every_split_node :
  forall (P : node -> node -> node -> Prop) i l p d n j t left right dp,
    P (mk_node i l p d n j t (Some left) (Some right) dp) left right ->
    every_split P left -> every_split P right ->
    every_split P (mk_node i l p d n j t (Some left) (Some right) dp).
Proof.
  intros P i l p d n j t left right dp Hroot Hleft Hright m cl cr Hin Hcl Hcr.
  simpl in Hin. destruct Hin as [<-|Hin].
  - simpl in Hcl, Hcr. injection Hcl as <-. injection Hcr as <-. exact Hroot.
  - apply in_app_or in Hin. destruct Hin as [Hin|Hin]; eauto.
Qed.

(** The construction keeps the index, the loss, the polynomial, the
    sample count and the depth of the node it is run on. *)
Lemma Built_fields : forall nd s nd' s',
    Built self nd s nd' s' ->
    index nd' = index nd /\ loss nd' = loss nd /\ poly nd' = poly nd /\
    n_samples nd' = n_samples nd /\ depth nd' = depth nd.
Proof. intros nd s nd' s' H. destruct H; simpl; auto. Qed.

Lemma fit_Built : forall log0 X y root lg,
    fit self log0 X y = Ok (root, lg) ->
    exists l p s',
      fit_value self X y = Ok (l, p) /\
      Built self
            (mk_node 1 l p (Some (X, y)) (len X) None None None None 0)
            (mk_state 2 log0) root s' /\
      lg = log s'.
Proof.
  intros log0 X y root lg. unfold fit, _build_tree. unfold bind.
  rewrite create_node_eq.
  destruct (fit_value self X y) as [[l p]|e|]; try discriminate.
  match goal with
  | |- context [_split_traverse_node self ?f ?n ?st] =>
      destruct (_split_traverse_node self f n st) as [[root' s']|e|] eqn:Et
  end; try discriminate.
  intros H. injection H as <- <-.
  exists l, p, s'. repeat split. eapply traverse_Built; eauto.
Qed.

(** The indices handed out while a node is completed lie between the
    counter before and the counter after, and follow the order of the
    construction. *)
Lemma Built_index : forall nd s nd' s',
    Built self nd s nd' s' ->
    children_left nd = None -> children_right nd = None ->
    (index nd < index_node_global s)%nat ->
    (index_node_global s <= index_node_global s')%nat /\
    (forall m, In m (descendants nd') ->
               (index_node_global s < index m < index_node_global s')%nat) /\
    every_split children_then_subtrees nd'.
Proof.
  intros nd s nd' s' H.
  induction H as [nd s res s1 Hs Hd
                 |nd s res s1 Xl yl Xr yr pl pr left s2 right s3 left' s4
                     right' s5 Hs Hd Hdata Hpolys Hl Hr HBl IHl HBr IHr];
    intros Hcl Hcr Hidx.
  - apply splitter_Ok in Hs. destruct Hs as [_ Hle]. simpl.
    split; [exact Hle|]. split.
    + rewrite (descendants_leaf nd Hcl Hcr). intros m [].
    + now apply every_split_leaf.
  - destruct (split_step self _ _ _ _ _ _ _ _ _ _ _ _ _ _ Hs Hd Hdata Hpolys Hl Hr)
      as (X & y & cs & c & ll & lr & _ & _ & _ & _ & _ & _ & _ & _ & _ & _
          & Hle & -> & -> & -> & ->).
    simpl in *.
    destruct (Built_fields _ _ _ _ HBl) as (Hil & _).
    destruct (Built_fields _ _ _ _ HBr) as (Hir & _).
    simpl in Hil, Hir.
    destruct (IHl eq_refl eq_refl ltac:(simpl; lia)) as (Hl1 & Hl2 & Hl3).
    destruct (IHr eq_refl eq_refl ltac:(simpl; lia)) as (Hr1 & Hr2 & Hr3).
    simpl in Hl1, Hl2, Hr1, Hr2.
    split; [lia|]. split.
    + intros m Hm. unfold descendants in Hm. simpl in Hm.
      rewrite !nodes_descendants in Hm. simpl in Hm.
      destruct Hm as [<-|Hm]; [lia|].
      apply in_app_or in Hm. destruct Hm as [Hm|[<-|Hm]].
      * specialize (Hl2 m Hm). lia.
      * lia.
      * specialize (Hr2 m Hm). lia.
    + apply every_split_node; [|assumption|assumption].
      unfold children_then_subtrees. simpl.
      split; [lia|]. split; [lia|]. split.
      * intros m Hm. specialize (Hl2 m Hm). lia.
      * intros m m' Hm Hm'. specialize (Hr2 m' Hm').
        rewrite nodes_descendants in Hm. destruct Hm as [<-|Hm]; [lia|].
        specialize (Hl2 m Hm). lia.
Qed.

End BuiltTrees.

Section BuiltInvariants.

Context {num : Type} `{F : Float64 num} `{PL : PolyLib num}.
Variable self : PolyTree.

Lemma is_leaf_split : forall i l p d n j t (cl cr : node) dp,
    is_leaf (mk_node i l p d n j t (Some cl) (Some cr) dp) = false.
Proof. reflexivity. Qed.

(** Depths grow by one from a node to its children and stop at
    [max_depth]; a leaf is a node the gate closed or the search found
    nothing for. *)
Lemma Built_depth : forall nd s nd' s',
    Built self nd s nd' s' ->
    children_left nd = None -> children_right nd = None ->
    (forall m, In m (nodes nd') ->
               depth nd <= depth m <= Z.max (depth nd) (max_depth self)) /\
    (forall m, In m (nodes nd') -> is_leaf m = true ->
               depth_gate self m = false \/ no_improving_split self m).
Proof.
  intros nd s nd' s' H.
  induction H as [nd s res s1 Hs Hd
                 |nd s res s1 Xl yl Xr yr pl pr left s2 right s3 left' s4
                     right' s5 Hs Hd Hdata Hpolys Hl Hr HBl IHl HBr IHr];
    intros Hcl Hcr.
  - rewrite (nodes_leaf nd Hcl Hcr). split.
    + intros m [<-|[]]. lia.
    + intros m [<-|[]] _.
      apply splitter_Ok in Hs. destruct Hs as [Hv _].
      apply splitter_value_cases in Hv.
      destruct Hv as (X & y & HX & [[_ Hno]|(_ & cs & c & e & _ & _ & _ & ->)]);
        [|discriminate].
      destruct (depth_gate self nd) eqn:Eg; [right|now left].
      destruct (Hno eq_refl) as (cs & Hcs & Hall).
      exists X, y, cs. auto.
  - destruct (split_step self _ _ _ _ _ _ _ _ _ _ _ _ _ _ Hs Hd Hdata Hpolys Hl Hr)
      as (X & y & cs & c & ll & lr & _ & Hg & _ & _ & _ & _ & _ & _ & _ & _
          & _ & -> & -> & -> & ->).
    unfold depth_gate in Hg. apply andb_true_iff in Hg.
    destruct Hg as [Hge Hlt]. apply Z.geb_le in Hge. apply Z.ltb_lt in Hlt.
    destruct (IHl eq_refl eq_refl) as [Hdl Hll].
    destruct (IHr eq_refl eq_refl) as [Hdr Hlr].
    simpl in Hdl, Hdr. split.
    + intros m Hm. simpl in Hm. destruct Hm as [<-|Hm]; [simpl; lia|].
      apply in_app_or in Hm. destruct Hm as [Hm|Hm].
      * specialize (Hdl m Hm). lia.
      * specialize (Hdr m Hm). lia.
    + intros m Hm Hleaf. simpl in Hm. destruct Hm as [<-|Hm]; [discriminate|].
      apply in_app_or in Hm. destruct Hm as [Hm|Hm]; auto.
Qed.

Lemma fresh_created : forall i l p (X : ndarray num) y dp,
    fresh (mk_node i l p (Some (X, y)) (len X) None None None None dp).
Proof.
  intros. unfold fresh. simpl. repeat split. exists X, y. auto.
Qed.

(** Both children of a split node have at least [min_samples_leaf] rows,
    and together the rows of the node. *)
Lemma Built_samples : forall nd s nd' s',
    Built self nd s nd' s' ->
    fresh nd ->
    every_split
      (fun nd l r =>
         min_samples_leaf self <= Z.of_nat (n_samples l) /\
         min_samples_leaf self <= Z.of_nat (n_samples r) /\
         (n_samples l + n_samples r = n_samples nd)%nat)
      nd'.
Proof.
  intros nd s nd' s' H.
  induction H as [nd s res s1 Hs Hd
                 |nd s res s1 Xl yl Xr yr pl pr left s2 right s3 left' s4
                     right' s5 Hs Hd Hdata Hpolys Hl Hr HBl IHl HBr IHr];
    intros (Hj & Ht & Hcl & Hcr & X0 & y0 & HX0 & Hn).
  - now apply every_split_leaf.
  - destruct (split_step self _ _ _ _ _ _ _ _ _ _ _ _ _ _ Hs Hd Hdata Hpolys Hl Hr)
      as (X & y & cs & c & ll & lr & HX & _ & _ & _ & Hsd & Hf & _ & _ & _ & _
          & _ & -> & -> & -> & ->).
    rewrite HX in HX0. injection HX0 as <- <-.
    destruct (Built_fields _ _ _ _ _ HBl) as (_ & _ & _ & Hnl & _).
    destruct (Built_fields _ _ _ _ _ HBr) as (_ & _ & _ & Hnr & _).
    simpl in Hnl, Hnr.
    apply every_split_node.
    + simpl. rewrite Hnl, Hnr, Hn.
      unfold feasible in Hf. apply andb_true_iff in Hf.
      destruct Hf as [Hfl Hfr]. apply Z.geb_le in Hfl. apply Z.geb_le in Hfr.
      apply split_data_sizes in Hsd. destruct Hsd as (Hsum & _).
      auto.
    + apply IHl. apply fresh_created.
    + apply IHr. apply fresh_created.
Qed.

(** The features stored in split nodes are columns of the data, and a
    node has two children or none. *)
Lemma Built_well_formed : forall nd s nd' s',
    Built self nd s nd' s' ->
    forall d,
      fresh nd ->
      (forall X y, data nd = Some (X, y) -> ncols X = d) ->
      well_formed d nd'.
Proof.
  intros nd s nd' s' H.
  induction H as [nd s res s1 Hs Hd
                 |nd s res s1 Xl yl Xr yr pl pr left s2 right s3 left' s4
                     right' s5 Hs Hd Hdata Hpolys Hl Hr HBl IHl HBr IHr];
    intros d (Hj & Ht & Hcl & Hcr & X0 & y0 & HX0 & Hn) Hcols.
  - destruct nd. simpl in *. subst. auto.
  - destruct (split_step self _ _ _ _ _ _ _ _ _ _ _ _ _ _ Hs Hd Hdata Hpolys Hl Hr)
      as (X & y & cs & c & ll & lr & HX & _ & _ & _ & Hsd & _ & _ & _ & _ & ->
          & _ & -> & -> & -> & ->).
    specialize (Hcols X y HX).
    pose proof (split_data_Ok _ _ _ _ _ _ _ _ Hsd) as (Hlt & _ & _).
    apply split_data_sizes in Hsd. destruct Hsd as (_ & Hcl' & Hcr').
    simpl. split; [exists (fst c); split; [reflexivity|lia]|].
    split; [eauto|]. split.
    + apply IHl; [apply fresh_created|]. simpl. intros ? ? E.
      injection E as <- <-. lia.
    + apply IHr; [apply fresh_created|]. simpl. intros ? ? E.
      injection E as <- <-. lia.
Qed.

(** The rows kept below a node are rows of its data, and the rows below
    the two children of a split node are on their side of the threshold. *)
Lemma Built_rows : forall nd s nd' s',
    Built self nd s nd' s' ->
    fresh nd ->
    forall X y, data nd = Some (X, y) ->
    rows_below nd' (fun r => In r (rows X)) /\
    every_split split_by_threshold nd'.
Proof.
  intros nd s nd' s' H.
  induction H as [nd s res s1 Hs Hd
                 |nd s res s1 Xl yl Xr yr pl pr left s2 right s3 left' s4
                     right' s5 Hs Hd Hdata Hpolys Hl Hr HBl IHl HBr IHr];
    intros (Hj & Ht & Hcl & Hcr & X0 & y0 & HX0 & Hn) X y HX.
  - split; [|now apply every_split_leaf].
    intros m Xm ym Hm Hdm r Hr. rewrite (nodes_leaf nd Hcl Hcr) in Hm.
    destruct Hm as [<-|[]]. rewrite HX in Hdm. injection Hdm as <- <-.
    exact Hr.
  - destruct (split_step self _ _ _ _ _ _ _ _ _ _ _ _ _ _ Hs Hd Hdata Hpolys Hl Hr)
      as (X' & y' & cs & c & ll & lr & HX' & _ & _ & _ & Hsd & _ & _ & _ & _
          & -> & _ & -> & -> & -> & ->).
    rewrite HX in HX'. injection HX' as <- <-.
    rewrite HX in HX0. injection HX0 as <- <-.
    pose proof (split_data_sizes _ _ _ _ _ _ _ _ Hsd) as (Hsum & _).
    pose proof (split_data_Ok _ _ _ _ _ _ _ _ Hsd) as (_ & HXl & HXr).
    destruct (IHl (fresh_created _ _ _ _ _ _) Xl yl eq_refl) as [Hrl Hel].
    destruct (IHr (fresh_created _ _ _ _ _ _) Xr yr eq_refl) as [Hrr Her].
    destruct (Built_fields _ _ _ _ _ HBl) as (_ & _ & _ & Hnl & _).
    destruct (Built_fields _ _ _ _ _ HBr) as (_ & _ & _ & Hnr & _).
    simpl in Hnl, Hnr.
    assert (Hleft : rows_below left' (fun row => goes_left (fst c) (snd c) row = true)).
    { intros m Xm ym Hm Hdm r Hin. specialize (Hrl m Xm ym Hm Hdm r Hin).
      simpl in Hrl. rewrite HXl in Hrl. simpl in Hrl.
      apply filter_In in Hrl. tauto. }
    assert (Hright : rows_below right' (fun row => goes_left (fst c) (snd c) row = false)).
    { intros m Xm ym Hm Hdm r Hin. specialize (Hrr m Xm ym Hm Hdm r Hin).
      simpl in Hrr. rewrite HXr in Hrr. simpl in Hrr.
      apply filter_In in Hrr. destruct Hrr as [_ Hneg].
      now apply negb_true_iff in Hneg. }
    split.
    + intros m Xm ym Hm Hdm r Hin. simpl in Hm.
      destruct Hm as [<-|Hm]; [discriminate|].
      apply in_app_or in Hm. destruct Hm as [Hm|Hm].
      * specialize (Hrl m Xm ym Hm Hdm r Hin). simpl in Hrl.
        rewrite HXl in Hrl. simpl in Hrl. apply filter_In in Hrl. tauto.
      * specialize (Hrr m Xm ym Hm Hdm r Hin). simpl in Hrr.
        rewrite HXr in Hrr. simpl in Hrr. apply filter_In in Hrr. tauto.
    + apply every_split_node; [|assumption|assumption].
      split; [simpl; rewrite Hnl, Hnr, Hn; exact Hsum|].
      exists (fst c), (snd c). simpl. auto.
Qed.

End BuiltInvariants.

Section AcceptedSplits.

Context {num : Type} `{F : Float64 num} `{PL : PolyLib num}.
Variable self : PolyTree.
Hypothesis Hord : StrictOrder_nlt num.

(** The split [_splitter] reports is the first of the candidates with
    the least weighted loss, and that loss is below the loss of the node. *)
Lemma splitter_value_best : forall nd res,
    splitter_value self nd = Ok res ->
    r_did_split res = true ->
    exists X y cs before c after e,
      data nd = Some (X, y) /\
      candidates self X = Ok cs /\
      cs = before ++ c :: after /\
      eval_candidate self X y (len X) c = Ok (Some e) /\
      res = mk_result true (e_loss e) (Some (e_polys e)) (Some (e_data e))
                      (Some (fst c)) (Some (snd c)) (len X) /\
      nlt (e_loss e) (loss nd) = true /\
      (forall c' e', In c' cs ->
                     eval_candidate self X y (len X) c' = Ok (Some e') ->
                     nlt (e_loss e') (e_loss e) = false) /\
      (forall c' e', In c' before ->
                     eval_candidate self X y (len X) c' = Ok (Some e') ->
                     e_loss e' <> e_loss e).
Proof.
  intros nd res. unfold splitter_value.
  destruct (data nd) as [[X y]|]; simpl; [|discriminate].
  destruct (depth_gate self nd).
  - destruct (run_features self X y (len X) (seq 0 (ncols X)) _)
      as [b|e|] eqn:Er; simpl; try discriminate.
    intros H Hd. injection H as <-. simpl in Hd.
    apply run_features_Ok in Er. destruct Er as (cs & Hcs & Hrun).
    destruct (run_candidates_best self X y (len X) Hord _ _ _ Hrun)
      as [[-> _]|(before & c & after & e & -> & Ec & -> & Hlt & Hmin & Htie)];
      [discriminate|].
    exists X, y, (before ++ c :: after), before, c, after, e.
    simpl in *. repeat (split; [first [assumption|reflexivity]|]). assumption.
  - simpl. intros H Hd. injection H as <-. discriminate.
Qed.

(** In a built tree the weighted loss of the two children of a node is
    below the loss of the node. *)
Lemma Built_loss : forall nd s nd' s',
    Built self nd s nd' s' ->
    fresh nd ->
    every_split
      (fun nd l r =>
         nlt (weighted_loss (n_samples l) (n_samples r) (n_samples nd)
                            (loss l) (loss r))
             (loss nd) = true)
      nd'.
Proof.
  intros nd s nd' s' H.
  induction H as [nd s res s1 Hs Hd
                 |nd s res s1 Xl yl Xr yr pl pr left s2 right s3 left' s4
                     right' s5 Hs Hd Hdata Hpolys Hl Hr HBl IHl HBr IHr];
    intros (Hj & Ht & Hcl & Hcr & X0 & y0 & HX0 & Hn).
  - now apply every_split_leaf.
  - destruct (split_step self _ _ _ _ _ _ _ _ _ _ _ _ _ _ Hs Hd Hdata Hpolys Hl Hr)
      as (X & y & cs & c & ll & lr & HX & _ & _ & _ & _ & _ & _ & _ & _ & Hres
          & _ & -> & -> & -> & ->).
    rewrite HX in HX0. injection HX0 as <- <-.
    apply splitter_Ok in Hs. destruct Hs as [Hv _].
    destruct (splitter_value_best _ _ Hv Hd)
      as (X' & y' & cs' & before & c' & after & e & HX' & _ & _ & _ & Hres'
          & Hlt & _).
    rewrite Hres in Hres'. injection Hres' as Hloss _ _ _ _ _.
    rewrite <- Hloss in Hlt.
    destruct (Built_fields _ _ _ _ _ HBl) as (_ & Hll & _ & Hnl & _).
    destruct (Built_fields _ _ _ _ _ HBr) as (_ & Hlr & _ & Hnr & _).
    simpl in Hll, Hnl, Hlr, Hnr.
    apply every_split_node.
    + simpl. rewrite Hll, Hlr, Hnl, Hnr, Hn. exact Hlt.
    + apply IHl. apply fresh_created.
    + apply IHr. apply fresh_created.
Qed.

End AcceptedSplits.

(** ** binary64 numbers are strictly ordered *)

Section Binary64Order.

Lemma SFltb_irrefl : forall a, SFltb a a = false.
Proof.
  intros [s|s| |s m e]; unfold SFltb; simpl; try reflexivity.
  - destruct s; reflexivity.
  - destruct s; rewrite Z.compare_refl, Pos.compare_cont_refl; reflexivity.
Qed.

Lemma SFltb_trans : forall a b c,
    SFltb a b = true -> SFltb b c = true -> SFltb a c = true.
Proof.
  unfold SFltb, SFcompare.
  intros [sa|sa| |sa ma ea] [sb|sb| |sb mb eb] [sc|sc| |sc mc ec];
    try discriminate; try reflexivity;
    try destruct sa; try destruct sb; try destruct sc;
    try discriminate; try reflexivity.
  all: change (PosDef.Pos.compare_cont Eq) with Pos.compare.
  all: destruct (Z.compare_spec ea eb); destruct (Z.compare_spec eb ec);
    destruct (Z.compare_spec ea ec); try lia; simpl;
    try discriminate; try reflexivity.
  all: destruct (Pos.compare_spec ma mb); destruct (Pos.compare_spec mb mc);
    destruct (Pos.compare_spec ma mc); try lia; simpl;
    try discriminate; try reflexivity.
Qed.

(** [<] on binary64, NaN included, is irreflexive and transitive. *)
Lemma F64_strict_order : @StrictOrder_nlt float F64.ops.
Proof.
  split; simpl.
  - intros a. rewrite ltb_spec. apply SFltb_irrefl.
  - intros a b c. rewrite !ltb_spec. apply SFltb_trans.
Qed.

Lemma SFleb_not_nan : forall a b,
    SFleb a b = true -> SFeqb a a = true /\ SFeqb b b = true.
Proof.
  unfold SFleb, SFeqb, SFcompare.
  intros [sa|sa| |sa ma ea] [sb|sb| |sb mb eb]; try discriminate; intros _;
    try destruct sa; try destruct sb;
    rewrite ?Z.compare_refl, ?Pos.compare_cont_refl; split; reflexivity.
Qed.

Lemma SFleb_total : forall a b,
    SFeqb a a = true -> SFeqb b b = true ->
    SFleb a b = true \/ SFleb b a = true.
Proof.
  unfold SFleb, SFeqb, SFcompare.
  intros [sa|sa| |sa ma ea] [sb|sb| |sb mb eb]; try discriminate; intros _ _;
    try destruct sa; try destruct sb; auto.
  all: change (PosDef.Pos.compare_cont Eq) with Pos.compare.
  all: rewrite (Z.compare_antisym ea eb), (Pos.compare_antisym ma mb).
  all: destruct (ea ?= eb); destruct (ma ?= mb)%positive; simpl; auto.
Qed.

Lemma SFleb_trans : forall a b c,
    SFleb a b = true -> SFleb b c = true -> SFleb a c = true.
Proof.
  unfold SFleb, SFcompare.
  intros [sa|sa| |sa ma ea] [sb|sb| |sb mb eb] [sc|sc| |sc mc ec];
    try discriminate; try reflexivity;
    try destruct sa; try destruct sb; try destruct sc;
    try discriminate; try reflexivity.
  all: change (PosDef.Pos.compare_cont Eq) with Pos.compare.
  all: destruct (Z.compare_spec ea eb); destruct (Z.compare_spec eb ec);
    destruct (Z.compare_spec ea ec); try lia; simpl;
    try discriminate; try reflexivity.
  all: destruct (Pos.compare_spec ma mb); destruct (Pos.compare_spec mb mc);
    destruct (Pos.compare_spec ma mc); try lia; simpl;
    try discriminate; try reflexivity.
Qed.

(** [<=] on binary64 is transitive, holds of no NaN, and is total on the
    numbers that are not NaN. *)
Lemma F64_order_nle : @Order_nle float F64.ops.
Proof.
  split; unfold is_nan; simpl.
  - intros a b H. rewrite leb_spec in H. apply SFleb_not_nan in H.
    rewrite !eqb_spec. destruct H as [-> ->]. auto.
  - intros a b Ha Hb. apply negb_false_iff in Ha. apply negb_false_iff in Hb.
    rewrite eqb_spec in Ha, Hb. rewrite !leb_spec. now apply SFleb_total.
  - intros a b c. rewrite !leb_spec. apply SFleb_trans.
Qed.

End Binary64Order.

(** ** The rationals are ordered *)

Section RationalOrder.

Lemma Q_strict_order : @StrictOrder_nlt Q QNum.ops.
Proof.
  split; simpl.
  - intros a. apply negb_false_iff. apply Qle_bool_iff. apply Qle_refl.
  - intros a b c Hab Hbc.
    apply negb_true_iff in Hab. apply negb_true_iff in Hbc.
    apply negb_true_iff.
    destruct (Qle_bool c a) eqn:E; [|reflexivity].
    apply Qle_bool_iff in E.
    assert (Hab' : (a < b)%Q).
    { apply Qnot_le_lt. intros H. apply Qle_bool_iff in H. congruence. }
    assert (Hbc' : (b < c)%Q).
    { apply Qnot_le_lt. intros H. apply Qle_bool_iff in H. congruence. }
    exfalso. apply (Qlt_not_le a c); [|exact E].
    eapply Qlt_trans; eauto.
Qed.

Lemma Q_not_nan : forall a : Q, @is_nan Q QNum.ops a = false.
Proof.
  intros a. unfold is_nan. simpl. apply negb_false_iff.
  apply Qeq_bool_iff. reflexivity.
Qed.

Lemma Q_order_nle : @Order_nle Q QNum.ops.
Proof.
  split.
  - intros a b _. split; apply Q_not_nan.
  - intros a b _ _. simpl. destruct (Qlt_le_dec a b) as [H|H].
    + left. apply Qle_bool_iff. now apply Qlt_le_weak.
    + right. now apply Qle_bool_iff.
  - simpl. intros a b c Hab Hbc. apply Qle_bool_iff.
    apply Qle_bool_iff in Hab. apply Qle_bool_iff in Hbc.
    eapply Qle_trans; eauto.
Qed.

End RationalOrder.

(** ** np.sort *)

Section Sorting.

Context {num : Type} `{F : Float64 num}.

Lemma filter_none : forall A (f : A -> bool) l,
    (forall a, In a l -> f a = false) -> filter f l = [].
Proof.
  intros A f. induction l as [|a l IH]; intros H; simpl; [reflexivity|].
  rewrite (H a) by now left. apply IH. intros b Hb. apply H. now right.
Qed.


Lemma StronglySorted_app : forall A (R : A -> A -> Prop) l1 l2,
    StronglySorted R l1 -> StronglySorted R l2 ->
    (forall a b, In a l1 -> In b l2 -> R a b) ->
    StronglySorted R (l1 ++ l2).
Proof.
  intros A R. induction l1 as [|a l1 IH]; intros l2 H1 H2 H12; simpl.
  - exact H2.
  - inversion H1 as [|? ? H1' Hall]; subst. constructor.
    + apply IH; [assumption|assumption|]. intros x b Hx Hb.
      apply H12; [now right|assumption].
    + apply Forall_app. split; [exact Hall|].
      apply Forall_forall. intros b Hb. apply H12; [now left|assumption].
Qed.

Lemma StronglySorted_weaken : forall A (R R' : A -> A -> Prop) l,
    (forall a b, R a b -> R' a b) ->
    StronglySorted R l -> StronglySorted R' l.
Proof.
  intros A R R' l HR Hs.
  induction Hs as [|a l Hs IH Hall]; constructor; [exact IH|].
  eapply Forall_impl; [|exact Hall]. intros b. apply HR.
Qed.

Lemma insert_sorted_perm : forall x l, Permutation (x :: l) (insert_sorted x l).
Proof.
  intros x. induction l as [|a l IH]; simpl; [reflexivity|].
  destruct (nle x a); [reflexivity|].
  rewrite perm_swap. now apply perm_skip.
Qed.

Lemma insertion_perm : forall l, Permutation l (fold_right insert_sorted [] l).
Proof.
  induction l as [|a l IH]; simpl; [reflexivity|].
  rewrite <- insert_sorted_perm. now apply perm_skip.
Qed.

Lemma nan_last_perm : forall l : list num,
    Permutation l (filter (fun v => negb (is_nan v)) l ++ filter is_nan l).
Proof.
  induction l as [|a l IH]; simpl; [reflexivity|].
  destruct (is_nan a); simpl.
  - apply Permutation_cons_app. exact IH.
  - now apply perm_skip.
Qed.

Lemma np_sort_perm : forall l, Permutation l (np_sort l).
Proof.
  intros l. unfold np_sort. rewrite <- insertion_perm. apply nan_last_perm.
Qed.

Lemma np_sort_length : forall l, length (np_sort l) = length l.
Proof. intros l. symmetry. apply Permutation_length, np_sort_perm. Qed.

Lemma np_sort_In : forall l x, In x (np_sort l) <-> In x l.
Proof.
  intros l x. split; intros H.
  - eapply Permutation_in; [symmetry; apply np_sort_perm|exact H].
  - eapply Permutation_in; [apply np_sort_perm|exact H].
Qed.


Hypothesis Hord : Order_nle num.

Lemma insert_sorted_sorted : forall x l,
    is_nan x = false -> (forall v, In v l -> is_nan v = false) ->
    StronglySorted (fun a b => nle a b = true) l ->
    StronglySorted (fun a b => nle a b = true) (insert_sorted x l).
Proof.
  intros x. induction l as [|a l IH]; intros Hx Hl Hs; simpl.
  - constructor; constructor.
  - inversion Hs as [|? ? Hs' Hall]; subst.
    destruct (nle x a) eqn:E.
    + constructor; [exact Hs|]. constructor; [exact E|].
      eapply Forall_impl; [|exact Hall].
      intros b Hb. simpl in Hb. exact (nle_trans Hord _ _ _ E Hb).
    + constructor;
        [apply IH; [exact Hx|intros v Hv; apply Hl; now right|exact Hs']|].
      assert (Hax : nle a x = true).
      { destruct (nle_total Hord a x (Hl a (or_introl eq_refl)) Hx);
          [assumption|congruence]. }
      rewrite Forall_forall in *. intros b Hb.
      apply (Permutation_in _ (Permutation_sym (insert_sorted_perm x l))) in Hb.
      destruct Hb as [<-|Hb]; auto.
Qed.

Lemma insertion_sorted : forall l,
    (forall v, In v l -> is_nan v = false) ->
    StronglySorted (fun a b => nle a b = true) (fold_right insert_sorted [] l).
Proof.
  induction l as [|a l IH]; intros Hl; simpl; [constructor|].
  apply insert_sorted_sorted.
  - apply Hl. now left.
  - intros v Hv.
    apply (Permutation_in _ (Permutation_sym (insertion_perm l))) in Hv.
    apply Hl. now right.
  - apply IH. intros v Hv. apply Hl. now right.
Qed.

(** [np.sort] returns the numbers in ascending order with every NaN
    last. *)
Lemma np_sort_sorted : forall l, StronglySorted np_le (np_sort l).
Proof.
  intros l. unfold np_sort. apply StronglySorted_app.
  - apply (StronglySorted_weaken _ (fun a b => nle a b = true));
      [intros a b H; now right|].
    apply insertion_sorted. intros v Hv. apply filter_In in Hv.
    destruct Hv as [_ Hv]. now apply negb_true_iff in Hv.
  - induction l as [|a l IH]; simpl; [constructor|].
    destruct (is_nan a) eqn:E; [|exact IH].
    constructor; [exact IH|]. apply Forall_forall. intros b Hb.
    apply filter_In in Hb. left. tauto.
  - intros a b _ Hb. apply filter_In in Hb. left. tauto.
Qed.


End Sorting.

(** ** The order of the candidates *)

Section CandidateOrder.

Context {num : Type} `{F : Float64 num} `{PL : PolyLib num}.
Variable self : PolyTree.

Lemma candidates_of_features : forall X js cs c,
    candidates_of self X js = Ok cs -> In c cs -> In (fst c) js.
Proof.
  intros X. induction js as [|j js IH]; intros cs c; simpl.
  - intros H. injection H as <-. intros [].
  - destruct (threshold_search self X j) as [ts|e|]; simpl; try discriminate.
    destruct (candidates_of self X js) as [cs'|e|]; simpl; try discriminate.
    intros H. injection H as <-. intros Hin.
    apply in_app_or in Hin. destruct Hin as [Hin|Hin].
    + apply in_map_iff in Hin. destruct Hin as (t & <- & _). now left.
    + right. eapply IH; eauto.
Qed.

Lemma StronglySorted_before : forall A (R : A -> A -> Prop) before c after,
    StronglySorted R (before ++ c :: after) ->
    forall c', In c' before -> R c' c.
Proof.
  intros A R. induction before as [|a before IH]; intros c after Hs c' Hin;
    [contradiction|].
  simpl in Hs. inversion Hs as [|? ? Hs' Hall]; subst.
  destruct Hin as [<-|Hin].
  - rewrite Forall_forall in Hall. apply Hall. apply in_or_app.
    right. now left.
  - eapply IH; eauto.
Qed.

Lemma seq_sorted : forall n s, StronglySorted lt (seq s n).
Proof.
  induction n as [|n IH]; intros s; simpl; constructor; [apply IH|].
  apply Forall_forall. intros k Hk. apply in_seq in Hk. lia.
Qed.

(** The candidates are in the order of the features, and within a
    feature in the order [np.sort] gives. *)
Lemma candidates_of_sorted_by :
  forall R : num -> num -> Prop,
    (forall ts, StronglySorted R (np_sort ts)) ->
    forall X js cs,
      StronglySorted lt js ->
      candidates_of self X js = Ok cs ->
      StronglySorted
        (fun c' c => (fst c' < fst c)%nat \/
                     (fst c' = fst c /\ R (snd c') (snd c)))
        cs.
Proof.
  intros R HR X. induction js as [|j js IH]; intros cs Hjs; simpl.
  - intros H. injection H as <-. constructor.
  - destruct (threshold_search self X j) as [ts|e|]; simpl; try discriminate.
    destruct (candidates_of self X js) as [cs'|e|] eqn:Ecs; simpl;
      try discriminate.
    intros H. injection H as <-.
    inversion Hjs as [|? ? Hjs' Hall]; subst.
    apply StronglySorted_app.
    + pose proof (HR ts) as Hs.
      induction Hs as [|a l Hs IHs Hal]; simpl; constructor; [exact IHs|].
      apply Forall_forall. intros c Hc. apply in_map_iff in Hc.
      destruct Hc as (t & <- & Ht). right. simpl. split; [reflexivity|].
      rewrite Forall_forall in Hal. now apply Hal.
    + now apply IH.
    + intros a b Ha Hb. apply in_map_iff in Ha. destruct Ha as (t & <- & _).
      left. simpl. apply (candidates_of_features _ _ _ _ Ecs) in Hb.
      rewrite Forall_forall in Hall. now apply Hall.
Qed.

Lemma StronglySorted_True : forall A (l : list A),
    StronglySorted (fun _ _ => True) l.
Proof.
  induction l as [|a l IH]; constructor; [exact IH|].
  apply Forall_forall. auto.
Qed.

(** A candidate visited earlier has a feature index that is not above. *)
Lemma candidates_features_ordered : forall X cs before c after,
    candidates self X = Ok cs -> cs = before ++ c :: after ->
    forall c', In c' before -> (fst c' <= fst c)%nat.
Proof.
  intros X cs before c after Hcs -> c' Hin.
  pose proof (candidates_of_sorted_by (fun _ _ => True)
                (fun ts => StronglySorted_True _ _) X _ _
                (seq_sorted _ _) Hcs) as Hs.
  pose proof (StronglySorted_before _ _ _ _ _ Hs c' Hin) as H.
  simpl in H. lia.
Qed.

(** The candidates are visited by feature index, and for the same
    feature in the order of [np.sort]. *)
Lemma candidates_sorted : forall X cs,
    Order_nle num ->
    candidates self X = Ok cs ->
    StronglySorted
      (fun c' c => (fst c' < fst c)%nat \/
                   (fst c' = fst c /\ np_le (snd c') (snd c)))
      cs.
Proof.
  intros X cs Hord Hcs.
  exact (candidates_of_sorted_by np_le
           (np_sort_sorted Hord) X _ _ (seq_sorted _ _) Hcs).
Qed.

End CandidateOrder.

(* ================================================================== *)
(** * The split search, the construction and the predictor *)

Section SplitSearchClaims.

Context {num : Type} `{F : Float64 num} `{PL : PolyLib num}.

(** C2. [_split_data] puts in the left part exactly the rows of the parent
    with a feature value [<=] the threshold and in the right part exactly
    the other rows, by row position: the two index sets are disjoint,
    together they are all the rows of the parent, and the sizes add up.  In
    a tree built by [fit] every split node holds the feature and the
    threshold it was split at, the sample counts of its children add up to
    its own, every row kept below the left child passes the test and every
    row kept below the right child does not. *)
Theorem split_data_partition :
  (forall j t (X : ndarray num) (y : list num),
      (j < ncols X)%nat -> length y = len X ->
      exists X_left y_left X_right y_right idx_left idx_right,
        _split_data j t X y = Ok ((X_left, y_left), (X_right, y_right)) /\
        (forall i, In i idx_left <->
                   exists r, nth_error (rows X) i = Some r /\
                             goes_left j t r = true) /\
        (forall i, In i idx_right <->
                   exists r, nth_error (rows X) i = Some r /\
                             goes_left j t r = false) /\
        (forall i, In i idx_left -> In i idx_right -> False) /\
        (forall i, (i < len X)%nat <-> In i idx_left \/ In i idx_right) /\
        NoDup idx_left /\ NoDup idx_right /\
        take_rows X idx_left = Ok X_left /\ take_idx y idx_left = Ok y_left /\
        take_rows X idx_right = Ok X_right /\ take_idx y idx_right = Ok y_right /\
        rows X_left = filter (goes_left j t) (rows X) /\
        rows X_right = filter (fun r => negb (goes_left j t r)) (rows X) /\
        (len X_left + len X_right = len X)%nat)
  /\
  (forall (self : PolyTree) log0 X y root lg,
      fit self log0 X y = Ok (root, lg) ->
      every_split split_by_threshold root).
Proof.
  split.
  - intros j t X y Hj Hy.
    destruct (split_data_rows j t X y Hj Hy)
      as (Xl & yl & Xr & yr & il & ir & H1 & H2 & H3 & H4 & H5 & H6 & H7 & H8
          & H9 & H10 & H11 & H12 & H13 & _ & _ & H16).
    exists Xl, yl, Xr, yr, il, ir.
    repeat (split; [assumption|]). assumption.
  - intros self log0 X y root lg Hfit.
    apply fit_Built in Hfit. destruct Hfit as (l & p & s' & _ & HB & _).
    destruct (Built_rows self _ _ _ _ HB (fresh_created _ _ _ _ _ _) X y eq_refl)
      as [_ H].
    exact H.
Qed.

(** C3. A candidate with a side smaller than [min_samples_leaf] is
    skipped before any fit: the local variables and the state, which
    counts the calls of [_fit_poly], are as before, whatever the polynomial
    library does.  The two parts of the split [_splitter] reports, and the
    two children of every node of a built tree, have at least
    [min_samples_leaf] rows. *)
Theorem accepted_split_feasible :
  forall self : PolyTree,
    (forall X y N j t b s X_left y_left X_right y_right,
        _split_data j t X y = Ok ((X_left, y_left), (X_right, y_right)) ->
        Z.of_nat (len X_left) < min_samples_leaf self \/
        Z.of_nat (len X_right) < min_samples_leaf self ->
        try_threshold self X y N j t b s = Ok (b, s))
    /\
    (forall nd s res s',
        _splitter self nd s = Ok (res, s') ->
        r_did_split res = true ->
        exists X_left y_left X_right y_right,
          r_data res = Some ((X_left, y_left), (X_right, y_right)) /\
          min_samples_leaf self <= Z.of_nat (len X_left) /\
          min_samples_leaf self <= Z.of_nat (len X_right))
    /\
    (forall log0 X y root lg,
        fit self log0 X y = Ok (root, lg) ->
        every_split
          (fun nd l r =>
             min_samples_leaf self <= Z.of_nat (n_samples l) /\
             min_samples_leaf self <= Z.of_nat (n_samples r))
          root).
Proof.
  intros self. split; [|split].
  - intros X y N j t b s Xl yl Xr yr Hsd Hsmall.
    rewrite try_threshold_eval.
    rewrite (eval_candidate_None self X y N (j, t) Xl yl Xr yr Hsd);
      [reflexivity|].
    unfold feasible. apply andb_false_iff.
    destruct Hsmall as [H|H]; [left|right]; rewrite Z.geb_leb;
      apply Z.leb_gt; lia.
  - intros nd s res s' Hs Hd.
    apply splitter_Ok in Hs. destruct Hs as [Hv _].
    apply splitter_value_cases in Hv.
    destruct Hv as (X & y & _ & [[-> _]|(_ & cs & c & e & _ & _ & He & ->)]);
      [discriminate|].
    apply eval_candidate_Some in He.
    destruct He as (Xl & yl & Xr & yr & ll & pl & lr & pr & _ & Hf & _ & _ & ->).
    exists Xl, yl, Xr, yr. simpl. split; [reflexivity|].
    unfold feasible in Hf. apply andb_true_iff in Hf.
    destruct Hf as [Hfl Hfr]. apply Z.geb_le in Hfl. apply Z.geb_le in Hfr.
    auto.
  - intros log0 X y root lg Hfit.
    apply fit_Built in Hfit. destruct Hfit as (l & p & s' & _ & HB & _).
    pose proof (Built_samples self _ _ _ _ HB (fresh_created _ _ _ _ _ _)) as H.
    intros nd cl cr Hin Hl Hr. specialize (H nd cl cr Hin Hl Hr). simpl in H.
    tauto.
Qed.

(** C4. The split search of a node runs only when [0 <= depth < max_depth]:
    on any other node [_splitter] reports no split without evaluating a
    candidate, whatever the data, and the node stays a leaf.  With
    [max_depth >= 0] every node of a built tree has a depth between [0]
    and [max_depth], and every leaf is at [max_depth] or is a node for
    which the search found no candidate below its loss. *)
Theorem depth_gate_bound :
  forall self : PolyTree,
    (forall nd, depth_gate self nd = true <-> 0 <= depth nd < max_depth self)
    /\
    (forall nd X y s fuel,
        data nd = Some (X, y) ->
        depth_gate self nd = false ->
        _splitter self nd s
        = Ok (mk_result false (loss nd) None None None None (len X), s) /\
        _split_traverse_node self (S fuel) nd s
        = Ok (nd, mk_state (index_node_global s) (log s ++ [UP])))
    /\
    (forall nd s res s',
        _splitter self nd s = Ok (res, s') ->
        r_did_split res = true ->
        0 <= depth nd < max_depth self)
    /\
    (forall log0 X y root lg,
        0 <= max_depth self ->
        fit self log0 X y = Ok (root, lg) ->
        forall m, In m (nodes root) ->
                  0 <= depth m <= max_depth self /\
                  (is_leaf m = true ->
                   depth m = max_depth self \/ no_improving_split self m)).
Proof.
  intros self.
  assert (Hgate : forall nd, depth_gate self nd = true <->
                             0 <= depth nd < max_depth self).
  { intros nd. unfold depth_gate. rewrite andb_true_iff, Z.geb_le, Z.ltb_lt.
    tauto. }
  split; [exact Hgate|]. split; [|split].
  - intros nd X y s fuel HX Hg.
    assert (Hs : _splitter self nd s
                 = Ok (mk_result false (loss nd) None None None None (len X), s)).
    { unfold _splitter. unfold bind at 1. rewrite HX. simpl.
      unfold depth_gate in Hg. unfold bind. rewrite Hg. reflexivity. }
    split; [exact Hs|].
    simpl. unfold bind at 1. rewrite Hs. reflexivity.
  - intros nd s res s' Hs Hd. apply Hgate.
    apply splitter_Ok in Hs. destruct Hs as [Hv _].
    apply splitter_value_cases in Hv.
    destruct Hv as (X & y & _ & [[-> _]|[Hg _]]); [discriminate|exact Hg].
  - intros log0 X y root lg Hmax Hfit m Hm.
    apply fit_Built in Hfit. destruct Hfit as (l & p & s' & _ & HB & _).
    destruct (Built_depth self _ _ _ _ HB eq_refl eq_refl) as [Hd Hl].
    specialize (Hd m Hm). simpl in Hd. split; [lia|].
    intros Hleaf. destruct (Hl m Hm Hleaf) as [Hg|Hno]; [left|now right].
    destruct (Z.eq_dec (depth m) (max_depth self)) as [|Hne]; [assumption|].
    assert (Hin : depth_gate self m = true) by (apply Hgate; lia).
    congruence.
Qed.


End SplitSearchClaims.

Section SmallRoot.

Context {num : Type} `{F : Float64 num} `{PL : PolyLib num}.
Variable self : PolyTree.

(** A fit that succeeds on an array with columns was given rows. *)
Lemma fit_value_nonempty : forall X y v,
    fit_value self X y = Ok v -> (0 < ncols X)%nat -> (0 < len X)%nat.
Proof.
  intros [rs d] y v Hfit Hd. unfold len. simpl in *.
  destruct rs as [|r rs]; [|simpl; lia].
  destruct d as [|d]; [lia|].
  unfold fit_value, _fit_poly in Hfit. simpl in Hfit.
  unfold bind, lift in Hfit. simpl in Hfit. discriminate.
Qed.

Lemma column_length : forall (X : ndarray num) j, length (column X j) = len X.
Proof. intros. unfold column, len. apply length_map. Qed.

Lemma py_min_Ok : forall l : list num, l <> [] -> exists v, py_min l = Ok v.
Proof. intros [|x r] H; [congruence|]. simpl. eauto. Qed.

Lemma py_max_Ok : forall l : list num, l <> [] -> exists v, py_max l = Ok v.
Proof. intros [|x r] H; [congruence|]. simpl. eauto. Qed.

Lemma np_min_Ok : forall l : list num, l <> [] -> exists v, np_min l = Ok v.
Proof. intros [|x r] H; [congruence|]. simpl. eauto. Qed.

Lemma np_max_Ok : forall l : list num, l <> [] -> exists v, np_max l = Ok v.
Proof. intros [|x r] H; [congruence|]. simpl. eauto. Qed.

Lemma np_linspace_Ok : forall (lo hi : num) n,
    0 <= n ->
    exists ts, np_linspace lo hi n = Ok ts /\ length ts = Z.to_nat n /\
               (2 <= n -> nth_error ts (Z.to_nat (n - 1)) = Some hi).
Proof.
  intros lo hi n Hn. unfold np_linspace.
  destruct (Z.ltb_spec n 0) as [|_]; [lia|].
  eexists. split; [reflexivity|]. split.
  - now rewrite length_map, length_seq.
  - intros H2. rewrite nth_error_map.
    rewrite nth_error_seq.
    destruct (Nat.ltb_spec (Z.to_nat (n - 1)) (Z.to_nat n)) as [_|]; [|lia].
    simpl. rewrite Z2Nat.id by lia. rewrite Z.eqb_refl.
    destruct (Z.ltb_spec 1 n) as [_|]; [|lia]. reflexivity.
Qed.

(** The sample count of the uniform search (lines 112-115). *)
Lemma samples_min : forall n : nat,
    (if samples self >? Z.of_nat n then Z.of_nat n else samples self)
    = Z.min (samples self) (Z.of_nat n).
Proof.
  intros n. destruct (Z.gtb_spec (samples self) (Z.of_nat n)); lia.
Qed.

Lemma threshold_search_Ok : forall X j,
    valid_search self -> (j < ncols X)%nat -> (0 < len X)%nat ->
    exists ts, threshold_search self X j = Ok ts.
Proof.
  intros X j Hv Hj HN. unfold threshold_search, slice_col.
  apply Nat.ltb_lt in Hj. rewrite Hj.
  destruct Hv as [->|[-> Hs]]; simpl; [eauto|].
  assert (Hne : column X j <> []).
  { intros E. pose proof (column_length X j) as Hl. rewrite E in Hl.
    simpl in Hl. lia. }
  destruct (np_min_Ok _ Hne) as [lo ->]. destruct (np_max_Ok _ Hne) as [hi ->].
  simpl. rewrite samples_min.
  destruct (np_linspace_Ok lo hi (Z.min (samples self) (Z.of_nat (length (column X j)))))
    as (ts & -> & _); [lia|eauto].
Qed.

Lemma for_each_unchanged :
  forall A S (body : A -> S -> M S) l acc s,
    (forall a, In a l -> body a acc s = Ok (acc, s)) ->
    for_each l body acc s = Ok (acc, s).
Proof.
  intros A S body. induction l as [|a l IH]; intros acc s H; simpl.
  - reflexivity.
  - unfold bind. rewrite H by now left. apply IH. intros a' Ha'.
    apply H. now right.
Qed.

(** On fewer rows than [min_samples_leaf] the search skips every
    candidate: nothing is fitted and no split is reported. *)
Lemma splitter_small : forall nd X y s,
    data nd = Some (X, y) ->
    length y = len X ->
    valid_search self ->
    (0 < ncols X -> 0 < len X)%nat ->
    Z.of_nat (len X) < min_samples_leaf self ->
    _splitter self nd s
    = Ok (mk_result false (loss nd) None None None None (len X), s).
Proof.
  intros nd X y s HX Hy Hv Hne Hsmall.
  unfold _splitter. unfold bind at 1. rewrite HX. simpl.
  unfold bind at 1.
  destruct ((depth nd >=? 0) && (depth nd <? max_depth self)); [|reflexivity].
  rewrite for_each_unchanged; [reflexivity|].
  intros j Hj. apply in_seq in Hj. simpl in Hj.
  unfold try_feature. unfold bind at 1.
  destruct (threshold_search_Ok X j Hv) as [ts ->]; [lia|apply Hne; lia|].
  simpl. apply for_each_unchanged.
  intros t _. rewrite try_threshold_eval.
  pose proof (split_data_eq j t X y ltac:(lia) Hy) as Hsd.
  pose proof (split_data_sizes _ _ _ _ _ _ _ _ Hsd) as (Hsum & _).
  rewrite (eval_candidate_None self X y (len X) (j, t) _ _ _ _ Hsd);
    [reflexivity|].
  unfold feasible. apply andb_false_iff. left.
  rewrite Z.geb_leb. apply Z.leb_gt. lia.
Qed.

End SmallRoot.

Section AcceptedSplitClaim.

Context {num : Type} `{F : Float64 num} `{PL : PolyLib num}.

(** A candidate that was evaluated has a row on its left, so its
    threshold is not a NaN. *)
Lemma eval_candidate_not_nan : forall (self : PolyTree) X y N c e,
    Order_nle num ->
    eval_candidate self X y N c = Ok (Some e) -> is_nan (snd c) = false.
Proof.
  intros self X y N c e Hord He.
  destruct (eval_candidate_Some self _ _ _ _ _ He)
    as (Xl & yl & Xr & yr & ll & pl & lr & pr & Hsd & _ & Hfl & _).
  destruct (split_data_Ok _ _ _ _ _ _ _ _ Hsd) as (Hj & HXl & _).
  assert (HN : (0 < len Xl)%nat).
  { eapply fit_value_nonempty; [exact Hfl|]. rewrite HXl. simpl. lia. }
  rewrite HXl in HN. unfold len in HN. simpl in HN.
  destruct (filter (goes_left (fst c) (snd c)) (rows X)) as [|r rs] eqn:E;
    [simpl in HN; lia|].
  assert (Hr : In r (filter (goes_left (fst c) (snd c)) (rows X)))
    by (rewrite E; now left).
  apply filter_In in Hr. destruct Hr as [_ Hr]. unfold goes_left in Hr.
  exact (proj2 (nle_nan Hord _ _ Hr)).
Qed.

(** C1. Every split that the search accepts has a sample-size-weighted
    loss [(n_left*mse_left + n_right*mse_right)/n_total] strictly below
    the loss the node had before: for the split [_splitter] reports and for
    every node of a built tree with its two children.  A candidate whose
    weighted loss equals the current best leaves the incumbent in place,
    and the reported split is the first, in the order of the visit (lower
    feature index, then threshold not above), of the candidates with the
    least loss.  The laws assumed of [<] and of [<=] are laws of float64,
    NaN included. *)
Theorem accepted_split_improves :
  forall self : PolyTree,
    StrictOrder_nlt num ->
    (forall X y N j t b s e,
        eval_candidate self X y N (j, t) = Ok (Some e) ->
        e_loss e = loss_best b ->
        try_threshold self X y N j t b s
        = Ok (b, after_candidate self s b (j, t) (Some e)))
    /\
    (forall nd s res s',
        _splitter self nd s = Ok (res, s') ->
        r_did_split res = true ->
        exists X y cs before c after X_left y_left X_right y_right
               loss_left poly_left loss_right poly_right,
          data nd = Some (X, y) /\
          candidates self X = Ok cs /\
          cs = before ++ c :: after /\
          r_j_feature res = Some (fst c) /\
          r_threshold res = Some (snd c) /\
          _split_data (fst c) (snd c) X y
          = Ok ((X_left, y_left), (X_right, y_right)) /\
          fit_value self X_left y_left = Ok (loss_left, poly_left) /\
          fit_value self X_right y_right = Ok (loss_right, poly_right) /\
          r_loss res
          = ndiv (nadd (nmul (of_int (Z.of_nat (len X_left))) loss_left)
                       (nmul (of_int (Z.of_nat (len X_right))) loss_right))
                 (of_int (Z.of_nat (len X))) /\
          nlt (r_loss res) (loss nd) = true /\
          (forall c' e', In c' cs ->
                         eval_candidate self X y (len X) c' = Ok (Some e') ->
                         nlt (e_loss e') (r_loss res) = false) /\
          (forall c' e', In c' before ->
                         eval_candidate self X y (len X) c' = Ok (Some e') ->
                         e_loss e' <> r_loss res) /\
          (forall c', In c' before -> (fst c' <= fst c)%nat) /\
          (Order_nle num ->
           forall c', In c' before -> visited_before c' c))
    /\
    (forall log0 X y root lg,
        fit self log0 X y = Ok (root, lg) ->
        every_split
          (fun nd l r =>
             nlt (ndiv (nadd (nmul (of_int (Z.of_nat (n_samples l))) (loss l))
                             (nmul (of_int (Z.of_nat (n_samples r))) (loss r)))
                       (of_int (Z.of_nat (n_samples nd))))
                 (loss nd) = true)
          root).
Proof.
  intros self Hord. split; [|split].
  - intros X y N j t b s e He Htie.
    rewrite try_threshold_eval, He. simpl.
    rewrite Htie, (nlt_irrefl Hord). reflexivity.
  - intros nd s res s' Hs Hd.
    apply splitter_Ok in Hs. destruct Hs as [Hv _].
    destruct (splitter_value_best self Hord _ _ Hv Hd)
      as (X & y & cs & before & c & after & e & HX & Hcs & Heq & He & ->
          & Hlt & Hmin & Htie).
    pose proof (eval_candidate_Some self _ _ _ _ _ He)
      as (Xl & yl & Xr & yr & ll & pl & lr & pr & Hsd & _ & Hfl & Hfr & Ee).
    exists X, y, cs, before, c, after, Xl, yl, Xr, yr, ll, pl, lr, pr.
    rewrite Ee in Hlt, Hmin, Htie |- *. simpl in *.
    repeat (split; [first [assumption|reflexivity]|]).
    split.
    + eapply candidates_features_ordered; eauto.
    + intros Hnle c' Hin. subst cs.
      pose proof (candidates_sorted self X _ Hnle Hcs) as Hsorted.
      destruct (StronglySorted_before _ _ _ _ _ Hsorted c' Hin)
        as [Hfeat|[Hfeat [Hnan|Hle]]].
      * now left.
      * rewrite (eval_candidate_not_nan self _ _ _ _ _ Hnle He) in Hnan.
        discriminate.
      * right. split; assumption.
  - intros log0 X y root lg Hfit.
    apply fit_Built in Hfit. destruct Hfit as (l & p & s' & _ & HB & _).
    exact (Built_loss self Hord _ _ _ _ HB (fresh_created _ _ _ _ _ _)).
Qed.

End AcceptedSplitClaim.

Section FitClaims.

Context {num : Type} `{F : Float64 num} `{PL : PolyLib num}.

(** C9. With fewer rows than [min_samples_leaf] at the root, and the fit
    of the root's own polynomial succeeding, [fit] succeeds and the tree is
    the root alone, a leaf that keeps its data: the counter stands at two,
    one call of [_fit_poly] and one node, so no candidate was fitted, and
    the log gained the single entry [UP].  The code does not fail on such
    an input. *)
Theorem small_root_single_leaf :
  forall (self : PolyTree) log0 X y l p,
    length y = len X ->
    valid_search self ->
    Z.of_nat (len X) < min_samples_leaf self ->
    fit_value self X y = Ok (l, p) ->
    let root := mk_node 1 l p (Some (X, y)) (len X) None None None None 0 in
    _build_tree self X y (mk_state 0 log0)
    = Ok (root, mk_state 2 (log0 ++ [UP])) /\
    fit self log0 X y = Ok (root, log0 ++ [UP]) /\
    is_leaf root = true /\ nodes root = [root].
Proof.
  intros self log0 X y l p Hy Hv Hsmall Hfit root.
  assert (Hb : _build_tree self X y (mk_state 0 log0)
               = Ok (root, mk_state 2 (log0 ++ [UP]))).
  { unfold _build_tree. unfold bind at 1. rewrite create_node_eq, Hfit.
    simpl. unfold bind at 1.
    rewrite (splitter_small self _ X y); try assumption; try reflexivity.
    intros Hd. eapply fit_value_nonempty; eauto. }
  split; [exact Hb|]. split; [|split; reflexivity].
  unfold fit. rewrite Hb. reflexivity.
Qed.


End FitClaims.

Section ThresholdClaims.

Context {num : Type} `{F : Float64 num} `{PL : PolyLib num}.
Variable self : PolyTree.










End ThresholdClaims.

Section PredictClaims.

Context {num : Type} `{F : Float64 num} `{PL : PolyLib num}.

(** The walk of [route] from a node ends in a leaf of its tree, and
    [_predict] evaluates the polynomial of that leaf. *)
Lemma route_predict : forall (nd : node) x leaf,
    route nd x = Some leaf ->
    is_leaf leaf = true /\ In leaf (nodes nd) /\
    _predict nd x = eval_poly (poly leaf) x.
Proof.
  fix IH 1. intros [i l p d n j t [cl|] [cr|] dp] x leaf; simpl;
    try discriminate.
  - destruct j as [j|]; [|discriminate]. destruct t as [t|]; [|discriminate].
    destruct (nth_error x j) as [v|]; [|discriminate].
    destruct (nle v t); intros H; apply IH in H;
      destruct H as (Hl & Hin & Hp); (split; [exact Hl|]);
      (split; [|exact Hp]); right; apply in_or_app; auto.
  - intros H. injection H as <-. simpl. auto.
Qed.

(** On a tree whose split nodes hold features below [d], the walk of a
    point with at least [d] coordinates reaches a leaf. *)
Lemma route_total : forall d (nd : node) x,
    well_formed d nd -> (d <= length x)%nat ->
    exists leaf, route nd x = Some leaf.
Proof.
  intros d. fix IH 1. intros [i l p dt n j t [cl|] [cr|] dp] x; simpl;
    try contradiction.
  - intros ((j' & -> & Hj) & (t' & ->) & Hl & Hr) Hx.
    destruct (nth_error x j') as [v|] eqn:Ev.
    + destruct (nle v t'); [now apply IH|now apply IH].
    + apply nth_error_None in Ev. lia.
  - intros _ _. eauto.
Qed.

Lemma comprehension_Ok : forall A B (f : A -> outcome B) X ys,
    comprehension f X = Ok ys ->
    length ys = length X /\
    forall i x, nth_error X i = Some x ->
                exists v, nth_error ys i = Some v /\ f x = Ok v.
Proof.
  intros A B f. induction X as [|x0 X IH]; intros ys; simpl.
  - intros H. injection H as <-. split; [reflexivity|].
    intros [|i] x; discriminate.
  - destruct (f x0) as [v0|e|] eqn:E0; simpl; try discriminate.
    destruct (comprehension f X) as [vs|e|]; simpl; try discriminate.
    intros H. injection H as <-. destruct (IH vs eq_refl) as [Hlen Hnth].
    split; [simpl; now rewrite Hlen|].
    intros [|i] x; simpl.
    + intros Hx. injection Hx as <-. eauto.
    + apply Hnth.
Qed.

Lemma comprehension_all : forall A B (f : A -> outcome B) X,
    (forall x, In x X -> exists v, f x = Ok v) ->
    exists ys, comprehension f X = Ok ys.
Proof.
  intros A B f. induction X as [|x0 X IH]; intros H; simpl; [eauto|].
  destruct (H x0) as [v ->]; [now left|]. simpl.
  destruct IH as [vs ->]; [intros x Hx; apply H; now right|]. simpl. eauto.
Qed.

(** C7. [_predict] on a leaf returns the first entry of what the
    polynomial of the leaf gives at the point, [poly.get_polyfit(x)[0]];
    on a node with a split it goes to the left child when the
    point's value at the split feature is [<=] the threshold and to the
    right child otherwise; so it returns the polynomial of the leaf that
    the walk [route] reaches, evaluated at the point, and on a tree built
    by [fit] the walk of every point with the training dimension reaches
    a leaf.  On a batch [predict] handles each row by itself and returns
    the values in the order of the rows. *)
Theorem predict_routes :
  (forall i l p d n j t dp x,
      _predict (mk_node i l p d n j t None None dp) x
      = match get_polyfit p [x] with
        | v :: _ => Ok v
        | [] => Raise IndexError
        end)
  /\
  (forall i l p d n j t cl cr dp x v,
      nth_error x j = Some v ->
      _predict (mk_node i l p d n (Some j) (Some t) (Some cl) (Some cr) dp) x
      = if nle v t then _predict cl x else _predict cr x)
  /\
  (forall (nd : node) x leaf,
      route nd x = Some leaf ->
      is_leaf leaf = true /\ In leaf (nodes nd) /\
      _predict nd x
      = match get_polyfit (poly leaf) [x] with
        | v :: _ => Ok v
        | [] => Raise IndexError
        end)
  /\
  (forall (self : PolyTree) log0 X y root lg x,
      fit self log0 X y = Ok (root, lg) ->
      (ncols X <= length x)%nat ->
      exists leaf,
        route root x = Some leaf /\
        is_leaf leaf = true /\ In leaf (nodes root) /\
        _predict root x
        = match get_polyfit (poly leaf) [x] with
          | v :: _ => Ok v
          | [] => Raise IndexError
          end)
  /\
  (forall (root : node) Xs ys,
      predict (Some root) Xs = Ok ys ->
      length ys = length Xs /\
      forall i x, nth_error Xs i = Some x ->
                  exists v, nth_error ys i = Some v /\ _predict root x = Ok v)
  /\
  (forall (root : node) Xs,
      (forall x, In x Xs -> exists v, _predict root x = Ok v) ->
      exists ys, predict (Some root) Xs = Ok ys).
Proof.
  split; [reflexivity|]. split.
  { intros i l p d n j t cl cr dp x v Hv. simpl. rewrite Hv. reflexivity. }
  split; [exact route_predict|]. split.
  { intros self log0 X y root lg x Hfit Hx.
    apply fit_Built in Hfit. destruct Hfit as (l & p & s' & _ & HB & _).
    destruct (route_total (ncols X) root x) as [leaf Hleaf]; [|exact Hx|].
    - eapply Built_well_formed; [exact HB|apply fresh_created|].
      simpl. intros X' y' E. now injection E as <- <-.
    - exists leaf. split; [exact Hleaf|]. exact (route_predict _ _ _ Hleaf). }
  split.
  { intros root Xs ys H. exact (comprehension_Ok _ _ _ _ _ H). }
  { intros root Xs H. exact (comprehension_all _ _ _ _ H). }
Qed.

(** C8. Before [fit] has built a tree, [predict] fails on its assertion
    for every input. *)
Theorem predict_before_fit :
  forall Xs : list (list num), predict None Xs = Raise AssertionError.
Proof. intros Xs. unfold predict. reflexivity. Qed.

End PredictClaims.

(* ================================================================== *)
(** * Sample runs *)

Import Examples.
Import F64 QNum.

(** The partition of the four points at the threshold [1]. *)
Lemma split_data_partition_witness :
  (0 < ncols X4)%nat /\ length y4 = len X4 /\
  exists X_left y_left X_right y_right,
    @_split_data float F64.ops 0 1%float X4 y4
    = Ok ((X_left, y_left), (X_right, y_right)) /\
    (len X_left + len X_right = len X4)%nat.
Proof.
  assert (Hj : (0 < ncols X4)%nat) by (simpl; lia).
  assert (Hy : length y4 = len X4) by reflexivity.
  split; [exact Hj|]. split; [exact Hy|].
  destruct (proj1 (@split_data_partition float F64.ops (F64.mean_fit 1))
                  0%nat 1%float X4 y4 Hj Hy)
    as (Xl & yl & Xr & yr & il & ir & Hs & _ & _ & _ & _ & _ & _ & _ & _ & _
        & _ & _ & _ & Hsum).
  exists Xl, yl, Xr, yr. split; assumption.
Defined.

(** The search at the root of the four points, in binary64: it reports
    the threshold [1], visited after the threshold [0], with the weighted
    loss [(2*4 + 2*0)/4], which rounds to 2.0000000000000004 as the norm
    of the residuals is squared again, below the loss 2403 of the root;
    and in the
    tree on the four points every split is below the loss of its node. *)
Lemma accepted_split_improves_witness :
  @StrictOrder_nlt float F64.ops /\ @Order_nle float F64.ops /\
  (exists res s',
      @_splitter float F64.ops (F64.mean_fit 1) tree2 MoreExamples.root4
                 (mk_state 2 [])
      = Ok (res, s') /\
      r_did_split res = true /\
      r_threshold res = Some 1%float /\
      r_loss res = 0x1.0000000000001p+1%float /\
      exists (X : ndarray float) y cs before c after X_left y_left X_right
             y_right loss_left poly_left loss_right poly_right,
        data MoreExamples.root4 = Some (X, y) /\
        @candidates float F64.ops tree2 X = Ok cs /\
        cs = before ++ c :: after /\
        r_j_feature res = Some (fst c) /\
        r_threshold res = Some (snd c) /\
        @_split_data float F64.ops (fst c) (snd c) X y
        = Ok ((X_left, y_left), (X_right, y_right)) /\
        @fit_value float F64.ops (F64.mean_fit 1) tree2 X_left y_left
        = Ok (loss_left, poly_left) /\
        @fit_value float F64.ops (F64.mean_fit 1) tree2 X_right y_right
        = Ok (loss_right, poly_right) /\
        r_loss res
        = @ndiv float F64.ops
            (@nadd float F64.ops
               (@nmul float F64.ops
                  (@of_int float F64.ops (Z.of_nat (len X_left))) loss_left)
               (@nmul float F64.ops
                  (@of_int float F64.ops (Z.of_nat (len X_right))) loss_right))
            (@of_int float F64.ops (Z.of_nat (len X))) /\
        @nlt float F64.ops (r_loss res) (loss MoreExamples.root4) = true /\
        forall c', In c' before -> @visited_before float F64.ops c' c)
  /\
  exists root lg,
    built4 = Ok (root, lg) /\
    every_split
      (fun nd l r =>
         @nlt float F64.ops
              (ndiv (nadd (nmul (of_int (Z.of_nat (n_samples l))) (loss l))
                          (nmul (of_int (Z.of_nat (n_samples r))) (loss r)))
                    (of_int (Z.of_nat (n_samples nd))))
              (loss nd) = true)
      root.
Proof.
  split; [exact F64_strict_order|]. split; [exact F64_order_nle|]. split.
  - eexists. eexists.
    match goal with
    | |- _ = Ok (?r, ?s) /\ _ =>
        assert (Hs : @_splitter float F64.ops (F64.mean_fit 1) tree2
                                MoreExamples.root4 (mk_state 2 [])
                     = Ok (r, s))
          by (vm_compute; reflexivity)
    end.
    split; [exact Hs|].
    match goal with
    | |- r_did_split ?r = true /\ _ =>
        assert (Hd : r_did_split r = true) by (vm_compute; reflexivity)
    end.
    split; [exact Hd|].
    split; [vm_compute; reflexivity|]. split; [vm_compute; reflexivity|].
    destruct (proj1 (proj2 (@accepted_split_improves
                              float F64.ops (F64.mean_fit 1) tree2
                              F64_strict_order))
                    _ _ _ _ Hs Hd)
      as (X & y & cs & before & c & after & Xl & yl & Xr & yr & ll & pl & lr
          & pr & HX & Hcs & Heq & Hj & Ht & Hsd & Hfl & Hfr & Hloss & Hlt
          & _ & _ & _ & Hvb).
    exists X, y, cs, before, c, after, Xl, yl, Xr, yr, ll, pl, lr, pr.
    repeat (split; [assumption|]). exact (Hvb F64_order_nle).
  - eexists. eexists. split; [vm_compute; reflexivity|].
    eapply (proj2 (proj2 (@accepted_split_improves
                            float F64.ops (F64.mean_fit 1) tree2
                            F64_strict_order))
                  [] X4 y4).
    vm_compute. reflexivity.
Defined.

(** The tree on the four points: both children of every split have a row. *)
Lemma accepted_split_feasible_witness :
  exists root lg,
    built4 = Ok (root, lg) /\
    every_split
      (fun nd l r =>
         min_samples_leaf tree2 <= Z.of_nat (n_samples l) /\
         min_samples_leaf tree2 <= Z.of_nat (n_samples r))
      root.
Proof.
  eexists. eexists. split; [vm_compute; reflexivity|].
  eapply (proj2 (proj2 (@accepted_split_feasible
                          float F64.ops (F64.mean_fit 1) tree2))
                [] X4 y4).
  vm_compute. reflexivity.
Defined.

(** The tree on the four points has its nodes at depths up to two. *)
Lemma depth_gate_bound_witness :
  0 <= max_depth tree2 /\
  exists root lg,
    built4 = Ok (root, lg) /\
    forall m, In m (nodes root) -> 0 <= depth m <= max_depth tree2.
Proof.
  assert (H0 : 0 <= max_depth tree2) by (simpl; lia).
  split; [exact H0|].
  eexists. eexists. split; [vm_compute; reflexivity|].
  intros m Hm.
  eapply (proj2 (proj2 (proj2 (@depth_gate_bound
                                 float F64.ops (F64.mean_fit 1) tree2)))
                [] X4 y4 _ _ H0);
    [vm_compute; reflexivity|exact Hm].
Defined.







(** A column that holds a NaN: [np.sort] puts the NaN last, [np.min] and
    [np.max] return it, every threshold of the uniform search is a NaN,
    and the tree is the root alone. *)
Lemma nan_column_run :
  np_sort (column Xnan 0) = [0%float; 1%float; PrimFloat.nan] /\
  np_min (column Xnan 0) = Ok PrimFloat.nan /\
  np_max (column Xnan 0) = Ok PrimFloat.nan /\
  @threshold_search float F64.ops tree_uniform Xnan 0
  = Ok [PrimFloat.nan; PrimFloat.nan; PrimFloat.nan] /\
  exists root lg,
    @fit float F64.ops (F64.mean_fit 1) tree_uniform [] Xnan ynan
    = Ok (root, lg) /\
    nodes root = [root].
Proof.
  split; [vm_compute; reflexivity|]. split; [vm_compute; reflexivity|].
  split; [vm_compute; reflexivity|]. split; [vm_compute; reflexivity|].
  eexists. eexists. split; vm_compute; reflexivity.
Qed.

(** The walk of a point through the tree on the four points: to the leaf
    of the last two points, whose polynomial gives 100. *)
Lemma predict_routes_witness :
  (ncols X4 <= length [1.5%float])%nat /\
  exists root lg,
    built4 = Ok (root, lg) /\
    _predict root [1.5%float] = Ok 100%float /\
    exists leaf,
      route root [1.5%float] = Some leaf /\
      is_leaf leaf = true /\ In leaf (nodes root) /\
      _predict root [1.5%float]
      = match get_polyfit (poly leaf) [[1.5%float]] with
        | v :: _ => Ok v
        | [] => Raise IndexError
        end.
Proof.
  assert (Hx : (ncols X4 <= length [1.5%float])%nat) by (simpl; lia).
  split; [exact Hx|].
  eexists. eexists.
  split; [vm_compute; reflexivity|].
  split; [vm_compute; reflexivity|].
  eapply (proj1 (proj2 (proj2 (proj2 (@predict_routes
                                        float F64.ops (F64.mean_fit 1)))))
                tree2 [] X4 y4);
    [vm_compute; reflexivity|exact Hx].
Defined.

(** Four points with leaves of at least ten rows: the root alone. *)
Lemma small_root_single_leaf_witness :
  length y4 = len X4 /\ valid_search tree_default /\
  Z.of_nat (len X4) < min_samples_leaf tree_default /\
  exists root,
    @fit float F64.ops (F64.mean_fit 1) tree_default [] X4 y4
    = Ok (root, [UP]) /\
    nodes root = [root].
Proof.
  assert (Hy : length y4 = len X4) by reflexivity.
  assert (Hv : valid_search tree_default) by (left; reflexivity).
  assert (Hs : Z.of_nat (len X4) < min_samples_leaf tree_default)
    by (simpl; lia).
  split; [exact Hy|]. split; [exact Hv|]. split; [exact Hs|].
  assert (Hfit : exists l p,
             @fit_value float F64.ops (F64.mean_fit 1) tree_default X4 y4
             = Ok (l, p))
    by (eexists; eexists; vm_compute; reflexivity).
  destruct Hfit as (l & p & Hfit).
  destruct (@small_root_single_leaf float F64.ops (F64.mean_fit 1)
              tree_default [] X4 y4 l p Hy Hv Hs Hfit)
    as (_ & Hf & _ & Hn).
  eexists. split; [exact Hf|exact Hn].
Defined.

(* ================================================================== *)
(** * Further properties of the construction *)

Section SearchState.

Context {num : Type} `{F : Float64 num} `{PL : PolyLib num}.
Variable self : PolyTree.

Lemma search_steps_refl : forall s, search_steps self s s.
Proof.
  intros s. exists 0%nat, []. rewrite app_nil_r.
  repeat split; auto; lia.
Qed.

Lemma search_steps_trans : forall s1 s2 s3,
    search_steps self s1 s2 -> search_steps self s2 s3 ->
    search_steps self s1 s3.
Proof.
  intros s1 s2 s3 (k1 & e1 & Hi1 & Hl1 & Hf1 & Hn1) (k2 & e2 & Hi2 & Hl2 & Hf2 & Hn2).
  exists (k1 + k2)%nat, (e1 ++ e2). repeat split.
  - lia.
  - rewrite Hl2, Hl1. now rewrite app_assoc.
  - apply Forall_app. auto.
  - intros H. rewrite (Hn1 H), (Hn2 H). reflexivity.
Qed.

Lemma for_each_steps :
  forall A S (body : A -> S -> M S),
    (forall a acc s acc' s',
        body a acc s = Ok (acc', s') -> search_steps self s s') ->
    forall l acc s acc' s',
      for_each l body acc s = Ok (acc', s') -> search_steps self s s'.
Proof.
  intros A S body Hbody. induction l as [|a l IH]; intros acc s acc' s'; simpl.
  - unfold ret. intros H. injection H as <- <-. apply search_steps_refl.
  - unfold bind. destruct (body a acc s) as [[acc1 s1]|e|] eqn:E; try discriminate.
    intros H. eapply search_steps_trans; [eapply Hbody; eauto|eapply IH; eauto].
Qed.

Lemma try_threshold_steps : forall X y N j t b s b' s',
    try_threshold self X y N j t b s = Ok (b', s') -> search_steps self s s'.
Proof.
  intros X y N j t b s b' s'. rewrite try_threshold_eval.
  destruct (eval_candidate self X y N (j, t)) as [[e|]|e|]; try discriminate.
  - intros H. injection H as <- <-. simpl.
    exists 1%nat.
    exists (if logging self
            then [(if nlt (e_loss e) (loss_best b) then best_split else try_split)
                    j t (e_loss e) (fst (e_polys e)) (snd (e_polys e))]
            else []).
    simpl. repeat split.
    + lia.
    + destruct (logging self); [|constructor].
      constructor; [|constructor].
      destruct (nlt (e_loss e) (loss_best b)); reflexivity.
    + intros ->. reflexivity.
  - intros H. injection H as <- <-. apply search_steps_refl.
Qed.

(** The state after [_splitter]. *)
Lemma splitter_steps : forall nd s res s',
    _splitter self nd s = Ok (res, s') -> search_steps self s s'.
Proof.
  intros nd s res s'. unfold _splitter. unfold bind at 1. unfold lift.
  destruct (data nd) as [[X y]|]; [|discriminate]. simpl.
  unfold bind at 1.
  destruct ((depth nd >=? 0) && (depth nd <? max_depth self)).
  - match goal with
    | |- context [for_each ?l ?body ?acc s] =>
        destruct (for_each l body acc s) as [[b s1]|e|] eqn:E
    end; try discriminate.
    unfold ret. intros H. injection H as _ <-.
    eapply for_each_steps; [|exact E].
    intros j b0 s0 b1 s2. unfold try_feature. unfold bind at 1. unfold lift.
    destruct (threshold_search self X j) as [ts|e|]; try discriminate.
    apply for_each_steps. intros t. apply try_threshold_steps.
  - unfold ret. intros H. injection H as _ <-. apply search_steps_refl.
Qed.

End SearchState.

Section BuiltRemains.

Context {num : Type} `{F : Float64 num} `{PL : PolyLib num}.
Variable self : PolyTree.

Lemma filter_search_none : forall evs : list event,
    Forall (fun e => is_search e = true) evs -> filter is_traversal evs = [].
Proof.
  intros evs H. apply filter_none. rewrite Forall_forall in H.
  intros e He. specialize (H e He). unfold is_search in H.
  now apply negb_true_iff in H.
Qed.

(** The log of a construction: between the entries of the searches it is
    the walk through the finished tree. *)
Lemma Built_walk : forall nd s nd' s',
    Built self nd s nd' s' ->
    children_left nd = None -> children_right nd = None ->
    exists evs,
      log s' = log s ++ evs /\
      filter is_traversal evs = traversal nd' /\
      (logging self = false -> evs = traversal nd').
Proof.
  intros nd s nd' s' H.
  induction H as [nd s res s1 Hs Hd
                 |nd s res s1 Xl yl Xr yr pl pr left s2 right s3 left' s4
                     right' s5 Hs Hd Hdata Hpolys Hl Hr HBl IHl HBr IHr];
    intros Hcl Hcr.
  - apply splitter_steps in Hs. destruct Hs as (k & evs & _ & Hlog & Hall & Hoff).
    exists (evs ++ [UP]). simpl.
    assert (Ht : traversal nd = [UP]).
    { destruct nd; simpl in *; subst; reflexivity. }
    rewrite Ht. split; [rewrite Hlog; now rewrite app_assoc|]. split.
    + rewrite filter_app, (filter_search_none _ Hall). reflexivity.
    + intros Hf. now rewrite (Hoff Hf).
  - pose proof (splitter_steps self _ _ _ _ Hs)
      as (k & evs & _ & Hlog & Hall & Hoff).
    destruct (split_step self _ _ _ _ _ _ _ _ _ _ _ _ _ _ Hs Hd Hdata Hpolys Hl Hr)
      as (X & y & cs & c & ll & lr & _ & _ & _ & _ & _ & _ & _ & _ & _ & _
          & _ & -> & -> & -> & ->).
    destruct (IHl eq_refl eq_refl) as (el & Hll & Hfl & Hol).
    destruct (IHr eq_refl eq_refl) as (er & Hlr & Hfr & Hor).
    simpl in Hll, Hlr.
    exists (evs ++ [DOWN LEFT (r_j_feature res) (r_threshold res)] ++ el
                ++ [DOWN RIGHT (r_j_feature res) (r_threshold res)] ++ er
                ++ [UP]).
    simpl. split; [|split].
    + rewrite Hlr, Hll, Hlog. repeat rewrite <- app_assoc. reflexivity.
    + rewrite filter_app, (filter_search_none _ Hall). simpl.
      rewrite filter_app, Hfl. simpl. rewrite filter_app, Hfr. reflexivity.
    + intros Hf. rewrite (Hoff Hf), (Hol Hf), (Hor Hf). reflexivity.
Qed.

(** The counter of a construction moves in steps of two, so that every
    node below the first gets an odd index from an even counter. *)
Lemma Built_counter : forall nd s nd' s',
    Built self nd s nd' s' ->
    children_left nd = None -> children_right nd = None ->
    (exists k, index_node_global s' = index_node_global s + 2 * k)%nat /\
    (Nat.Even (index_node_global s) ->
     forall m, In m (descendants nd') -> Nat.Odd (index m)).
Proof.
  intros nd s nd' s' H.
  induction H as [nd s res s1 Hs Hd
                 |nd s res s1 Xl yl Xr yr pl pr left s2 right s3 left' s4
                     right' s5 Hs Hd Hdata Hpolys Hl Hr HBl IHl HBr IHr];
    intros Hcl Hcr.
  - apply splitter_steps in Hs. destruct Hs as (k & evs & Hk & _).
    split; [exists k; exact Hk|].
    rewrite (descendants_leaf nd Hcl Hcr). intros _ m [].
  - pose proof (splitter_steps self _ _ _ _ Hs) as (k & evs & Hk & _).
    destruct (split_step self _ _ _ _ _ _ _ _ _ _ _ _ _ _ Hs Hd Hdata Hpolys Hl Hr)
      as (X & y & cs & c & ll & lr & _ & _ & _ & _ & _ & _ & _ & _ & _ & _
          & _ & -> & -> & -> & ->).
    destruct (IHl eq_refl eq_refl) as ((kl & Hkl) & Hol).
    destruct (IHr eq_refl eq_refl) as ((kr & Hkr) & Hor).
    destruct (Built_fields self _ _ _ _ HBl) as (Hil & _).
    destruct (Built_fields self _ _ _ _ HBr) as (Hir & _).
    simpl in *. split.
    + exists (k + 2 + kl + kr)%nat. lia.
    + intros [h Hh] m Hm. unfold descendants in Hm. simpl in Hm.
      rewrite !nodes_descendants in Hm. simpl in Hm.
      destruct Hm as [<-|Hm]; [exists (h + k)%nat; lia|].
      apply in_app_or in Hm. destruct Hm as [Hm|[<-|Hm]].
      * apply Hol; [exists (h + k + 2)%nat; lia|exact Hm].
      * exists (h + k + 1)%nat. lia.
      * apply Hor; [exists (h + k + 2 + kl)%nat; lia|exact Hm].
Qed.

(** Every node the construction leaves is a leaf with its data or a split
    node without. *)
Lemma Built_shape : forall nd s nd' s',
    Built self nd s nd' s' ->
    forall d,
      fresh nd ->
      (forall X y, data nd = Some (X, y) -> ncols X = d) ->
      forall m, In m (nodes nd') -> leaf_shape d m \/ split_shape d m.
Proof.
  intros nd s nd' s' H.
  induction H as [nd s res s1 Hs Hd
                 |nd s res s1 Xl yl Xr yr pl pr left s2 right s3 left' s4
                     right' s5 Hs Hd Hdata Hpolys Hl Hr HBl IHl HBr IHr];
    intros d (Hj & Ht & Hcl & Hcr & X0 & y0 & HX0 & Hn) Hcols m Hm.
  - rewrite (nodes_leaf nd Hcl Hcr) in Hm. destruct Hm as [<-|[]].
    left. unfold leaf_shape. repeat (split; [assumption|]).
    exists X0, y0. repeat split; eauto.
  - destruct (split_step self _ _ _ _ _ _ _ _ _ _ _ _ _ _ Hs Hd Hdata Hpolys Hl Hr)
      as (X & y & cs & c & ll & lr & HX & _ & _ & _ & Hsd & _ & _ & _ & _ & ->
          & _ & -> & -> & -> & ->).
    specialize (Hcols X y HX).
    pose proof (split_data_Ok _ _ _ _ _ _ _ _ Hsd) as (Hlt & _ & _).
    apply split_data_sizes in Hsd. destruct Hsd as (_ & Hcl' & Hcr').
    destruct (Built_fields self _ _ _ _ HBl) as (_ & _ & _ & _ & Hdl).
    destruct (Built_fields self _ _ _ _ HBr) as (_ & _ & _ & _ & Hdr).
    simpl in Hm, Hdl, Hdr. destruct Hm as [<-|Hm].
    + right. exists left', right', (fst c), (snd c). simpl.
      repeat split; try assumption; try reflexivity. lia.
    + apply in_app_or in Hm. destruct Hm as [Hm|Hm].
      * apply (IHl d (fresh_created _ _ _ _ _ _)); [|exact Hm].
        simpl. intros ? ? E. injection E as <- <-. lia.
      * apply (IHr d (fresh_created _ _ _ _ _ _)); [|exact Hm].
        simpl. intros ? ? E. injection E as <- <-. lia.
Qed.

End BuiltRemains.

Section BuiltData.

Context {num : Type} `{F : Float64 num} `{PL : PolyLib num}.
Variable self : PolyTree.

Lemma leaves_leaf : forall nd : node,
    children_left nd = None -> children_right nd = None -> leaves nd = [nd].
Proof.
  intros nd Hl Hr. unfold leaves. rewrite (nodes_leaf nd Hl Hr). simpl.
  unfold is_leaf. now rewrite Hl, Hr.
Qed.

Lemma leaves_split : forall i l p d n j t (cl cr : node) dp,
    leaves (mk_node i l p d n j t (Some cl) (Some cr) dp)
    = leaves cl ++ leaves cr.
Proof. intros. unfold leaves. simpl. now rewrite filter_app. Qed.

(** Indices are handed out once. *)
Lemma Built_unique : forall nd s nd' s',
    Built self nd s nd' s' ->
    children_left nd = None -> children_right nd = None ->
    (index nd < index_node_global s)%nat ->
    NoDup (map index (nodes nd')).
Proof.
  intros nd s nd' s' H.
  induction H as [nd s res s1 Hs Hd
                 |nd s res s1 Xl yl Xr yr pl pr left s2 right s3 left' s4
                     right' s5 Hs Hd Hdata Hpolys Hl Hr HBl IHl HBr IHr];
    intros Hcl Hcr Hidx.
  - rewrite (nodes_leaf nd Hcl Hcr). simpl. constructor; [intros []|constructor].
  - pose proof (Built_split nd s Hs Hd Hdata Hpolys Hl Hr HBl HBr) as HB.
    destruct (Built_index self _ _ _ _ HB Hcl Hcr Hidx) as (_ & Hbelow & Hord).
    pose proof (Hord _ left' right' (nodes_root _) eq_refl eq_refl)
      as (_ & Hlr & Hdl & Hdr).
    destruct (split_step self _ _ _ _ _ _ _ _ _ _ _ _ _ _ Hs Hd Hdata Hpolys Hl Hr)
      as (X & y & cs & c & ll & lr & _ & _ & _ & _ & _ & _ & _ & _ & _ & _
          & Hle & -> & -> & -> & ->).
    destruct (Built_index self _ _ _ _ HBl eq_refl eq_refl) as (Hl4 & _);
      [simpl; lia|].
    assert (IHl' : NoDup (map index (nodes left')))
      by (apply IHl; [reflexivity|reflexivity|simpl; lia]).
    assert (IHr' : NoDup (map index (nodes right')))
      by (apply IHr; [reflexivity|reflexivity|simpl in *; lia]).
    simpl. constructor.
    + intros Hin. apply in_map_iff in Hin. destruct Hin as (m & Hm & Hin).
      specialize (Hbelow m Hin). simpl in Hm. lia.
    + rewrite map_app. apply NoDup_app; [assumption|assumption|].
      intros i Hi Hi'. apply in_map_iff in Hi. apply in_map_iff in Hi'.
      destruct Hi as (m & <- & Hm). destruct Hi' as (m' & Heq & Hm').
      rewrite (nodes_descendants right') in Hm'. destruct Hm' as [<-|Hm'].
      * rewrite (nodes_descendants left') in Hm. destruct Hm as [<-|Hm].
        -- lia.
        -- specialize (Hdl m Hm). lia.
      * specialize (Hdr m m' Hm Hm'). lia.
Qed.

(** The leaves share out the rows of the node, and every node below the
    first has at least [min_samples_leaf] of them. *)
Lemma Built_leaf_samples : forall nd s nd' s',
    Built self nd s nd' s' ->
    fresh nd ->
    list_sum (map n_samples (leaves nd')) = n_samples nd /\
    forall m, In m (descendants nd') ->
              min_samples_leaf self <= Z.of_nat (n_samples m).
Proof.
  intros nd s nd' s' H.
  induction H as [nd s res s1 Hs Hd
                 |nd s res s1 Xl yl Xr yr pl pr left s2 right s3 left' s4
                     right' s5 Hs Hd Hdata Hpolys Hl Hr HBl IHl HBr IHr];
    intros (Hj & Ht & Hcl & Hcr & X0 & y0 & HX0 & Hn).
  - rewrite (leaves_leaf nd Hcl Hcr), (descendants_leaf nd Hcl Hcr). simpl.
    split; [lia|intros m []].
  - destruct (split_step self _ _ _ _ _ _ _ _ _ _ _ _ _ _ Hs Hd Hdata Hpolys Hl Hr)
      as (X & y & cs & c & ll & lr & HX & _ & _ & _ & Hsd & Hf & _ & _ & _ & _
          & _ & -> & -> & -> & ->).
    rewrite HX in HX0. injection HX0 as <- <-.
    destruct (IHl (fresh_created _ _ _ _ _ _)) as [Hsl Hml].
    destruct (IHr (fresh_created _ _ _ _ _ _)) as [Hsr Hmr].
    destruct (Built_fields self _ _ _ _ HBl) as (_ & _ & _ & Hnl & _).
    destruct (Built_fields self _ _ _ _ HBr) as (_ & _ & _ & Hnr & _).
    apply split_data_sizes in Hsd. destruct Hsd as (Hsum & _).
    unfold feasible in Hf. apply andb_true_iff in Hf.
    destruct Hf as [Hfl Hfr]. apply Z.geb_le in Hfl. apply Z.geb_le in Hfr.
    simpl in *. split.
    + rewrite leaves_split, map_app, list_sum_app, Hsl, Hsr. lia.
    + intros m Hm. unfold descendants in Hm. simpl in Hm.
      rewrite !nodes_descendants in Hm. simpl in Hm.
      destruct Hm as [<-|Hm]; [lia|].
      apply in_app_or in Hm. destruct Hm as [Hm|[<-|Hm]]; auto. lia.
Qed.

Lemma filter_partition_perm : forall A (f : A -> bool) l,
    Permutation l (filter f l ++ filter (fun a => negb (f a)) l).
Proof.
  induction l as [|a l IH]; simpl; [constructor|].
  destruct (f a); simpl.
  - now constructor.
  - apply Permutation_cons_app. exact IH.
Qed.

(** The samples the nodes keep are the samples of the first node, each
    once. *)
Lemma Built_kept_samples : forall nd s nd' s',
    Built self nd s nd' s' ->
    fresh nd ->
    forall X y, data nd = Some (X, y) -> length y = len X ->
    Permutation (combine (rows X) y) (flat_map kept_samples (nodes nd')).
Proof.
  intros nd s nd' s' H.
  induction H as [nd s res s1 Hs Hd
                 |nd s res s1 Xl yl Xr yr pl pr left s2 right s3 left' s4
                     right' s5 Hs Hd Hdata Hpolys Hl Hr HBl IHl HBr IHr];
    intros (Hj & Ht & Hcl & Hcr & X0 & y0 & HX0 & Hn) X y HX Hy.
  - rewrite (nodes_leaf nd Hcl Hcr). simpl. unfold kept_samples.
    rewrite HX, app_nil_r. reflexivity.
  - destruct (split_step self _ _ _ _ _ _ _ _ _ _ _ _ _ _ Hs Hd Hdata Hpolys Hl Hr)
      as (X' & y' & cs & c & ll & lr & HX' & _ & _ & _ & Hsd & _ & _ & _ & _
          & _ & _ & -> & -> & -> & ->).
    rewrite HX in HX'. injection HX' as <- <-.
    pose proof (split_data_Ok _ _ _ _ _ _ _ _ Hsd) as (Hlt & _ & _).
    rewrite (split_data_eq _ _ _ _ Hlt Hy) in Hsd.
    injection Hsd as <- <- <- <-.
    set (f := goes_left (fst c) (snd c)) in *.
    set (yl := map snd (filter fst (combine (map f (rows X)) y))) in *.
    set (yr := map snd (filter fst (combine (map negb (map f (rows X))) y))) in *.
    assert (Hyl : length yl = length (filter f (rows X)))
      by (apply select_length; exact Hy).
    assert (Hyr : length yr
                  = length (filter (fun r => negb (f r)) (rows X))).
    { unfold yr. rewrite map_map. apply (select_length _ _ (fun r => negb (f r))).
      exact Hy. }
    specialize (IHl (fresh_created _ _ _ _ _ _) _ _ eq_refl Hyl).
    specialize (IHr (fresh_created _ _ _ _ _ _) _ _ eq_refl Hyr).
    simpl in IHl, IHr. simpl. unfold kept_samples at 1. simpl.
    rewrite flat_map_app. rewrite <- IHl, <- IHr.
    unfold yl, yr. rewrite map_map.
    rewrite (select_combine _ _ f (rows X) y Hy).
    rewrite (select_combine _ _ (fun r => negb (f r)) (rows X) y Hy).
    apply (filter_partition_perm _ (fun p => f (fst p))).
Qed.

(** The polynomial and the loss of a node that keeps its data are those
    of [_fit_poly] on that data. *)
Lemma Built_fit : forall nd s nd' s',
    Built self nd s nd' s' ->
    children_left nd = None -> children_right nd = None ->
    (forall X y, data nd = Some (X, y) ->
                 fit_value self X y = Ok (loss nd, poly nd)) ->
    forall m X y, In m (nodes nd') -> data m = Some (X, y) ->
                  fit_value self X y = Ok (loss m, poly m).
Proof.
  intros nd s nd' s' H.
  induction H as [nd s res s1 Hs Hd
                 |nd s res s1 Xl yl Xr yr pl pr left s2 right s3 left' s4
                     right' s5 Hs Hd Hdata Hpolys Hl Hr HBl IHl HBr IHr];
    intros Hcl Hcr Hown m X y Hm Hdm.
  - rewrite (nodes_leaf nd Hcl Hcr) in Hm. destruct Hm as [<-|[]]. auto.
  - destruct (split_step self _ _ _ _ _ _ _ _ _ _ _ _ _ _ Hs Hd Hdata Hpolys Hl Hr)
      as (X' & y' & cs & c & ll & lr & _ & _ & _ & _ & _ & _ & Hfl & Hfr & _
          & _ & _ & -> & -> & -> & ->).
    simpl in Hm. destruct Hm as [<-|Hm]; [discriminate|].
    apply in_app_or in Hm. destruct Hm as [Hm|Hm].
    + apply (IHl eq_refl eq_refl); [|exact Hm|exact Hdm].
      simpl. intros ? ? E. injection E as <- <-. exact Hfl.
    + apply (IHr eq_refl eq_refl); [|exact Hm|exact Hdm].
      simpl. intros ? ? E. injection E as <- <-. exact Hfr.
Qed.

(** A tree has at most as many nodes as a full binary tree of the levels
    that are left down to [max_depth]. *)
Lemma Built_size : forall nd s nd' s',
    Built self nd s nd' s' ->
    children_left nd = None -> children_right nd = None ->
    (length (nodes nd') + 1
     <= 2 ^ S (Z.to_nat (max_depth self - depth nd)))%nat.
Proof.
  intros nd s nd' s' H.
  induction H as [nd s res s1 Hs Hd
                 |nd s res s1 Xl yl Xr yr pl pr left s2 right s3 left' s4
                     right' s5 Hs Hd Hdata Hpolys Hl Hr HBl IHl HBr IHr];
    intros Hcl Hcr.
  - rewrite (nodes_leaf nd Hcl Hcr). simpl length.
    rewrite Nat.pow_succ_r'.
    pose proof (Nat.pow_nonzero 2 (Z.to_nat (max_depth self - depth nd))).
    lia.
  - destruct (split_step self _ _ _ _ _ _ _ _ _ _ _ _ _ _ Hs Hd Hdata Hpolys Hl Hr)
      as (X & y & cs & c & ll & lr & _ & Hg & _ & _ & _ & _ & _ & _ & _ & _
          & _ & -> & -> & -> & ->).
    unfold depth_gate in Hg. apply andb_true_iff in Hg.
    destruct Hg as [_ Hlt]. apply Z.ltb_lt in Hlt.
    specialize (IHl eq_refl eq_refl). specialize (IHr eq_refl eq_refl).
    simpl depth in IHl, IHr. simpl depth.
    replace (Z.to_nat (max_depth self - depth nd))
      with (S (Z.to_nat (max_depth self - (depth nd + 1)))) by lia.
    simpl length. rewrite length_app.
    rewrite (Nat.pow_succ_r' 2 (S _)). lia.
Qed.

End BuiltData.

Section BuiltRouting.

Context {num : Type} `{F : Float64 num} `{PL : PolyLib num}.
Variable self : PolyTree.

Lemma route_leaf : forall (nd : node) x,
    children_left nd = None -> children_right nd = None ->
    route nd x = Some nd.
Proof. intros [] x Hl Hr. simpl in *. subst. reflexivity. Qed.

(** A row a leaf keeps walks from the first node to that leaf. *)
Lemma Built_route : forall nd s nd' s',
    Built self nd s nd' s' ->
    fresh nd ->
    forall X y,
      data nd = Some (X, y) ->
      (forall r, In r (rows X) -> length r = ncols X) ->
      forall m Xm ym r,
        In m (nodes nd') -> data m = Some (Xm, ym) -> In r (rows Xm) ->
        route nd' r = Some m.
Proof.
  intros nd s nd' s' H.
  induction H as [nd s res s1 Hs Hd
                 |nd s res s1 Xl yl Xr yr pl pr left s2 right s3 left' s4
                     right' s5 Hs Hd Hdata Hpolys Hl Hr HBl IHl HBr IHr];
    intros Hfresh X y HX Hrect m Xm ym r Hm Hdm Hr'.
  - destruct Hfresh as (_ & _ & Hcl & Hcr & _).
    rewrite (nodes_leaf nd Hcl Hcr) in Hm. destruct Hm as [<-|[]].
    now apply route_leaf.
  - destruct (split_step self _ _ _ _ _ _ _ _ _ _ _ _ _ _ Hs Hd Hdata Hpolys Hl Hr)
      as (X' & y' & cs & c & ll & lr & HX' & _ & _ & _ & Hsd & _ & _ & _ & _
          & -> & _ & -> & -> & -> & ->).
    rewrite HX in HX'. injection HX' as <- <-.
    pose proof (Built_rows self _ _ _ _ HBl (fresh_created _ _ _ _ _ _)
                           Xl yl eq_refl) as [Hbl _].
    pose proof (Built_rows self _ _ _ _ HBr (fresh_created _ _ _ _ _ _)
                           Xr yr eq_refl) as [Hbr _].
    pose proof (split_data_Ok _ _ _ _ _ _ _ _ Hsd) as (Hlt & HXl & HXr).
    assert (Hrl : forall r0, In r0 (rows Xl) -> length r0 = ncols Xl).
    { intros r0 Hr0. rewrite HXl in *. simpl in *.
      apply filter_In in Hr0. now apply Hrect. }
    assert (Hrr : forall r0, In r0 (rows Xr) -> length r0 = ncols Xr).
    { intros r0 Hr0. rewrite HXr in *. simpl in *.
      apply filter_In in Hr0. now apply Hrect. }
    simpl in Hm. destruct Hm as [<-|Hm]; [discriminate|].
    apply in_app_or in Hm. destruct Hm as [Hm|Hm].
    + pose proof (Hbl m Xm ym Hm Hdm r Hr') as Hin. simpl in Hin.
      rewrite HXl in Hin. simpl in Hin. apply filter_In in Hin.
      destruct Hin as [Hin Hgo].
      simpl. rewrite (nth_error_nth' r (of_int 0))
        by (rewrite (Hrect r Hin); exact Hlt).
      unfold goes_left in Hgo. rewrite Hgo.
      eapply (IHl (fresh_created _ _ _ _ _ _) Xl yl eq_refl Hrl); eauto.
    + pose proof (Hbr m Xm ym Hm Hdm r Hr') as Hin. simpl in Hin.
      rewrite HXr in Hin. simpl in Hin. apply filter_In in Hin.
      destruct Hin as [Hin Hgo]. apply negb_true_iff in Hgo.
      simpl. rewrite (nth_error_nth' r (of_int 0))
        by (rewrite (Hrect r Hin); exact Hlt).
      unfold goes_left in Hgo. rewrite Hgo.
      eapply (IHr (fresh_created _ _ _ _ _ _) Xr yr eq_refl Hrr); eauto.
Qed.

End BuiltRouting.

Section TreeWalks.

Context {num : Type} `{F : Float64 num} `{PL : PolyLib num}.

(** [_search_tree] adds the polynomials of the leaves, from left to
    right. *)
Lemma search_tree_leaves : forall (nd : node) polys,
    _search_tree nd polys = polys ++ map poly (leaves nd).
Proof.
  fix IH 1. intros [i l p d n j t [cl|] [cr|] dp] polys; unfold leaves; simpl.
  - rewrite filter_app, map_app, !IH. unfold leaves.
    now rewrite <- app_assoc.
  - rewrite app_nil_r, IH. reflexivity.
  - rewrite IH. reflexivity.
  - reflexivity.
Qed.

Lemma route_in_leaves : forall (nd : node) x leaf,
    route nd x = Some leaf -> In leaf (leaves nd).
Proof.
  intros nd x leaf H. apply route_predict in H.
  destruct H as (Hl & Hin & _). unfold leaves. apply filter_In. auto.
Qed.

(** The calls of [build_graphviz_recurse] on a tree whose split nodes
    name features that have a name. *)
Lemma build_graphviz_calls : forall d names (nd : node) parent pdepth label,
    well_formed d nd -> (d <= length names)%nat ->
    exists calls,
      build_graphviz_recurse names nd parent pdepth label = Ok calls /\
      added_nodes calls = map index (nodes nd) /\
      added_edges calls
      = (if (0 <? pdepth)%nat then [(parent, index nd)] else [])
          ++ tree_edges nd.
Proof.
  intros d names. fix IH 1.
  intros [i l p dt n j t [cl|] [cr|] dp] parent pdepth label; simpl;
    try contradiction.
  - intros ((j' & -> & Hj) & (t' & ->) & Hl & Hr) Hn.
    destruct (nth_error names j') as [name|] eqn:En;
      [|apply nth_error_None in En; lia].
    destruct (IH cl i (S pdepth) ""%string Hl Hn) as (cL & -> & HnL & HeL).
    destruct (IH cr i (S pdepth) ""%string Hr Hn) as (cR & -> & HnR & HeR).
    simpl. eexists. split; [reflexivity|]. simpl in HeL, HeR.
    unfold added_nodes, added_edges in *.
    destruct (0 <? pdepth)%nat; simpl; rewrite !flat_map_app, ?map_app;
      rewrite HnL, HnR, HeL, HeR; split; reflexivity.
  - intros [-> ->] Hn. simpl. eexists. split; [reflexivity|].
    unfold added_nodes, added_edges.
    destruct (0 <? pdepth)%nat; simpl; auto.
Qed.

(** A feature without a name stops [build_graphviz_recurse]. *)
Lemma build_graphviz_unnamed :
  forall names i l p dt n j t (cl cr : node) dp parent pdepth label,
    (length names <= j)%nat ->
    build_graphviz_recurse
      names (mk_node i l p dt n (Some j) t (Some cl) (Some cr) dp)
      parent pdepth label
    = Raise IndexError.
Proof.
  intros names i l p dt n j t cl cr dp parent pdepth label Hj. simpl.
  apply nth_error_None in Hj. rewrite Hj. reflexivity.
Qed.

End TreeWalks.

Section FitPolyParameters.

Context {num : Type} `{F : Float64 num} `{PL : PolyLib num}.
Variable self : PolyTree.

(** The loop of lines 163-171 builds [parameters_from]. *)
Lemma parameters_loop : forall X dims acc s,
    for_each dims
      (fun dimension myParameters =>
         bind (lift (py_min (column X dimension)))
              (fun values_min =>
                 bind (lift (py_max (column X dimension)))
                      (fun values_max =>
                         if neq values_min values_max
                         then ret (myParameters ++
                                   [mk_Parameter "Uniform"
                                      (nsub values_min lit_0_01)
                                      (nadd values_max lit_0_01)
                                      (order self)])
                         else ret (myParameters ++
                                   [mk_Parameter "Uniform" values_min
                                      values_max (order self)]))))
      acc s
    = lift (parameters_from self X dims acc) s.
Proof.
  intros X. induction dims as [|dm dims IH]; intros acc s; simpl;
    [reflexivity|].
  unfold bind at 1. unfold bind at 1. unfold lift at 1.
  unfold parameter_of.
  destruct (py_min (column X dm)) as [lo|e|]; simpl; try reflexivity.
  unfold bind at 1. unfold lift at 1.
  destruct (py_max (column X dm)) as [hi|e|]; simpl; try reflexivity.
  destruct (neq lo hi); unfold ret; simpl; apply IH.
Qed.

(** [_fit_poly] hands the parameters of the columns to the library and
    returns the mean of the squared residuals of its fit. *)
Lemma fit_value_parameters : forall X y,
    fit_value self X y
    = obind (parameters_of self X)
            (fun ps =>
               match Poly_set_model ps (basis self) X y with
               | Some p =>
                   let r := linalg_norm (vsub y (get_polyfit p (rows X))) in
                   Ok (ndiv (nmul r r) (of_int (Z.of_nat (len X))), p)
               | None => Raise FitFailure
               end).
Proof.
  intros X y. unfold fit_value, _fit_poly. unfold bind at 1.
  rewrite parameters_loop. unfold parameters_of.
  destruct (parameters_from self X (seq 0 (ncols X)) []) as [ps|e|]; simpl;
    try reflexivity.
  unfold bind, incr_index, lift, ret. simpl.
  destruct (Poly_set_model ps (basis self) X y); reflexivity.
Qed.

Lemma parameters_from_each : forall X dims acc ps,
    parameters_from self X dims acc = Ok ps ->
    exists ps', ps = acc ++ ps' /\
                Forall2 (fun dm p => parameter_of self X dm = Ok p) dims ps'.
Proof.
  intros X. induction dims as [|dm dims IH]; intros acc ps; simpl.
  - intros H. injection H as <-. exists []. rewrite app_nil_r.
    split; [reflexivity|constructor].
  - destruct (parameter_of self X dm) as [p|e|] eqn:Ep; simpl; try discriminate.
    intros H. destruct (IH _ _ H) as (ps' & -> & Hall).
    exists (p :: ps'). rewrite <- app_assoc. split; [reflexivity|].
    constructor; assumption.
Qed.

Lemma Forall2_seq_nth : forall A (P : nat -> A -> Prop) n s l,
    Forall2 P (seq s n) l ->
    length l = n /\
    forall j, (j < n)%nat -> exists a, nth_error l j = Some a /\ P (s + j)%nat a.
Proof.
  intros A P. induction n as [|n IH]; intros s l H; simpl in H.
  - inversion H; subst. split; [reflexivity|]. intros j Hj. lia.
  - inversion H as [|? a ? l' Hp Hrest]; subst.
    destruct (IH _ _ Hrest) as [Hlen Hnth]. split; [simpl; lia|].
    intros [|j] Hj.
    + exists a. rewrite Nat.add_0_r. auto.
    + destruct (Hnth j ltac:(lia)) as (a' & Hn & Hp').
      exists a'. simpl. split; [exact Hn|].
      replace (s + S j)%nat with (S s + j)%nat by lia. exact Hp'.
Qed.

Hypothesis Hord : StrictOrder_nlt num.

Lemma fold_min_least : forall (r : list num) x,
    let m := fold_left (fun m v => if nlt v m then v else m) r x in
    In m (x :: r) /\ (m = x \/ nlt m x = true) /\
    forall v, In v (x :: r) -> nlt v m = false.
Proof.
  induction r as [|v0 r IH]; intros x; simpl.
  - split; [now left|]. split; [now left|].
    intros v [<-|[]]. apply (nlt_irrefl Hord).
  - specialize (IH (if nlt v0 x then v0 else x)). simpl in IH.
    destruct IH as (Hin & Hle & Hall).
    set (m := fold_left (fun m v => if nlt v m then v else m) r
                        (if nlt v0 x then v0 else x)) in *.
    destruct (nlt v0 x) eqn:E.
    + split; [destruct Hin as [<-|Hin]; auto|].
      assert (Hmx : nlt m x = true).
      { destruct Hle as [->|Hlt]; [exact E|].
        exact (nlt_trans Hord _ _ _ Hlt E). }
      split; [now right|].
      intros v [Hv|[Hv|Hv]].
      * rewrite <- Hv. destruct (nlt x m) eqn:E'; [|reflexivity].
        pose proof (nlt_trans Hord _ _ _ Hmx E') as Hmm.
        rewrite (nlt_irrefl Hord) in Hmm. discriminate.
      * apply Hall. now left.
      * apply Hall. now right.
    + split; [destruct Hin as [<-|Hin]; auto|].
      split; [exact Hle|].
      intros v [Hv|[Hv|Hv]].
      * apply Hall. now left.
      * rewrite <- Hv. destruct (nlt v0 m) eqn:E'; [|reflexivity].
        destruct Hle as [Hm|Hlt]; [rewrite Hm in E'; congruence|].
        rewrite (nlt_trans Hord _ _ _ E' Hlt) in E. discriminate.
      * apply Hall. now right.
Qed.

Lemma fold_max_greatest : forall (r : list num) x,
    let m := fold_left (fun m v => if nlt m v then v else m) r x in
    In m (x :: r) /\ (m = x \/ nlt x m = true) /\
    forall v, In v (x :: r) -> nlt m v = false.
Proof.
  induction r as [|v0 r IH]; intros x; simpl.
  - split; [now left|]. split; [now left|].
    intros v [<-|[]]. apply (nlt_irrefl Hord).
  - specialize (IH (if nlt x v0 then v0 else x)). simpl in IH.
    destruct IH as (Hin & Hle & Hall).
    set (m := fold_left (fun m v => if nlt m v then v else m) r
                        (if nlt x v0 then v0 else x)) in *.
    destruct (nlt x v0) eqn:E.
    + split; [destruct Hin as [<-|Hin]; auto|].
      assert (Hxm : nlt x m = true).
      { destruct Hle as [->|Hlt]; [exact E|].
        exact (nlt_trans Hord _ _ _ E Hlt). }
      split; [now right|].
      intros v [Hv|[Hv|Hv]].
      * rewrite <- Hv. destruct (nlt m x) eqn:E'; [|reflexivity].
        pose proof (nlt_trans Hord _ _ _ E' Hxm) as Hmm.
        rewrite (nlt_irrefl Hord) in Hmm. discriminate.
      * apply Hall. now left.
      * apply Hall. now right.
    + split; [destruct Hin as [<-|Hin]; auto|].
      split; [exact Hle|].
      intros v [Hv|[Hv|Hv]].
      * apply Hall. now left.
      * rewrite <- Hv. destruct (nlt m v0) eqn:E'; [|reflexivity].
        destruct Hle as [Hm|Hlt]; [rewrite Hm in E'; congruence|].
        rewrite (nlt_trans Hord _ _ _ Hlt E') in E. discriminate.
      * apply Hall. now right.
Qed.

Lemma py_min_least : forall (l : list num) lo,
    py_min l = Ok lo -> In lo l /\ forall v, In v l -> nlt v lo = false.
Proof.
  intros [|x r] lo; simpl; [discriminate|]. intros H. injection H as <-.
  destruct (fold_min_least r x) as (Hin & _ & Hall). auto.
Qed.

Lemma py_max_greatest : forall (l : list num) hi,
    py_max l = Ok hi -> In hi l /\ forall v, In v l -> nlt hi v = false.
Proof.
  intros [|x r] hi; simpl; [discriminate|]. intros H. injection H as <-.
  destruct (fold_max_greatest r x) as (Hin & _ & Hall). auto.
Qed.

End FitPolyParameters.

Section Termination.

Context {num : Type} `{F : Float64 num} `{PL : PolyLib num}.
Variable self : PolyTree.

Lemma traverse_unfold : forall fuel nd,
    _split_traverse_node self (S fuel) nd
    = traverse_body self (_split_traverse_node self fuel) nd.
Proof. reflexivity. Qed.

(** Two ways of making the recursive calls that agree wherever the
    second comes to an end give the same body. *)
Lemma traverse_body_ext : forall (rec1 rec2 : node -> M node) nd s,
    (forall n st, rec2 n st <> OutOfFuel -> rec1 n st = rec2 n st) ->
    traverse_body self rec2 nd s <> OutOfFuel ->
    traverse_body self rec1 nd s = traverse_body self rec2 nd s.
Proof.
  intros rec1 rec2 nd s Hrec.
  unfold traverse_body, bind, lift, log_append, ret.
  destruct (_splitter self nd s) as [[res s1]|e|]; try reflexivity.
  destruct (negb (r_did_split res)); [reflexivity|].
  destruct (r_data res) as [[[Xl yl] [Xr yr]]|]; [|reflexivity].
  destruct (r_polys res) as [[pl pr]|]; [|reflexivity].
  destruct (_create_node self Xl yl (depth nd + 1) s1) as [[left s2]|e|];
    try reflexivity.
  destruct (_create_node self Xr yr (depth nd + 1) s2) as [[right s3]|e|];
    try reflexivity.
  match goal with
  | |- context [rec2 ?n ?st] =>
      pose proof (Hrec n st) as Hl; destruct (rec2 n st) as [[left' s4]|e|]
  end.
  - rewrite Hl by discriminate.
    match goal with
    | |- context [rec2 ?n ?st] =>
        pose proof (Hrec n st) as Hr; destruct (rec2 n st) as [[right' s5]|e|]
    end.
    + rewrite Hr by discriminate. reflexivity.
    + rewrite Hr by discriminate. reflexivity.
    + intros Hne. now elim Hne.
  - rewrite Hl by discriminate. reflexivity.
  - intros Hne. now elim Hne.
Qed.

(** One more level of recursion changes nothing once the recursion has
    come to an end. *)
Lemma traverse_fuel_step : forall fuel nd s,
    _split_traverse_node self fuel nd s <> OutOfFuel ->
    _split_traverse_node self (S fuel) nd s
    = _split_traverse_node self fuel nd s.
Proof.
  induction fuel as [|fuel IH]; intros nd s Hne; [now elim Hne|].
  rewrite (traverse_unfold (S fuel)). rewrite (traverse_unfold fuel) in *.
  apply traverse_body_ext; [exact IH|exact Hne].
Qed.

Lemma traverse_fuel_more : forall extra fuel nd s,
    _split_traverse_node self fuel nd s <> OutOfFuel ->
    _split_traverse_node self (extra + fuel) nd s
    = _split_traverse_node self fuel nd s.
Proof.
  induction extra as [|extra IH]; intros fuel nd s Hne; [reflexivity|].
  change (S extra + fuel)%nat with (S (extra + fuel)).
  rewrite traverse_fuel_step; [now apply IH|].
  rewrite IH by assumption. exact Hne.
Qed.

End Termination.

(* ================================================================== *)
(** * What a user of the tree can rely on *)

Section BuiltTreeFacts.

Context {num : Type} `{F : Float64 num} `{PL : PolyLib num}.

Lemma tree_edges_length : forall nd : node,
    (length (tree_edges nd) + 1 = length (nodes nd))%nat.
Proof.
  fix IH 1. intros [i l p d n j t [cl|] [cr|] dp]; simpl;
    rewrite ?length_app; simpl;
    try (pose proof (IH cl)); try (pose proof (IH cr)); lia.
Qed.

Lemma leaves_count : forall d (nd : node),
    well_formed d nd ->
    length (leaves nd)
    = S (length (filter (fun m => negb (is_leaf m)) (nodes nd))).
Proof.
  intros d. fix IH 1. intros [i l p dt n j t [cl|] [cr|] dp]; simpl;
    try contradiction.
  - intros (_ & _ & Hl & Hr). rewrite leaves_split.
    rewrite filter_app, !length_app. rewrite (IH cl Hl), (IH cr Hr).
    simpl. lia.
  - intros _. reflexivity.
Qed.

Lemma samples_at_least : forall (msl : Z) (l : list node),
    (forall m, In m l -> msl <= Z.of_nat (n_samples m)) ->
    msl * Z.of_nat (length l) <= Z.of_nat (list_sum (map n_samples l)).
Proof.
  intros msl. induction l as [|m l IH]; intros H; simpl length; simpl map;
    simpl list_sum.
  - lia.
  - assert (Hm : msl <= Z.of_nat (n_samples m)) by (apply H; now left).
    assert (Hl : msl * Z.of_nat (length l)
                 <= Z.of_nat (list_sum (map n_samples l)))
      by (apply IH; intros m' Hm'; apply H; now right).
    rewrite Nat2Z.inj_succ, Nat2Z.inj_add. lia.
Qed.

(** X1. The recursion of [_split_traverse_node] on a node nests at most
    [max_depth - depth + 1] calls: with that much fuel the construction
    comes to an end, more fuel gives the same outcome, and [fit] returns a
    tree or raises. *)
Theorem construction_terminates :
  forall (self : PolyTree) nd s fuel,
    (Z.to_nat (max_depth self - depth nd) < fuel)%nat ->
    _split_traverse_node self fuel nd s <> OutOfFuel /\
    _split_traverse_node self fuel nd s
    = _split_traverse_node self (S (Z.to_nat (max_depth self - depth nd))) nd s /\
    forall log0 X y, fit self log0 X y <> OutOfFuel.
Proof.
  intros self nd s fuel Hfuel. split; [now apply traverse_total|]. split.
  - replace fuel
      with ((fuel - S (Z.to_nat (max_depth self - depth nd)))
            + S (Z.to_nat (max_depth self - depth nd)))%nat by lia.
    apply traverse_fuel_more. apply traverse_total. lia.
  - apply fit_total.
Qed.

(** X2. Every node of a tree built by [fit] is either a leaf (no
    children, no feature, no threshold) that still holds its data, with as
    many rows as its sample count says, or a split node with both children
    one level further down, a feature that is a column of the training
    data, a threshold, and its data deleted; the root is at depth 0. *)
Theorem built_nodes_shape :
  forall (self : PolyTree) log0 X y root lg,
    fit self log0 X y = Ok (root, lg) ->
    depth root = 0 /\ n_samples root = len X /\
    forall m, In m (nodes root) ->
              leaf_shape (ncols X) m \/ split_shape (ncols X) m.
Proof.
  intros self log0 X y root lg Hfit.
  apply fit_Built in Hfit. destruct Hfit as (l & p & s' & _ & HB & _).
  destruct (Built_fields self _ _ _ _ HB) as (_ & _ & _ & Hn & Hd).
  split; [exact Hd|]. split; [exact Hn|].
  apply (Built_shape self _ _ _ _ HB); [apply fresh_created|].
  simpl. intros X' y' E. now injection E as <- <-.
Qed.

(** X3. The nodes of a built tree have pairwise different indices, and
    every index is odd: the counter that numbers the nodes is also moved
    by every call of [_fit_poly], so indices are not consecutive. *)
Theorem indices_unique_odd :
  forall (self : PolyTree) log0 X y root lg,
    fit self log0 X y = Ok (root, lg) ->
    NoDup (map index (nodes root)) /\
    forall m, In m (nodes root) -> Nat.Odd (index m).
Proof.
  intros self log0 X y root lg Hfit.
  apply fit_Built in Hfit. destruct Hfit as (l & p & s' & _ & HB & _).
  split.
  - apply (Built_unique self _ _ _ _ HB); [reflexivity|reflexivity|simpl; lia].
  - destruct (Built_counter self _ _ _ _ HB eq_refl eq_refl) as [_ Hodd].
    destruct (Built_fields self _ _ _ _ HB) as (Hi & _). simpl in Hi.
    intros m Hm. rewrite nodes_descendants in Hm. destruct Hm as [<-|Hm].
    + rewrite Hi. exists 0%nat. reflexivity.
    + apply Hodd; [exists 1%nat; reflexivity|exact Hm].
Qed.

(** X4. The leaves of a built tree share out the training samples: their
    sample counts add up to the number of rows, every node below the root
    has at least [min_samples_leaf] rows, and with one output per row the
    samples the nodes keep are the training samples, each once. *)
Theorem leaves_share_samples :
  forall (self : PolyTree) log0 X y root lg,
    fit self log0 X y = Ok (root, lg) ->
    list_sum (map n_samples (leaves root)) = len X /\
    (forall m, In m (descendants root) ->
               min_samples_leaf self <= Z.of_nat (n_samples m)) /\
    (length y = len X ->
     Permutation (combine (rows X) y) (flat_map kept_samples (nodes root))).
Proof.
  intros self log0 X y root lg Hfit.
  apply fit_Built in Hfit. destruct Hfit as (l & p & s' & _ & HB & _).
  destruct (Built_leaf_samples self _ _ _ _ HB (fresh_created _ _ _ _ _ _))
    as [Hsum Hmin].
  split; [exact Hsum|]. split; [exact Hmin|].
  intros Hy.
  exact (Built_kept_samples self _ _ _ _ HB (fresh_created _ _ _ _ _ _)
                            X y eq_refl Hy).
Qed.

(** X5. On training data whose rows all have [ncols] entries, every row a
    leaf of the built tree keeps is routed by the predictor to that very
    leaf, so [_predict] evaluates on it the polynomial of the leaf that
    was fitted on it. *)
Theorem training_rows_route_home :
  forall (self : PolyTree) log0 X y root lg,
    fit self log0 X y = Ok (root, lg) ->
    (forall r, In r (rows X) -> length r = ncols X) ->
    forall m Xm ym r,
      In m (nodes root) -> data m = Some (Xm, ym) -> In r (rows Xm) ->
      route root r = Some m /\
      _predict root r = eval_poly (poly m) r.
Proof.
  intros self log0 X y root lg Hfit Hrect m Xm ym r Hm Hdm Hr.
  apply fit_Built in Hfit. destruct Hfit as (l & p & s' & _ & HB & _).
  assert (Hroute : route root r = Some m).
  { eapply (Built_route self _ _ _ _ HB (fresh_created _ _ _ _ _ _) X y eq_refl);
      eauto. }
  split; [exact Hroute|].
  apply route_predict in Hroute. tauto.
Qed.

(** X6. The loss and the polynomial stored in the root, and in every node
    of the built tree that still holds data, are what [_fit_poly] returns
    on that data: the polynomials taken over from the split search are the
    fits of the rows the leaf keeps. *)
Theorem kept_data_refit :
  forall (self : PolyTree) log0 X y root lg,
    fit self log0 X y = Ok (root, lg) ->
    fit_value self X y = Ok (loss root, poly root) /\
    forall m Xm ym,
      In m (nodes root) -> data m = Some (Xm, ym) ->
      fit_value self Xm ym = Ok (loss m, poly m).
Proof.
  intros self log0 X y root lg Hfit.
  apply fit_Built in Hfit. destruct Hfit as (l & p & s' & Hv & HB & _).
  destruct (Built_fields self _ _ _ _ HB) as (_ & Hl & Hp & _).
  simpl in Hl, Hp. split; [now rewrite Hl, Hp|].
  apply (Built_fit self _ _ _ _ HB); [reflexivity|reflexivity|].
  simpl. intros X' y' E. injection E as <- <-. exact Hv.
Qed.

(** X7. [fit] only appends to the log.  The entries [DOWN] and [UP] it
    appends are the walk of the construction through the finished tree,
    and they are written whether [logging] is on or off; with [logging]
    off nothing else is written. *)
Theorem log_is_walk :
  forall (self : PolyTree) log0 X y root lg,
    fit self log0 X y = Ok (root, lg) ->
    exists evs,
      lg = log0 ++ evs /\
      filter is_traversal evs = traversal root /\
      (logging self = false -> evs = traversal root).
Proof.
  intros self log0 X y root lg Hfit.
  apply fit_Built in Hfit. destruct Hfit as (l & p & s' & _ & HB & ->).
  destruct (Built_walk self _ _ _ _ HB eq_refl eq_refl) as (evs & Hlog & Hw).
  exists evs. split; [exact Hlog|exact Hw].
Qed.

(** X8. [get_polys] returns the polynomials of the leaves from left to
    right, and fails with a [TypeError] before a tree is built.  The
    polynomial [_predict] evaluates is always one of them, and on a built
    tree there is one more of them than there are split nodes. *)
Theorem get_polys_leaves :
  (forall root : node, get_polys (Some root) = Ok (map poly (leaves root)))
  /\
  get_polys None = Raise TypeError
  /\
  (forall (root : node) x leaf,
      route root x = Some leaf ->
      exists polys, get_polys (Some root) = Ok polys /\ In (poly leaf) polys)
  /\
  (forall (self : PolyTree) log0 X y root lg,
      fit self log0 X y = Ok (root, lg) ->
      exists polys,
        get_polys (Some root) = Ok polys /\
        length polys
        = S (length (filter (fun m => negb (is_leaf m)) (nodes root)))).
Proof.
  assert (Hget : forall root : node,
             get_polys (Some root) = Ok (map poly (leaves root))).
  { intros root. unfold get_polys. now rewrite search_tree_leaves. }
  split; [exact Hget|]. split; [reflexivity|]. split.
  - intros root x leaf Hr. eexists. split; [apply Hget|].
    apply in_map. eapply route_in_leaves; eauto.
  - intros self log0 X y root lg Hfit.
    apply fit_Built in Hfit. destruct Hfit as (l & p & s' & _ & HB & _).
    eexists. split; [apply Hget|]. rewrite length_map.
    apply (leaves_count (ncols X)).
    eapply Built_well_formed; [exact HB|apply fresh_created|].
    simpl. intros X' y' E. now injection E as <- <-.
Qed.

(** X13. A built tree has at most [2^(max_depth+1) - 1] nodes, and when
    the root was split the number of leaves times [min_samples_leaf] is at
    most the number of training rows. *)
Theorem tree_size_bound :
  forall (self : PolyTree) log0 X y root lg,
    fit self log0 X y = Ok (root, lg) ->
    (length (nodes root) + 1 <= 2 ^ S (Z.to_nat (max_depth self)))%nat /\
    (is_leaf root = false ->
     min_samples_leaf self * Z.of_nat (length (leaves root))
     <= Z.of_nat (len X)).
Proof.
  intros self log0 X y root lg Hfit.
  apply fit_Built in Hfit. destruct Hfit as (l & p & s' & _ & HB & _).
  split.
  - pose proof (Built_size self _ _ _ _ HB eq_refl eq_refl) as H.
    simpl depth in H. now rewrite Z.sub_0_r in H.
  - intros Hroot.
    destruct (Built_leaf_samples self _ _ _ _ HB (fresh_created _ _ _ _ _ _))
      as [Hsum Hmin].
    simpl in Hsum. rewrite <- Hsum. apply samples_at_least.
    intros m Hm. apply Hmin. unfold leaves in Hm. apply filter_In in Hm.
    destruct Hm as [Hm Hleaf]. rewrite nodes_descendants in Hm.
    destruct Hm as [<-|Hm]; [congruence|exact Hm].
Qed.


(** [_fit_poly] on data without rows takes the minimum of an empty
    list. *)
Lemma fit_value_empty : forall (self : PolyTree) X y,
    len X = 0%nat -> (0 < ncols X)%nat ->
    fit_value self X y = Raise ValueError.
Proof.
  intros self X y Hlen Hcols.
  rewrite fit_value_parameters. unfold parameters_of.
  destruct (ncols X) as [|k]; [lia|]. simpl seq. simpl parameters_from.
  unfold parameter_of at 1.
  assert (Hc : column X 0 = []).
  { apply length_zero_iff_nil. now rewrite column_length. }
  rewrite Hc. reflexivity.
Qed.

(** [fit] when the search at the root finds no split, and when it
    raises. *)
Lemma fit_root_leaf : forall (self : PolyTree) log0 X y l p,
    fit_value self X y = Ok (l, p) ->
    _splitter self (mk_node 1 l p (Some (X, y)) (len X) None None None None 0)
              (mk_state 2 log0)
    = Ok (mk_result false l None None None None (len X), mk_state 2 log0) ->
    fit self log0 X y
    = Ok (mk_node 1 l p (Some (X, y)) (len X) None None None None 0,
          log0 ++ [UP]).
Proof.
  intros self log0 X y l p Hv Hs.
  unfold fit, _build_tree. unfold bind at 1. rewrite create_node_eq, Hv.
  cbn [index_node_global log]. simpl _split_traverse_node.
  unfold bind at 1. rewrite Hs. reflexivity.
Qed.

Lemma fit_root_raises : forall (self : PolyTree) log0 X y l p e,
    fit_value self X y = Ok (l, p) ->
    _splitter self (mk_node 1 l p (Some (X, y)) (len X) None None None None 0)
              (mk_state 2 log0)
    = Raise e ->
    fit self log0 X y = Raise e.
Proof.
  intros self log0 X y l p e Hv Hs.
  unfold fit, _build_tree. unfold bind at 1. rewrite create_node_eq, Hv.
  cbn [index_node_global log]. simpl _split_traverse_node.
  unfold bind at 1. rewrite Hs. reflexivity.
Qed.

(** The split search of a node whose depth gate is closed, or whose data
    has no column, returns "no split" and leaves the state as it is. *)
Lemma splitter_not_searched : forall (self : PolyTree) nd X y s,
    data nd = Some (X, y) ->
    (depth nd >=? 0) && (depth nd <? max_depth self) = false \/ ncols X = 0%nat ->
    _splitter self nd s
    = Ok (mk_result false (loss nd) None None None None (len X), s).
Proof.
  intros self nd X y s Hd Hgate. unfold _splitter. rewrite Hd.
  unfold bind at 1. unfold lift at 1.
  destruct Hgate as [Hgate|Hcols].
  - rewrite Hgate. reflexivity.
  - rewrite Hcols. destruct ((depth nd >=? 0) && (depth nd <? max_depth self));
      reflexivity.
Qed.

(** With a search strategy the code does not know, the first feature of an
    open search raises. *)
Lemma splitter_unknown_search : forall (self : PolyTree) nd X y s,
    String.eqb (search self) "exhaustive" = false ->
    String.eqb (search self) "uniform" = false ->
    data nd = Some (X, y) ->
    (depth nd >=? 0) && (depth nd <? max_depth self) = true ->
    (0 < ncols X)%nat ->
    _splitter self nd s = Raise SearchTypeError.
Proof.
  intros self nd X y s He Hu Hd Hgate Hcols. unfold _splitter. rewrite Hd.
  unfold bind at 1. unfold lift at 1. rewrite Hgate.
  destruct (ncols X) as [|k]; [lia|]. simpl seq. simpl for_each.
  unfold bind at 1. unfold bind at 1. unfold try_feature at 1.
  unfold bind at 1. unfold lift at 1. unfold threshold_search.
  rewrite He, Hu. reflexivity.
Qed.

(** X9. [fit] on data without rows raises a [ValueError] when the data has
    a column: [_fit_poly] takes the minimum of an empty list. *)
Theorem fit_empty_input :
  forall (self : PolyTree) log0 X y,
    len X = 0%nat -> (0 < ncols X)%nat ->
    fit self log0 X y = Raise ValueError.
Proof.
  intros self log0 X y Hlen Hcols.
  pose proof (fit_value_empty self X y Hlen Hcols) as Hv.
  unfold fit, _build_tree. unfold bind at 1. rewrite create_node_eq, Hv.
  reflexivity.
Qed.

(** X10. The search strategy is only looked at when a split search runs:
    with a strategy other than ['exhaustive'] and ['uniform'], [fit]
    raises as soon as the root is searched, and returns the root as a
    single leaf when [max_depth] is not positive or the data has no
    column. *)
Theorem unknown_search_lazy :
  forall (self : PolyTree) log0 X y l p,
    String.eqb (search self) "exhaustive" = false ->
    String.eqb (search self) "uniform" = false ->
    fit_value self X y = Ok (l, p) ->
    (0 < max_depth self -> (0 < ncols X)%nat ->
     fit self log0 X y = Raise SearchTypeError) /\
    (max_depth self <= 0 \/ ncols X = 0%nat ->
     fit self log0 X y
     = Ok (mk_node 1 l p (Some (X, y)) (len X) None None None None 0,
           log0 ++ [UP])).
Proof.
  intros self log0 X y l p He Hu Hv. split.
  - intros Hdepth Hcols.
    unfold fit, _build_tree. unfold bind at 1. rewrite create_node_eq, Hv.
    cbn [index_node_global log]. simpl _split_traverse_node.
    unfold bind at 1.
    rewrite (splitter_unknown_search self _ X y); auto.
    simpl depth. apply andb_true_iff. split; [reflexivity|].
    apply Z.ltb_lt. exact Hdepth.
  - intros Hclosed.
    unfold fit, _build_tree. unfold bind at 1. rewrite create_node_eq, Hv.
    cbn [index_node_global log]. simpl _split_traverse_node.
    unfold bind at 1.
    rewrite (splitter_not_searched self _ X y); [reflexivity|reflexivity|].
    destruct Hclosed as [Hd|Hc]; [left|now right].
    simpl depth. apply andb_false_iff. right. apply Z.ltb_ge. exact Hd.
Qed.

(** X11. What [_fit_poly] hands to the polynomial library: one uniform
    parameter per column, of the order of the tree, from the least to the
    greatest entry of the column, widened by 0.01 on both sides when the
    two are equal; the loss it returns is the mean of the squared
    residuals of the fit. *)
Theorem fit_poly_parameters :
  forall (self : PolyTree) X y mse poly,
    StrictOrder_nlt num ->
    fit_value self X y = Ok (mse, poly) ->
    exists ps,
      parameters_of self X = Ok ps /\
      Poly_set_model ps (basis self) X y = Some poly /\
      mse = (let r := linalg_norm (vsub y (get_polyfit poly (rows X))) in
             ndiv (nmul r r) (of_int (Z.of_nat (len X)))) /\
      length ps = ncols X /\
      forall j, (j < ncols X)%nat ->
        exists q lo hi,
          nth_error ps j = Some q /\
          distribution q = "Uniform"%string /\
          parameter_order q = order self /\
          py_min (column X j) = Ok lo /\ py_max (column X j) = Ok hi /\
          In lo (column X j) /\ In hi (column X j) /\
          (forall x, In x (column X j) ->
                     nlt x lo = false /\ nlt hi x = false) /\
          (if neq lo hi
           then lower q = nsub lo lit_0_01 /\ upper q = nadd hi lit_0_01
           else lower q = lo /\ upper q = hi).
Proof.
  intros self X y mse poly Hord Hv.
  rewrite fit_value_parameters in Hv.
  destruct (parameters_of self X) as [ps|e|] eqn:Eps; simpl in Hv;
    try discriminate.
  destruct (Poly_set_model ps (basis self) X y) as [p'|] eqn:Em;
    try discriminate.
  injection Hv as Hmse Hp. subst p'.
  exists ps. split; [reflexivity|]. split; [exact Em|].
  split; [now rewrite <- Hmse|].
  unfold parameters_of in Eps.
  destruct (parameters_from_each self _ _ _ _ Eps) as (ps' & Hps & Hall).
  simpl in Hps. subst ps'.
  destruct (Forall2_seq_nth _ _ _ _ _ Hall) as [Hlen Hnth].
  split; [exact Hlen|].
  intros j Hj. destruct (Hnth j Hj) as (q & Hq & Hpar). simpl in Hpar.
  unfold parameter_of in Hpar.
  destruct (py_min (column X j)) as [lo|e|] eqn:Elo; simpl in Hpar;
    try discriminate.
  destruct (py_max (column X j)) as [hi|e|] eqn:Ehi; simpl in Hpar;
    try discriminate.
  destruct (py_min_least Hord _ _ Elo) as [Hlo_in Hlo].
  destruct (py_max_greatest Hord _ _ Ehi) as [Hhi_in Hhi].
  exists q, lo, hi. split; [exact Hq|].
  assert (Hfields :
            distribution q = "Uniform"%string /\
            parameter_order q = order self /\
            (if neq lo hi
             then lower q = nsub lo lit_0_01 /\ upper q = nadd hi lit_0_01
             else lower q = lo /\ upper q = hi)).
  { destruct (neq lo hi); injection Hpar as <-; simpl; auto. }
  destruct Hfields as (Hdist & Hord' & Hbounds).
  repeat split; auto.
Qed.

(** X12. [get_graphviz] on a built tree, given a name for every column of
    the training data, adds one graph node per tree node, each once, and
    one edge from every split node to each of its children, so one edge
    less than nodes; the root, called with parent depth 0, gets no edge.
    Before a tree is built it adds nothing, and a split on a feature
    without a name raises an [IndexError]. *)
Theorem get_graphviz_graph :
  (forall names : list string, get_graphviz None names = Ok [])
  /\
  (forall (self : PolyTree) log0 X y root lg names,
      fit self log0 X y = Ok (root, lg) ->
      (ncols X <= length names)%nat ->
      exists calls,
        get_graphviz (Some root) names = Ok calls /\
        added_nodes calls = map index (nodes root) /\
        NoDup (added_nodes calls) /\
        added_edges calls = tree_edges root /\
        (length (added_edges calls) + 1 = length (added_nodes calls))%nat)
  /\
  (forall names i l p dt n j t (cl cr : node) dp,
      (length names <= j)%nat ->
      get_graphviz (Some (mk_node i l p dt n (Some j) t (Some cl) (Some cr) dp))
                   names
      = Raise IndexError).
Proof.
  split; [reflexivity|]. split.
  - intros self log0 X y root lg names Hfit Hn.
    apply fit_Built in Hfit. destruct Hfit as (l & p & s' & _ & HB & _).
    assert (Hwf : well_formed (ncols X) root).
    { eapply Built_well_formed; [exact HB|apply fresh_created|].
      simpl. intros X' y' E. now injection E as <- <-. }
    destruct (build_graphviz_calls (ncols X) names root 0%nat 0%nat ""%string
                                   Hwf Hn) as (calls & Hc & Hnodes & Hedges).
    exists calls. split; [exact Hc|]. split; [exact Hnodes|].
    simpl in Hedges. split.
    + rewrite Hnodes.
      apply (Built_unique self _ _ _ _ HB);
        [reflexivity|reflexivity|simpl; lia].
    + split; [exact Hedges|].
      rewrite Hedges, Hnodes, length_map. apply tree_edges_length.
  - intros names i l p dt n j t cl cr dp Hj. unfold get_graphviz.
    now apply build_graphviz_unnamed.
Qed.

(** X14. When the polynomial library returns a value for every point it
    is asked, [predict] on a built tree returns one value for every row
    that has at least as many entries as the training data has columns,
    and that value is the polynomial of the leaf the row is routed to. *)
Theorem predict_after_fit :
  forall (self : PolyTree) log0 X y root lg Xs,
    (forall (p : Poly) x, get_polyfit p [x] <> []) ->
    fit self log0 X y = Ok (root, lg) ->
    (forall x, In x Xs -> (ncols X <= length x)%nat) ->
    exists ys,
      predict (Some root) Xs = Ok ys /\
      length ys = length Xs /\
      forall i x, nth_error Xs i = Some x ->
                  exists leaf v,
                    route root x = Some leaf /\ In leaf (leaves root) /\
                    nth_error ys i = Some v /\
                    eval_poly (poly leaf) x = Ok v.
Proof.
  intros self log0 X y root lg Xs Hlib Hfit Hrows.
  apply fit_Built in Hfit. destruct Hfit as (l & p & s' & _ & HB & _).
  assert (Hwf : well_formed (ncols X) root).
  { eapply Built_well_formed; [exact HB|apply fresh_created|].
    simpl. intros X' y' E. now injection E as <- <-. }
  assert (Hroute : forall x, In x Xs ->
             exists leaf, route root x = Some leaf).
  { intros x Hx. apply (route_total (ncols X)); auto. }
  assert (Heval : forall (q : Poly) x, exists v, eval_poly q x = Ok v).
  { intros q x. unfold eval_poly. specialize (Hlib q x).
    destruct (get_polyfit q [x]) as [|v r]; [congruence|]. now exists v. }
  destruct (comprehension_all _ _ (_predict root) Xs) as [ys Hys].
  { intros x Hx. destruct (Hroute x Hx) as [leaf Hleaf].
    apply route_predict in Hleaf. destruct Hleaf as (_ & _ & ->).
    apply Heval. }
  exists ys. split; [exact Hys|].
  destruct (comprehension_Ok _ _ _ _ _ Hys) as [Hlen Hnth].
  split; [exact Hlen|].
  intros i x Hx. destruct (Hnth i x Hx) as (v & Hv & Hpred).
  destruct (Hroute x (nth_error_In _ _ Hx)) as [leaf Hleaf].
  exists leaf, v. split; [exact Hleaf|].
  split; [eapply route_in_leaves; eauto|]. split; [exact Hv|].
  apply route_predict in Hleaf. destruct Hleaf as (_ & _ & <-). exact Hpred.
Qed.

End BuiltTreeFacts.

(* ================================================================== *)
(** * The search strategies at their edges *)

Section SearchEdges.

Context {num : Type} `{F : Float64 num} `{PL : PolyLib num}.

(** The candidates of the exhaustive search: the sorted columns. *)
Lemma candidates_of_exhaustive : forall (self : PolyTree) X js,
    String.eqb (search self) "exhaustive" = true ->
    (forall j, In j js -> (j < ncols X)%nat) ->
    candidates_of self X js
    = Ok (flat_map (fun j => map (pair j) (np_sort (column X j))) js).
Proof.
  intros self X js He. induction js as [|j js IH]; intros Hjs;
    [reflexivity|].
  simpl. unfold threshold_search at 1. rewrite He. unfold slice_col.
  assert (Hj : (j <? ncols X)%nat = true)
    by (apply Nat.ltb_lt, Hjs; now left).
  rewrite Hj. simpl. rewrite IH by (intros j' Hj'; apply Hjs; now right).
  reflexivity.
Qed.

Lemma candidates_exhaustive : forall (self : PolyTree) X,
    String.eqb (search self) "exhaustive" = true ->
    candidates self X
    = Ok (flat_map (fun j => map (pair j) (np_sort (column X j)))
                   (seq 0 (ncols X))).
Proof.
  intros self X He. apply candidates_of_exhaustive; [exact He|].
  intros j Hj. apply in_seq in Hj. lia.
Qed.

Lemma candidate_exhaustive_row : forall (self : PolyTree) X cs c,
    String.eqb (search self) "exhaustive" = true ->
    candidates self X = Ok cs -> In c cs ->
    exists r, In r (rows X) /\ nth (fst c) r (of_int 0) = snd c.
Proof.
  intros self X cs c He Hcs Hc.
  rewrite (candidates_exhaustive self X He) in Hcs. injection Hcs as <-.
  apply in_flat_map in Hc. destruct Hc as (j & _ & Hc).
  apply in_map_iff in Hc. destruct Hc as (t & <- & Ht). simpl.
  apply (Permutation_in _ (Permutation_sym (np_sort_perm (column X j)))) in Ht.
  unfold column in Ht. apply in_map_iff in Ht.
  destruct Ht as (r & Hr & Hin). exists r. auto.
Qed.

(** In a tree of the exhaustive search every threshold is an entry of the
    data of the node it splits. *)
Lemma Built_thresholds : forall (self : PolyTree) nd s nd' s',
    Built self nd s nd' s' ->
    String.eqb (search self) "exhaustive" = true ->
    fresh nd ->
    forall X y, data nd = Some (X, y) ->
    forall m j t,
      In m (nodes nd') -> j_feature m = Some j -> threshold m = Some t ->
      exists r, In r (rows X) /\ nth j r (of_int 0) = t.
Proof.
  intros self nd s nd' s' H He.
  induction H as [nd s res s1 Hs Hd
                 |nd s res s1 Xl yl Xr yr pl pr left s2 right s3 left' s4
                     right' s5 Hs Hd Hdata Hpolys Hl Hr HBl IHl HBr IHr];
    intros (Hj & Ht & Hcl & Hcr & X0 & y0 & HX0 & Hn) X y HX m j t Hm Hmj Hmt.
  - rewrite (nodes_leaf nd Hcl Hcr) in Hm. destruct Hm as [Hm|[]].
    rewrite <- Hm in Hmj. congruence.
  - destruct (split_step self _ _ _ _ _ _ _ _ _ _ _ _ _ _ Hs Hd Hdata Hpolys Hl Hr)
      as (X' & y' & cs & c & ll & lr & HX' & _ & Hcs & Hc & Hsd & _ & _ & _ & _
          & -> & _ & -> & -> & -> & ->).
    rewrite HX in HX'. injection HX' as <- <-.
    pose proof (split_data_Ok _ _ _ _ _ _ _ _ Hsd) as (_ & HXl & HXr).
    simpl in Hm. destruct Hm as [Hm|Hm].
    + rewrite <- Hm in Hmj, Hmt. simpl in Hmj, Hmt.
      injection Hmj as <-. injection Hmt as <-.
      eapply candidate_exhaustive_row; eauto.
    + apply in_app_or in Hm. destruct Hm as [Hm|Hm].
      * destruct (IHl (fresh_created _ _ _ _ _ _) Xl yl eq_refl m j t
                      Hm Hmj Hmt) as (r & Hr' & Hnth).
        exists r. split; [|exact Hnth].
        rewrite HXl in Hr'. simpl in Hr'. apply filter_In in Hr'. tauto.
      * destruct (IHr (fresh_created _ _ _ _ _ _) Xr yr eq_refl m j t
                      Hm Hmj Hmt) as (r & Hr' & Hnth).
        exists r. split; [|exact Hnth].
        rewrite HXr in Hr'. simpl in Hr'. apply filter_In in Hr'. tauto.
Qed.

(** The uniform search on a node with rows: what [threshold_search]
    hands to the loop when the sample count is not positive. *)
Lemma threshold_search_uniform : forall (self : PolyTree) X j,
    String.eqb (search self) "uniform" = true ->
    samples self <= 0 ->
    (j < ncols X)%nat -> (0 < len X)%nat ->
    threshold_search self X j
    = if samples self <? 0 then Raise ValueError else Ok [].
Proof.
  intros self X j Hu Hs Hj HN. unfold threshold_search.
  assert (He : String.eqb (search self) "exhaustive" = false).
  { apply String.eqb_eq in Hu. rewrite Hu. reflexivity. }
  rewrite He, Hu. unfold slice_col.
  apply Nat.ltb_lt in Hj. rewrite Hj. simpl.
  assert (Hne : column X j <> []).
  { intros E. pose proof (column_length X j) as Hl. rewrite E in Hl.
    simpl in Hl. lia. }
  destruct (np_min_Ok _ Hne) as [lo ->]. destruct (np_max_Ok _ Hne) as [hi ->].
  simpl.
  assert (Hsm : (if samples self >? Z.of_nat (length (column X j))
                 then Z.of_nat (length (column X j)) else samples self)
                = samples self).
  { destruct (Z.gtb_spec (samples self) (Z.of_nat (length (column X j))));
      [lia|reflexivity]. }
  rewrite Hsm. unfold np_linspace.
  destruct (Z.ltb_spec (samples self) 0) as [Hneg|Hpos]; [reflexivity|].
  assert (H0 : samples self = 0) by lia. rewrite H0. reflexivity.
Qed.

(** X15. With [min_samples_leaf] at zero or below, the exhaustive search
    tries the largest entry of the first column as a threshold; no row is
    right of it, the empty right side passes the size test, and its fit
    raises a [ValueError].  So when the first column has a largest entry,
    as every column without NaN has, [fit] never returns a tree once the
    root is searched. *)
Theorem no_minimum_leaf_size_raises :
  forall (self : PolyTree) log0 X y t,
    search self = "exhaustive"%string ->
    min_samples_leaf self <= 0 ->
    0 < max_depth self -> (0 < ncols X)%nat -> length y = len X ->
    In t (column X 0) ->
    (forall v, In v (column X 0) -> nle v t = true) ->
    (exists e, fit self log0 X y = Raise e) /\
    exists cs X_left y_left X_right y_right,
      candidates self X = Ok cs /\ In (0%nat, t) cs /\
      _split_data 0 t X y = Ok ((X_left, y_left), (X_right, y_right)) /\
      len X_right = 0%nat /\
      feasible self (len X_left) (len X_right) = true /\
      fit_value self X_right y_right = Raise ValueError.
Proof.
  intros self log0 X y t Hsearch Hmsl Hdepth Hcols Hy Ht Hmax.
  assert (He : String.eqb (search self) "exhaustive" = true)
    by (rewrite Hsearch; reflexivity).
  assert (Hcand : exists cs X_left y_left X_right y_right,
             candidates self X = Ok cs /\ In (0%nat, t) cs /\
             _split_data 0 t X y
             = Ok ((X_left, y_left), (X_right, y_right)) /\
             len X_right = 0%nat /\
             feasible self (len X_left) (len X_right) = true /\
             fit_value self X_right y_right = Raise ValueError).
  { pose proof (split_data_eq 0 t X y Hcols Hy) as Hsd.
    assert (Hright : filter (fun r => negb (goes_left 0 t r)) (rows X) = []).
    { apply filter_none. intros r Hr. unfold goes_left.
      rewrite Hmax; [reflexivity|]. unfold column. apply in_map_iff. eauto. }
    rewrite Hright in Hsd.
    eexists. eexists. eexists. eexists. eexists.
    split; [apply candidates_exhaustive; exact He|].
    split.
    { apply in_flat_map. exists 0%nat. split; [apply in_seq; lia|].
      apply in_map.
      eapply Permutation_in; [apply np_sort_perm|exact Ht]. }
    split; [exact Hsd|]. split; [reflexivity|]. split.
    - unfold feasible. apply andb_true_iff.
      split; rewrite Z.geb_leb; apply Z.leb_le; lia.
    - apply fit_value_empty; [reflexivity|exact Hcols]. }
  split; [|exact Hcand].
  pose proof (fit_value_no_fuel self X y) as Hnf.
  destruct (fit_value self X y) as [[l p]|e|] eqn:Hv; [| |congruence].
  - destruct Hcand
      as (cs & Xl & yl & Xr & yr & Hcs & Hin & Hsd & _ & Hfeas & Hfail).
    assert (Hev : exists e, eval_candidate self X y (len X) (0%nat, t) = Raise e).
    { unfold eval_candidate. cbn [fst snd]. rewrite Hsd. simpl.
      rewrite Hfeas. simpl.
      pose proof (fit_value_no_fuel self Xl yl) as Hnl.
      destruct (fit_value self Xl yl) as [[ll pl]|el|]; simpl;
        [|eauto|congruence].
      rewrite Hfail. simpl. eauto. }
    destruct Hev as [e Hev].
    destruct (run_raises self X y (len X) cs
                (mk_best false l None None None None) _ e Hin Hev)
      as [e' Hrun].
    set (root := mk_node 1 l p (Some (X, y)) (len X) None None None None 0).
    assert (Hval : splitter_value self root = Raise e').
    { unfold splitter_value. simpl data. cbn iota. simpl obind at 1.
      unfold depth_gate. simpl depth.
      apply Z.ltb_lt in Hdepth. rewrite Hdepth. simpl andb. cbn iota.
      unfold candidates in Hcs.
      rewrite (run_features_flat self X y (len X) _ _ _ Hcs). simpl loss.
      rewrite Hrun. reflexivity. }
    pose proof (splitter_agrees self root (mk_state 2 log0)) as Ha.
    rewrite Hval in Ha. simpl in Ha.
    exists e'. eapply fit_root_raises; eauto.
  - exists e. unfold fit, _build_tree. unfold bind at 1.
    rewrite create_node_eq, Hv. reflexivity.
Qed.

(** X16. In a tree built with the exhaustive search, the threshold of
    every split node is the entry of the split feature in one of the
    training rows. *)
Theorem exhaustive_thresholds_from_data :
  forall (self : PolyTree) log0 X y root lg,
    search self = "exhaustive"%string ->
    fit self log0 X y = Ok (root, lg) ->
    forall m j t,
      In m (nodes root) -> j_feature m = Some j -> threshold m = Some t ->
      (j < ncols X)%nat /\
      exists r, In r (rows X) /\ nth j r (of_int 0) = t.
Proof.
  intros self log0 X y root lg Hsearch Hfit m j t Hm Hj Ht.
  assert (He : String.eqb (search self) "exhaustive" = true)
    by (rewrite Hsearch; reflexivity).
  apply fit_Built in Hfit. destruct Hfit as (l & p & s' & _ & HB & _).
  split.
  - assert (Hshape : leaf_shape (ncols X) m \/ split_shape (ncols X) m).
    { apply (Built_shape self _ _ _ _ HB); [apply fresh_created| |exact Hm].
      simpl. intros X' y' E. now injection E as <- <-. }
    destruct Hshape as [(_ & _ & Hnone & _)|(cl & cr & j' & t' & _ & _ & Hj' & Hlt & _)];
      congruence.
  - exact (Built_thresholds self _ _ _ _ HB He (fresh_created _ _ _ _ _ _)
                            X y eq_refl m j t Hm Hj Ht).
Qed.

(** X17. The uniform search with [samples = 0] has no threshold to try:
    [fit] returns the root as a single leaf.  With a negative [samples],
    [np.linspace] raises a [ValueError] as soon as the root is
    searched. *)
Theorem uniform_without_samples :
  forall (self : PolyTree) log0 X y l p,
    search self = "uniform"%string ->
    fit_value self X y = Ok (l, p) ->
    (samples self = 0 ->
     fit self log0 X y
     = Ok (mk_node 1 l p (Some (X, y)) (len X) None None None None 0,
           log0 ++ [UP])) /\
    (samples self < 0 -> 0 < max_depth self -> (0 < ncols X)%nat ->
     fit self log0 X y = Raise ValueError).
Proof.
  intros self log0 X y l p Hsearch Hv.
  assert (Hu : String.eqb (search self) "uniform" = true)
    by (rewrite Hsearch; reflexivity).
  split.
  - intros Hs. apply fit_root_leaf; [exact Hv|].
    unfold _splitter. simpl data. unfold bind at 1. unfold lift at 1.
    simpl depth. simpl loss.
    destruct ((0 >=? 0) && (0 <? max_depth self)); [|reflexivity].
    cbn beta iota. unfold bind at 1.
    rewrite for_each_unchanged; [reflexivity|].
    intros j Hj. apply in_seq in Hj.
    assert (HN : (0 < len X)%nat)
      by (eapply fit_value_nonempty; [exact Hv|lia]).
    unfold try_feature. unfold bind at 1. unfold lift at 1.
    rewrite (threshold_search_uniform self X j Hu); [|lia|lia|exact HN].
    rewrite Hs. reflexivity.
  - intros Hs Hdepth Hcols. eapply fit_root_raises; [exact Hv|].
    assert (HN : (0 < len X)%nat)
      by (eapply fit_value_nonempty; [exact Hv|exact Hcols]).
    unfold _splitter. simpl data. unfold bind at 1. unfold lift at 1.
    simpl depth. apply Z.ltb_lt in Hdepth. rewrite Hdepth.
    change ((0 >=? 0) && true) with true. cbn beta iota.
    assert (Hts : threshold_search self X 0 = Raise ValueError).
    { rewrite (threshold_search_uniform self X 0 Hu); [|lia|lia|exact HN].
      apply Z.ltb_lt in Hs. rewrite Hs. reflexivity. }
    destruct (ncols X) as [|k] eqn:Ek; [lia|]. simpl seq. simpl for_each.
    unfold bind at 1. unfold bind at 1. unfold try_feature at 1.
    unfold bind at 1. unfold lift at 1.
    rewrite Hts. reflexivity.
Qed.

(** X18. What a split search does besides returning its result: on a
    node whose data was deleted it raises a [KeyError]; otherwise the
    node counter grows by an even number, the log only grows, by entries
    of the search and never by [UP] or [DOWN], and by nothing when
    [logging] is off; the number [N] in the result is the number of rows
    of the node. *)
Theorem split_search_effects :
  forall (self : PolyTree) nd s,
    (data nd = None -> _splitter self nd s = Raise KeyError) /\
    (forall res s',
        _splitter self nd s = Ok (res, s') ->
        (exists X y, data nd = Some (X, y) /\ r_N res = len X) /\
        exists k evs,
          index_node_global s' = (index_node_global s + 2 * k)%nat /\
          log s' = log s ++ evs /\
          Forall (fun e => is_traversal e = false) evs /\
          (logging self = false -> evs = [])).
Proof.
  intros self nd s. split.
  - intros Hd. unfold _splitter. rewrite Hd. reflexivity.
  - intros res s' Hs. split.
    + destruct (splitter_Ok self _ _ _ _ Hs) as [Hval _].
      destruct (splitter_value_cases self _ _ Hval)
        as (X & y & HX & [[-> _]|(_ & cs & c & e & _ & _ & _ & ->)]);
        exists X, y; split; auto.
    + destruct (splitter_steps self _ _ _ _ Hs) as (k & evs & Hk & Hl & Hall & Hoff).
      exists k, evs. split; [exact Hk|]. split; [exact Hl|].
      split; [|exact Hoff].
      eapply Forall_impl; [|exact Hall].
      intros e He. unfold is_search in He. now apply negb_true_iff in He.
Qed.

End SearchEdges.

(* ================================================================== *)
(** * More sample runs *)

Import MoreExamples.

(** The root of the four points: seven levels of fuel do what three do. *)
Lemma construction_terminates_witness :
  (Z.to_nat (max_depth tree2 - depth root4) < 7)%nat /\
  @_split_traverse_node float F64.ops (F64.mean_fit 1) tree2 7 root4
                        (mk_state 2 [])
  = @_split_traverse_node float F64.ops (F64.mean_fit 1) tree2
      (S (Z.to_nat (max_depth tree2 - depth root4))) root4 (mk_state 2 []).
Proof.
  assert (H : (Z.to_nat (max_depth tree2 - depth root4) < 7)%nat)
    by (vm_compute; lia).
  split; [exact H|].
  exact (proj1 (proj2 (@construction_terminates
                         float F64.ops (F64.mean_fit 1) tree2 root4
                         (mk_state 2 []) 7%nat H))).
Defined.

(** The nodes of the tree on the four points are leaves with their data or
    split nodes without. *)
Lemma built_nodes_shape_witness :
  exists root lg,
    built4 = Ok (root, lg) /\
    depth root = 0 /\ n_samples root = len X4 /\
    forall m, In m (nodes root) ->
              leaf_shape (ncols X4) m \/ split_shape (ncols X4) m.
Proof.
  eexists. eexists. split; [vm_compute; reflexivity|].
  eapply (@built_nodes_shape float F64.ops (F64.mean_fit 1) tree2 [] X4 y4).
  vm_compute. reflexivity.
Defined.

(** The indices 1, 9, 15, 17 and 11 of the tree on the four points. *)
Lemma indices_unique_odd_witness :
  exists root lg,
    built4 = Ok (root, lg) /\
    map index (nodes root) = [1; 9; 15; 17; 11]%nat /\
    NoDup (map index (nodes root)) /\
    forall m, In m (nodes root) -> Nat.Odd (index m).
Proof.
  eexists. eexists. split; [vm_compute; reflexivity|].
  split; [vm_compute; reflexivity|].
  eapply (@indices_unique_odd float F64.ops (F64.mean_fit 1) tree2 [] X4 y4).
  vm_compute. reflexivity.
Defined.

(** The three leaves of the tree on the four points hold the four
    samples. *)
Lemma leaves_share_samples_witness :
  length y4 = len X4 /\
  exists root lg,
    built4 = Ok (root, lg) /\
    list_sum (map n_samples (leaves root)) = len X4 /\
    (forall m, In m (descendants root) ->
               min_samples_leaf tree2 <= Z.of_nat (n_samples m)) /\
    Permutation (combine (rows X4) y4) (flat_map kept_samples (nodes root)).
Proof.
  assert (Hy : length y4 = len X4) by reflexivity.
  split; [exact Hy|].
  eexists. eexists.
  match goal with
  | |- _ = Ok (?r, ?l) /\ _ =>
      assert (Hfit : @fit float F64.ops (F64.mean_fit 1) tree2 [] X4 y4
                     = Ok (r, l))
        by (vm_compute; reflexivity)
  end.
  split; [vm_compute; reflexivity|].
  destruct (@leaves_share_samples float F64.ops (F64.mean_fit 1) tree2
              [] X4 y4 _ _ Hfit) as (Hsum & Hmin & Hperm).
  split; [exact Hsum|]. split; [exact Hmin|exact (Hperm Hy)].
Defined.

(** Every row of the four points comes back to the leaf that keeps it. *)
Lemma training_rows_route_home_witness :
  (forall r, In r (rows X4) -> length r = ncols X4) /\
  exists root lg,
    built4 = Ok (root, lg) /\
    forall m Xm ym r,
      In m (nodes root) -> data m = Some (Xm, ym) -> In r (rows Xm) ->
      route root r = Some m /\
      _predict root r = eval_poly (poly m) r.
Proof.
  assert (Hrect : forall r, In r (rows X4) -> length r = ncols X4).
  { intros r Hr. simpl in Hr.
    destruct Hr as [<-|[<-|[<-|[<-|[]]]]]; reflexivity. }
  split; [exact Hrect|].
  eexists. eexists. split; [vm_compute; reflexivity|].
  eapply (@training_rows_route_home float F64.ops (F64.mean_fit 1) tree2
            [] X4 y4);
    [vm_compute; reflexivity|exact Hrect].
Defined.

(** The leaves of the tree on the four points carry the fits of their
    rows. *)
Lemma kept_data_refit_witness :
  exists root lg,
    built4 = Ok (root, lg) /\
    fit_value tree2 X4 y4 = Ok (loss root, poly root) /\
    forall m Xm ym,
      In m (nodes root) -> data m = Some (Xm, ym) ->
      fit_value tree2 Xm ym = Ok (loss m, poly m).
Proof.
  eexists. eexists. split; [vm_compute; reflexivity|].
  eapply (@kept_data_refit float F64.ops (F64.mean_fit 1) tree2 [] X4 y4).
  vm_compute. reflexivity.
Defined.

(** The log of the tree on the four points, built with [logging] off, is
    the walk through its five nodes. *)
Lemma log_is_walk_witness :
  exists root lg,
    built4 = Ok (root, lg) /\
    length lg = 9%nat /\
    exists evs,
      lg = [] ++ evs /\
      filter is_traversal evs = traversal root /\
      (logging tree2 = false -> evs = traversal root).
Proof.
  eexists. eexists. split; [vm_compute; reflexivity|].
  split; [vm_compute; reflexivity|].
  eapply (@log_is_walk float F64.ops (F64.mean_fit 1) tree2 [] X4 y4).
  vm_compute. reflexivity.
Defined.

(** The three polynomials of the tree on the four points, and the one
    that answers for the point 1.5. *)
Lemma get_polys_leaves_witness :
  exists root lg leaf,
    built4 = Ok (root, lg) /\
    route root [1.5%float] = Some leaf /\
    get_polys (Some root) = Ok (map poly (leaves root)) /\
    length (leaves root) = 3%nat /\
    exists polys, get_polys (Some root) = Ok polys /\ In (poly leaf) polys.
Proof.
  eexists. eexists. eexists.
  split; [vm_compute; reflexivity|].
  split; [vm_compute; reflexivity|].
  split; [apply (proj1 (@get_polys_leaves float F64.ops (F64.mean_fit 1)))|].
  split; [vm_compute; reflexivity|].
  eapply (proj1 (proj2 (proj2 (@get_polys_leaves
                                 float F64.ops (F64.mean_fit 1))))
                _ [1.5%float] _).
  vm_compute. reflexivity.
Defined.

(** No rows, one column. *)
Lemma fit_empty_input_witness :
  len X0 = 0%nat /\ (0 < ncols X0)%nat /\
  @fit float F64.ops (F64.mean_fit 1) tree2 [] X0 [] = Raise ValueError.
Proof.
  assert (Hl : len X0 = 0%nat) by reflexivity.
  assert (Hc : (0 < ncols X0)%nat) by (simpl; lia).
  split; [exact Hl|]. split; [exact Hc|].
  exact (@fit_empty_input float F64.ops (F64.mean_fit 1) tree2 [] X0 [] Hl Hc).
Defined.

(** The strategy ['random'] on the four points: an exception at depth two,
    a leaf at depth zero. *)
Lemma unknown_search_lazy_witness :
  String.eqb (search tree_random) "exhaustive" = false /\
  String.eqb (search tree_random) "uniform" = false /\
  @fit_value float F64.ops (F64.mean_fit 1) tree_random X4 y4
  = Ok (2403%float, 51%float) /\
  @fit float F64.ops (F64.mean_fit 1) tree_random [] X4 y4
  = Raise SearchTypeError /\
  @fit float F64.ops (F64.mean_fit 1) stump_random [] X4 y4
  = Ok (root4, [] ++ [UP]).
Proof.
  assert (He : String.eqb (search tree_random) "exhaustive" = false)
    by reflexivity.
  assert (Hu : String.eqb (search tree_random) "uniform" = false)
    by reflexivity.
  assert (Hv : @fit_value float F64.ops (F64.mean_fit 1) tree_random X4 y4
               = Ok (2403%float, 51%float))
    by (vm_compute; reflexivity).
  assert (Hv' : @fit_value float F64.ops (F64.mean_fit 1) stump_random X4 y4
                = Ok (2403%float, 51%float))
    by (vm_compute; reflexivity).
  split; [exact He|]. split; [exact Hu|]. split; [exact Hv|]. split.
  - apply (proj1 (@unknown_search_lazy float F64.ops (F64.mean_fit 1)
                    tree_random [] X4 y4 _ _ He Hu Hv)).
    + simpl. lia.
    + simpl. lia.
  - apply (proj2 (@unknown_search_lazy float F64.ops (F64.mean_fit 1)
                    stump_random [] X4 y4 _ _ eq_refl eq_refl Hv')).
    left. simpl. lia.
Defined.

(** The parameter of the column of the four points. *)
Lemma fit_poly_parameters_witness :
  @StrictOrder_nlt float F64.ops /\
  parameters_of tree2 X4 = Ok [mk_Parameter "Uniform" 0%float 3%float 1] /\
  exists mse poly,
    @fit_value float F64.ops (F64.mean_fit 1) tree2 X4 y4 = Ok (mse, poly) /\
    exists ps,
      parameters_of tree2 X4 = Ok ps /\
      Poly_set_model ps (basis tree2) X4 y4 = Some poly /\
      mse = (let r := linalg_norm (vsub y4 (get_polyfit poly (rows X4))) in
             ndiv (nmul r r) (of_int (Z.of_nat (len X4)))) /\
      length ps = ncols X4 /\
      forall j, (j < ncols X4)%nat ->
        exists q lo hi,
          nth_error ps j = Some q /\
          distribution q = "Uniform"%string /\
          parameter_order q = order tree2 /\
          py_min (column X4 j) = Ok lo /\ py_max (column X4 j) = Ok hi /\
          In lo (column X4 j) /\ In hi (column X4 j) /\
          (forall x, In x (column X4 j) ->
                     nlt x lo = false /\ nlt hi x = false) /\
          (if neq lo hi
           then lower q = nsub lo lit_0_01 /\ upper q = nadd hi lit_0_01
           else lower q = lo /\ upper q = hi).
Proof.
  split; [exact F64_strict_order|].
  split; [vm_compute; reflexivity|].
  eexists. eexists. split; [vm_compute; reflexivity|].
  eapply (@fit_poly_parameters float F64.ops (F64.mean_fit 1) tree2 X4 y4);
    [exact F64_strict_order|vm_compute; reflexivity].
Defined.

(** The graph of the tree on the four points: five nodes, four edges. *)
Lemma get_graphviz_graph_witness :
  (ncols X4 <= length ["x"%string])%nat /\
  exists root lg,
    built4 = Ok (root, lg) /\
    map index (nodes root) = [1; 9; 15; 17; 11]%nat /\
    tree_edges root = [(1, 9); (9, 15); (9, 17); (1, 11)]%nat /\
    exists calls,
      get_graphviz (Some root) ["x"%string] = Ok calls /\
      added_nodes calls = map index (nodes root) /\
      NoDup (added_nodes calls) /\
      added_edges calls = tree_edges root /\
      (length (added_edges calls) + 1 = length (added_nodes calls))%nat.
Proof.
  assert (Hn : (ncols X4 <= length ["x"%string])%nat) by (simpl; lia).
  split; [exact Hn|].
  eexists. eexists.
  split; [vm_compute; reflexivity|].
  split; [vm_compute; reflexivity|].
  split; [vm_compute; reflexivity|].
  eapply (proj1 (proj2 (@get_graphviz_graph float F64.ops (F64.mean_fit 1)))
                tree2 [] X4 y4);
    [vm_compute; reflexivity|exact Hn].
Defined.

(** The tree on the four points: five nodes for a depth of two, three
    leaves for four rows. *)
Lemma tree_size_bound_witness :
  exists root lg,
    built4 = Ok (root, lg) /\
    length (nodes root) = 5%nat /\
    (length (nodes root) + 1 <= 2 ^ S (Z.to_nat (max_depth tree2)))%nat /\
    (is_leaf root = false ->
     min_samples_leaf tree2 * Z.of_nat (length (leaves root))
     <= Z.of_nat (len X4)).
Proof.
  eexists. eexists. split; [vm_compute; reflexivity|].
  split; [vm_compute; reflexivity|].
  eapply (@tree_size_bound float F64.ops (F64.mean_fit 1) tree2 [] X4 y4).
  vm_compute. reflexivity.
Defined.

(** Two new points in the tree on the four points. *)
Lemma predict_after_fit_witness :
  (forall (p : @Poly float (F64.mean_fit 1)) (x : list float),
      get_polyfit p [x] <> []) /\
  (forall x, In x [[0.5%float]; [2.5%float]] -> (ncols X4 <= length x)%nat) /\
  exists root lg,
    built4 = Ok (root, lg) /\
    predict (Some root) [[0.5%float]; [2.5%float]] = Ok [4%float; 100%float] /\
    exists ys,
      predict (Some root) [[0.5%float]; [2.5%float]] = Ok ys /\
      length ys = length [[0.5%float]; [2.5%float]] /\
      forall i x, nth_error [[0.5%float]; [2.5%float]] i = Some x ->
                  exists leaf v,
                    route root x = Some leaf /\ In leaf (leaves root) /\
                    nth_error ys i = Some v /\
                    eval_poly (poly leaf) x = Ok v.
Proof.
  assert (Hlib : forall (p : @Poly float (F64.mean_fit 1)) (x : list float),
             get_polyfit p [x] <> [])
    by (intros p x; discriminate).
  assert (Hrows : forall x, In x [[0.5%float]; [2.5%float]] ->
                            (ncols X4 <= length x)%nat).
  { intros x [<-|[<-|[]]]; simpl; lia. }
  split; [exact Hlib|]. split; [exact Hrows|].
  eexists. eexists. split; [vm_compute; reflexivity|].
  split; [vm_compute; reflexivity|].
  eapply (@predict_after_fit float F64.ops (F64.mean_fit 1) tree2 [] X4 y4);
    [exact Hlib|vm_compute; reflexivity|exact Hrows].
Defined.

(** The four points with leaves of any size: the threshold 3 leaves no
    row on the right. *)
Lemma no_minimum_leaf_size_raises_witness :
  search tree_leaf0 = "exhaustive"%string /\
  min_samples_leaf tree_leaf0 <= 0 /\
  0 < max_depth tree_leaf0 /\ (0 < ncols X4)%nat /\ length y4 = len X4 /\
  In 3%float (column X4 0) /\
  (forall v, In v (column X4 0) -> @nle float F64.ops v 3%float = true) /\
  @fit float F64.ops (F64.mean_fit 1) tree_leaf0 [] X4 y4 = Raise ValueError /\
  exists e, @fit float F64.ops (F64.mean_fit 1) tree_leaf0 [] X4 y4 = Raise e.
Proof.
  assert (Hm : min_samples_leaf tree_leaf0 <= 0) by (simpl; lia).
  assert (Hd : 0 < max_depth tree_leaf0) by (simpl; lia).
  assert (Hc : (0 < ncols X4)%nat) by (simpl; lia).
  assert (Ht : In 3%float (column X4 0)) by (simpl; tauto).
  assert (Hmax : forall v, In v (column X4 0) ->
                           @nle float F64.ops v 3%float = true).
  { intros v Hv. simpl in Hv.
    destruct Hv as [<-|[<-|[<-|[<-|[]]]]]; reflexivity. }
  split; [reflexivity|].
  split; [exact Hm|]. split; [exact Hd|]. split; [exact Hc|].
  split; [reflexivity|]. split; [exact Ht|]. split; [exact Hmax|].
  split; [vm_compute; reflexivity|].
  exact (proj1 (@no_minimum_leaf_size_raises
                  float F64.ops (F64.mean_fit 1) tree_leaf0 [] X4 y4 3%float
                  eq_refl Hm Hd Hc eq_refl Ht Hmax)).
Defined.

(** The thresholds 1 and 0 of the tree on the four points are entries of
    its column. *)
Lemma exhaustive_thresholds_from_data_witness :
  search tree2 = "exhaustive"%string /\
  exists root lg,
    built4 = Ok (root, lg) /\
    forall m j t,
      In m (nodes root) -> j_feature m = Some j -> threshold m = Some t ->
      (j < ncols X4)%nat /\
      exists r, In r (rows X4) /\ nth j r (of_int 0) = t.
Proof.
  split; [reflexivity|].
  eexists. eexists. split; [vm_compute; reflexivity|].
  eapply (@exhaustive_thresholds_from_data
            float F64.ops (F64.mean_fit 1) tree2 [] X4 y4);
    [reflexivity|vm_compute; reflexivity].
Defined.

(** The uniform search on the four points with no sample and with minus
    one sample. *)
Lemma uniform_without_samples_witness :
  search tree_uniform0 = "uniform"%string /\
  search tree_uniform_neg = "uniform"%string /\
  samples tree_uniform0 = 0 /\ samples tree_uniform_neg < 0 /\
  @fit float F64.ops (F64.mean_fit 1) tree_uniform0 [] X4 y4
  = Ok (root4, [] ++ [UP]) /\
  @fit float F64.ops (F64.mean_fit 1) tree_uniform_neg [] X4 y4
  = Raise ValueError.
Proof.
  assert (Hv : @fit_value float F64.ops (F64.mean_fit 1) tree_uniform0 X4 y4
               = Ok (2403%float, 51%float))
    by (vm_compute; reflexivity).
  assert (Hv' : @fit_value float F64.ops (F64.mean_fit 1) tree_uniform_neg
                           X4 y4
                = Ok (2403%float, 51%float))
    by (vm_compute; reflexivity).
  assert (Hneg : samples tree_uniform_neg < 0) by (simpl; lia).
  split; [reflexivity|]. split; [reflexivity|]. split; [reflexivity|].
  split; [exact Hneg|]. split.
  - exact (proj1 (@uniform_without_samples
                    float F64.ops (F64.mean_fit 1) tree_uniform0 [] X4 y4
                    _ _ eq_refl Hv) eq_refl).
  - apply (proj2 (@uniform_without_samples
                    float F64.ops (F64.mean_fit 1) tree_uniform_neg [] X4 y4
                    _ _ eq_refl Hv') Hneg).
    + simpl. lia.
    + simpl. lia.
Defined.

(** The search at the root of the four points with the log on: six
    candidate fits, three entries. *)
Lemma split_search_effects_witness :
  exists res s',
    @_splitter float F64.ops (F64.mean_fit 1) tree1_logged root4
               (mk_state 2 [])
    = Ok (res, s') /\
    index_node_global s' = 8%nat /\ length (log s') = 3%nat /\
    (exists X y, data root4 = Some (X, y) /\ r_N res = len X) /\
    exists k evs,
      index_node_global s' = (2 + 2 * k)%nat /\
      log s' = [] ++ evs /\
      Forall (fun e => is_traversal e = false) evs /\
      (logging tree1_logged = false -> evs = []).
Proof.
  eexists. eexists. split; [vm_compute; reflexivity|].
  split; [vm_compute; reflexivity|]. split; [vm_compute; reflexivity|].
  eapply (proj2 (@split_search_effects float F64.ops (F64.mean_fit 1)
                   tree1_logged root4 (mk_state 2 []))).
  vm_compute. reflexivity.
Defined.
